(** * keyboard2thejoystick: keyboard to virtual THEJOYSTICK translator

    A shallow embedding of [keyboard2thejoystick.c]: the key-name table, the
    16-slot mapping table, the translation engine of [normal_run], the
    command-line parser, the remap wizard of [guimap_run] with its script
    export, and the framebuffer drawing primitives.

    C [int] values are integers of [Z].  The engine and the wizard stay far
    inside the 32-bit range (direction sums lie in [-8, 8], selections are
    small indices), and signed overflow, which C leaves undefined, is not
    given a meaning in the drawing code: its arithmetic is that of [Z].
    Where an [int] is computed from a value that a device supplies (the
    stick position, the display geometry) or from a string length, the
    result is taken into the 32-bit range with [int32].  C strings are
    [string]; C arrays are lists read with [!!] or [nth] and updated with
    [<[i := x]>]. *)

From Stdlib Require Import ZArith String Ascii.
From stdpp Require Import prelude strings sorting.

Local Open Scope string_scope.
Local Open Scope list_scope.
Local Open Scope Z_scope.

(** ** Constants *)

Definition NUM_DIRECTIONS : nat := 8.
Definition NUM_BUTTONS : nat := 8.
Definition NUM_MAPPINGS : nat := 16.

Definition FONT_W : Z := 8.
Definition FONT_H : Z := 16.

Definition AXIS_MIN : Z := 0.
Definition AXIS_MAX : Z := 255.
Definition AXIS_CENTER : Z := 127.

(** The range of a C [int], and the [int] a value outside that range is
    taken into: its low 32 bits read as a two's complement number. *)
Definition INT_MIN : Z := -2147483648.
Definition INT_MAX : Z := 2147483647.

Definition int32 (z : Z) : Z :=
  (z + 2147483648) mod 4294967296 - 2147483648.

(** Event types and codes, with the values the kernel header
    [linux/input-event-codes.h] gives them. *)

Definition EV_SYN : Z := 0.
Definition EV_KEY : Z := 1.
Definition EV_ABS : Z := 3.
Definition EV_MSC : Z := 4.
Definition SYN_REPORT : Z := 0.
Definition ABS_X : Z := 0.
Definition ABS_Y : Z := 1.
Definition MSC_SCAN : Z := 4.

Definition BTN_TRIGGER : Z := 288.
Definition BTN_THUMB : Z := 289.
Definition BTN_THUMB2 : Z := 290.
Definition BTN_TOP : Z := 291.
Definition BTN_TOP2 : Z := 292.
Definition BTN_PINKIE : Z := 293.
Definition BTN_BASE : Z := 294.
Definition BTN_BASE2 : Z := 295.

(** The key codes of the key-name table, with the values of the same
    header. *)

Definition KEY_ESC : Z := 1.
Definition KEY_1 : Z := 2.
Definition KEY_2 : Z := 3.
Definition KEY_3 : Z := 4.
Definition KEY_4 : Z := 5.
Definition KEY_5 : Z := 6.
Definition KEY_6 : Z := 7.
Definition KEY_7 : Z := 8.
Definition KEY_8 : Z := 9.
Definition KEY_9 : Z := 10.
Definition KEY_0 : Z := 11.
Definition KEY_MINUS : Z := 12.
Definition KEY_EQUAL : Z := 13.
Definition KEY_BACKSPACE : Z := 14.
Definition KEY_TAB : Z := 15.
Definition KEY_Q : Z := 16.
Definition KEY_W : Z := 17.
Definition KEY_E : Z := 18.
Definition KEY_R : Z := 19.
Definition KEY_T : Z := 20.
Definition KEY_Y : Z := 21.
Definition KEY_U : Z := 22.
Definition KEY_I : Z := 23.
Definition KEY_O : Z := 24.
Definition KEY_P : Z := 25.
Definition KEY_LEFTBRACE : Z := 26.
Definition KEY_RIGHTBRACE : Z := 27.
Definition KEY_ENTER : Z := 28.
Definition KEY_LEFTCTRL : Z := 29.
Definition KEY_A : Z := 30.
Definition KEY_S : Z := 31.
Definition KEY_D : Z := 32.
Definition KEY_F : Z := 33.
Definition KEY_G : Z := 34.
Definition KEY_H : Z := 35.
Definition KEY_J : Z := 36.
Definition KEY_K : Z := 37.
Definition KEY_L : Z := 38.
Definition KEY_SEMICOLON : Z := 39.
Definition KEY_APOSTROPHE : Z := 40.
Definition KEY_GRAVE : Z := 41.
Definition KEY_LEFTSHIFT : Z := 42.
Definition KEY_BACKSLASH : Z := 43.
Definition KEY_Z : Z := 44.
Definition KEY_X : Z := 45.
Definition KEY_C : Z := 46.
Definition KEY_V : Z := 47.
Definition KEY_B : Z := 48.
Definition KEY_N : Z := 49.
Definition KEY_M : Z := 50.
Definition KEY_COMMA : Z := 51.
Definition KEY_DOT : Z := 52.
Definition KEY_SLASH : Z := 53.
Definition KEY_RIGHTSHIFT : Z := 54.
Definition KEY_KPASTERISK : Z := 55.
Definition KEY_LEFTALT : Z := 56.
Definition KEY_SPACE : Z := 57.
Definition KEY_CAPSLOCK : Z := 58.
Definition KEY_F1 : Z := 59.
Definition KEY_F2 : Z := 60.
Definition KEY_F3 : Z := 61.
Definition KEY_F4 : Z := 62.
Definition KEY_F5 : Z := 63.
Definition KEY_F6 : Z := 64.
Definition KEY_F7 : Z := 65.
Definition KEY_F8 : Z := 66.
Definition KEY_F9 : Z := 67.
Definition KEY_F10 : Z := 68.
Definition KEY_F11 : Z := 87.
Definition KEY_F12 : Z := 88.
Definition KEY_KP7 : Z := 71.
Definition KEY_KP8 : Z := 72.
Definition KEY_KP9 : Z := 73.
Definition KEY_KPMINUS : Z := 74.
Definition KEY_KP4 : Z := 75.
Definition KEY_KP5 : Z := 76.
Definition KEY_KP6 : Z := 77.
Definition KEY_KPPLUS : Z := 78.
Definition KEY_KP1 : Z := 79.
Definition KEY_KP2 : Z := 80.
Definition KEY_KP3 : Z := 81.
Definition KEY_KP0 : Z := 82.
Definition KEY_KPDOT : Z := 83.
Definition KEY_KPENTER : Z := 96.
Definition KEY_RIGHTCTRL : Z := 97.
Definition KEY_RIGHTALT : Z := 100.
Definition KEY_HOME : Z := 102.
Definition KEY_UP : Z := 103.
Definition KEY_PAGEUP : Z := 104.
Definition KEY_LEFT : Z := 105.
Definition KEY_RIGHT : Z := 106.
Definition KEY_END : Z := 107.
Definition KEY_DOWN : Z := 108.
Definition KEY_PAGEDOWN : Z := 109.
Definition KEY_INSERT : Z := 110.
Definition KEY_DELETE : Z := 111.

(** ** Key name table *)

Record KeyName := { kn_code : Z; kn_name : string }.

Definition key_names : list KeyName := [
  {| kn_code := KEY_ESC; kn_name := "esc" |};
  {| kn_code := KEY_1; kn_name := "1" |};
  {| kn_code := KEY_2; kn_name := "2" |};
  {| kn_code := KEY_3; kn_name := "3" |};
  {| kn_code := KEY_4; kn_name := "4" |};
  {| kn_code := KEY_5; kn_name := "5" |};
  {| kn_code := KEY_6; kn_name := "6" |};
  {| kn_code := KEY_7; kn_name := "7" |};
  {| kn_code := KEY_8; kn_name := "8" |};
  {| kn_code := KEY_9; kn_name := "9" |};
  {| kn_code := KEY_0; kn_name := "0" |};
  {| kn_code := KEY_MINUS; kn_name := "minus" |};
  {| kn_code := KEY_EQUAL; kn_name := "equal" |};
  {| kn_code := KEY_BACKSPACE; kn_name := "backspace" |};
  {| kn_code := KEY_TAB; kn_name := "tab" |};
  {| kn_code := KEY_Q; kn_name := "q" |};
  {| kn_code := KEY_W; kn_name := "w" |};
  {| kn_code := KEY_E; kn_name := "e" |};
  {| kn_code := KEY_R; kn_name := "r" |};
  {| kn_code := KEY_T; kn_name := "t" |};
  {| kn_code := KEY_Y; kn_name := "y" |};
  {| kn_code := KEY_U; kn_name := "u" |};
  {| kn_code := KEY_I; kn_name := "i" |};
  {| kn_code := KEY_O; kn_name := "o" |};
  {| kn_code := KEY_P; kn_name := "p" |};
  {| kn_code := KEY_LEFTBRACE; kn_name := "bracketleft" |};
  {| kn_code := KEY_RIGHTBRACE; kn_name := "bracketright" |};
  {| kn_code := KEY_ENTER; kn_name := "enter" |};
  {| kn_code := KEY_LEFTCTRL; kn_name := "lctrl" |};
  {| kn_code := KEY_A; kn_name := "a" |};
  {| kn_code := KEY_S; kn_name := "s" |};
  {| kn_code := KEY_D; kn_name := "d" |};
  {| kn_code := KEY_F; kn_name := "f" |};
  {| kn_code := KEY_G; kn_name := "g" |};
  {| kn_code := KEY_H; kn_name := "h" |};
  {| kn_code := KEY_J; kn_name := "j" |};
  {| kn_code := KEY_K; kn_name := "k" |};
  {| kn_code := KEY_L; kn_name := "l" |};
  {| kn_code := KEY_SEMICOLON; kn_name := "semicolon" |};
  {| kn_code := KEY_APOSTROPHE; kn_name := "apostrophe" |};
  {| kn_code := KEY_GRAVE; kn_name := "grave" |};
  {| kn_code := KEY_LEFTSHIFT; kn_name := "lshift" |};
  {| kn_code := KEY_BACKSLASH; kn_name := "backslash" |};
  {| kn_code := KEY_Z; kn_name := "z" |};
  {| kn_code := KEY_X; kn_name := "x" |};
  {| kn_code := KEY_C; kn_name := "c" |};
  {| kn_code := KEY_V; kn_name := "v" |};
  {| kn_code := KEY_B; kn_name := "b" |};
  {| kn_code := KEY_N; kn_name := "n" |};
  {| kn_code := KEY_M; kn_name := "m" |};
  {| kn_code := KEY_COMMA; kn_name := "comma" |};
  {| kn_code := KEY_DOT; kn_name := "dot" |};
  {| kn_code := KEY_SLASH; kn_name := "slash" |};
  {| kn_code := KEY_RIGHTSHIFT; kn_name := "rshift" |};
  {| kn_code := KEY_KPASTERISK; kn_name := "kpasterisk" |};
  {| kn_code := KEY_LEFTALT; kn_name := "lalt" |};
  {| kn_code := KEY_SPACE; kn_name := "space" |};
  {| kn_code := KEY_CAPSLOCK; kn_name := "capslock" |};
  {| kn_code := KEY_F1; kn_name := "f1" |};
  {| kn_code := KEY_F2; kn_name := "f2" |};
  {| kn_code := KEY_F3; kn_name := "f3" |};
  {| kn_code := KEY_F4; kn_name := "f4" |};
  {| kn_code := KEY_F5; kn_name := "f5" |};
  {| kn_code := KEY_F6; kn_name := "f6" |};
  {| kn_code := KEY_F7; kn_name := "f7" |};
  {| kn_code := KEY_F8; kn_name := "f8" |};
  {| kn_code := KEY_F9; kn_name := "f9" |};
  {| kn_code := KEY_F10; kn_name := "f10" |};
  {| kn_code := KEY_F11; kn_name := "f11" |};
  {| kn_code := KEY_F12; kn_name := "f12" |};
  {| kn_code := KEY_KP7; kn_name := "kp7" |};
  {| kn_code := KEY_KP8; kn_name := "kp8" |};
  {| kn_code := KEY_KP9; kn_name := "kp9" |};
  {| kn_code := KEY_KPMINUS; kn_name := "kpminus" |};
  {| kn_code := KEY_KP4; kn_name := "kp4" |};
  {| kn_code := KEY_KP5; kn_name := "kp5" |};
  {| kn_code := KEY_KP6; kn_name := "kp6" |};
  {| kn_code := KEY_KPPLUS; kn_name := "kpplus" |};
  {| kn_code := KEY_KP1; kn_name := "kp1" |};
  {| kn_code := KEY_KP2; kn_name := "kp2" |};
  {| kn_code := KEY_KP3; kn_name := "kp3" |};
  {| kn_code := KEY_KP0; kn_name := "kp0" |};
  {| kn_code := KEY_KPDOT; kn_name := "kpdot" |};
  {| kn_code := KEY_KPENTER; kn_name := "kpenter" |};
  {| kn_code := KEY_RIGHTCTRL; kn_name := "rctrl" |};
  {| kn_code := KEY_RIGHTALT; kn_name := "ralt" |};
  {| kn_code := KEY_HOME; kn_name := "home" |};
  {| kn_code := KEY_UP; kn_name := "up" |};
  {| kn_code := KEY_PAGEUP; kn_name := "pageup" |};
  {| kn_code := KEY_LEFT; kn_name := "left" |};
  {| kn_code := KEY_RIGHT; kn_name := "right" |};
  {| kn_code := KEY_END; kn_name := "end" |};
  {| kn_code := KEY_DOWN; kn_name := "down" |};
  {| kn_code := KEY_PAGEDOWN; kn_name := "pagedown" |};
  {| kn_code := KEY_INSERT; kn_name := "insert" |};
  {| kn_code := KEY_DELETE; kn_name := "delete" |}
].

Definition NUM_KEY_NAMES : nat := length key_names.

(** [keycode_to_name]: the first entry with the code, else the placeholder. *)
Fixpoint keycode_to_name_from (tbl : list KeyName) (code : Z) : string :=
  match tbl with
  | [] => "?"
  | k :: rest =>
      if kn_code k =? code then kn_name k else keycode_to_name_from rest code
  end.

Definition keycode_to_name (code : Z) : string :=
  keycode_to_name_from key_names code.

(** [tolower] of the C locale on one character. *)
Definition tolower (c : ascii) : ascii :=
  let n := nat_of_ascii c in
  if ((65 <=? n) && (n <=? 90))%nat then ascii_of_nat (n + 32) else c.

Definition char_code (c : ascii) : Z := Z.of_nat (nat_of_ascii c).

(** [strcasecmp]: difference of the first pair of characters that differ
    after lower-casing, 0 for strings equal up to case. *)
Fixpoint strcasecmp (s1 s2 : string) : Z :=
  match s1, s2 with
  | EmptyString, EmptyString => 0
  | EmptyString, String c2 _ => 0 - char_code (tolower c2)
  | String c1 _, EmptyString => char_code (tolower c1)
  | String c1 r1, String c2 r2 =>
      let d := char_code (tolower c1) - char_code (tolower c2) in
      if d =? 0 then strcasecmp r1 r2 else d
  end.

(** [strcmp(a, b) == 0]. *)
Definition streq (a b : string) : bool := String.eqb a b.

(** [parse_keyname]: the code of the first entry whose name matches up to
    case, else -1. *)
Fixpoint parse_keyname_from (tbl : list KeyName) (name : string) : Z :=
  match tbl with
  | [] => -1
  | k :: rest =>
      if strcasecmp (kn_name k) name =? 0 then kn_code k
      else parse_keyname_from rest name
  end.

Definition parse_keyname (name : string) : Z :=
  parse_keyname_from key_names name.

(** ** Mapping table *)

Record Mapping := mkMapping {
  cli_name : string;     (* "--up", "--leftfire", ... *)
  label : string;        (* "Up", "Left Fire", ... *)
  keycode : Z;           (* current KEY_* code *)
  default_key : Z;       (* default KEY_* code *)
  btn_code : Z;          (* BTN_* for buttons, -1 for directions *)
  dx : Z;                (* direction contribution *)
  dy : Z
}.

(** [g_map[m].keycode = kc] on one slot. *)
Definition set_keycode (kc : Z) (m : Mapping) : Mapping :=
  mkMapping (cli_name m) (label m) kc (default_key m) (btn_code m) (dx m) (dy m).

(** The table as [init_mappings] builds it. *)
Definition init_mappings : list Mapping := [
  mkMapping "--up"        "Up"         KEY_W          KEY_W          (-1) 0 (-1);
  mkMapping "--down"      "Down"       KEY_X          KEY_X          (-1) 0 1;
  mkMapping "--left"      "Left"       KEY_A          KEY_A          (-1) (-1) 0;
  mkMapping "--right"     "Right"      KEY_D          KEY_D          (-1) 1 0;
  mkMapping "--upleft"    "Up-Left"    KEY_Q          KEY_Q          (-1) (-1) (-1);
  mkMapping "--upright"   "Up-Right"   KEY_E          KEY_E          (-1) 1 (-1);
  mkMapping "--downleft"  "Down-Left"  KEY_Z          KEY_Z          (-1) (-1) 1;
  mkMapping "--downright" "Down-Right" KEY_C          KEY_C          (-1) 1 1;
  mkMapping "--leftfire"  "Left Fire"  KEY_SPACE      KEY_SPACE      BTN_TRIGGER 0 0;
  mkMapping "--rightfire" "Right Fire" KEY_LEFTALT    KEY_LEFTALT    BTN_THUMB 0 0;
  mkMapping "--lefttri"   "Left Tri"   KEY_LEFTBRACE  KEY_LEFTBRACE  BTN_THUMB2 0 0;
  mkMapping "--righttri"  "Right Tri"  KEY_RIGHTBRACE KEY_RIGHTBRACE BTN_TOP 0 0;
  mkMapping "--menu1"     "Menu 1"     KEY_7          KEY_7          BTN_TOP2 0 0;
  mkMapping "--menu2"     "Menu 2"     KEY_8          KEY_8          BTN_PINKIE 0 0;
  mkMapping "--menu3"     "Menu 3"     KEY_9          KEY_9          BTN_BASE 0 0;
  mkMapping "--menu4"     "Menu 4"     KEY_0          KEY_0          BTN_BASE2 0 0
].

(** Filler for reads past the end of the table; no code path reads past
    its sixteen slots. *)
Definition null_mapping : Mapping := mkMapping "" "" 0 0 0 0 0.

(** [g_map[i]]. *)
Definition slot (g : list Mapping) (i : nat) : Mapping := nth i g null_mapping.

(** The part of a slot that no code path writes after [init_mappings]. *)
Definition fixed_part (m : Mapping) : string * string * Z * Z * Z * Z :=
  (cli_name m, label m, default_key m, btn_code m, dx m, dy m).

(** A table that differs from the initial one in key codes only. *)
Definition table_wf (g : list Mapping) : Prop :=
  fixed_part <$> g = fixed_part <$> init_mappings.

(** ** Input events and the engine state *)

(** [struct input_event] without its time stamp. *)
Record input_event := mkEvent { ev_type : Z; ev_code : Z; ev_value : Z }.

#[global] Instance input_event_eq_dec : EqDecision input_event.
Proof. solve_decision. Defined.

(** The globals of the translation engine.  The flags [g_dir_held],
    [g_ctrl_held] and [g_suspended] only ever hold 0 or 1 and are booleans
    here.  [g_kbd_grabbed] has one entry per open keyboard, so its length is
    [g_num_kbd_fds].  [uinput] is the sequence of events written to
    [g_uinput_fd] so far, oldest first. *)
Record engine := mkEngine {
  g_map : list Mapping;
  g_dir_held : list bool;
  g_ctrl_held : bool;
  g_suspended : bool;
  g_kbd_grabbed : list bool;
  uinput : list input_event
}.

Definition set_map (g : list Mapping) (st : engine) : engine :=
  mkEngine g (g_dir_held st) (g_ctrl_held st) (g_suspended st)
           (g_kbd_grabbed st) (uinput st).
Definition set_dir_held (h : list bool) (st : engine) : engine :=
  mkEngine (g_map st) h (g_ctrl_held st) (g_suspended st)
           (g_kbd_grabbed st) (uinput st).
Definition set_ctrl_held (c : bool) (st : engine) : engine :=
  mkEngine (g_map st) (g_dir_held st) c (g_suspended st)
           (g_kbd_grabbed st) (uinput st).
Definition set_suspended (s : bool) (st : engine) : engine :=
  mkEngine (g_map st) (g_dir_held st) (g_ctrl_held st) s
           (g_kbd_grabbed st) (uinput st).
Definition set_kbd_grabbed (k : list bool) (st : engine) : engine :=
  mkEngine (g_map st) (g_dir_held st) (g_ctrl_held st) (g_suspended st)
           k (uinput st).

(** [emit_event]: one event written to the virtual joystick.  A failed
    write is only logged by the C code; the trace records the attempt. *)
Definition emit_event (type code value : Z) (st : engine) : engine :=
  mkEngine (g_map st) (g_dir_held st) (g_ctrl_held st) (g_suspended st)
           (g_kbd_grabbed st) (uinput st ++ [mkEvent type code value]).

Definition emit_syn (st : engine) : engine := emit_event EV_SYN SYN_REPORT 0 st.

(** [g_dir_held[d]]. *)
Definition held_at (held : list bool) (d : nat) : bool := nth d held false.

(** The summing loop of [recalc_and_emit_axes]. *)
Definition axis_sums (g : list Mapping) (held : list bool) : Z * Z :=
  foldl (fun s d =>
           if held_at held d
           then (s.1 + dx (slot g d), s.2 + dy (slot g d))
           else s)
        (0, 0) (seq 0 NUM_DIRECTIONS).

(** [if (s < -1) s = -1; if (s > 1) s = 1;] *)
Definition clamp1 (s : Z) : Z :=
  let s := if s <? -1 then -1 else s in
  if s >? 1 then 1 else s.

(** [(s < 0) ? 0 : (s > 0) ? 255 : 127] *)
Definition axis_value (s : Z) : Z :=
  if s <? 0 then 0 else if s >? 0 then 255 else 127.

Definition recalc_and_emit_axes (st : engine) : engine :=
  let s := axis_sums (g_map st) (g_dir_held st) in
  let sx := clamp1 s.1 in
  let sy := clamp1 s.2 in
  let ax := axis_value sx in
  let ay := axis_value sy in
  emit_syn (emit_event EV_ABS ABS_Y ay (emit_event EV_ABS ABS_X ax st)).

(** [grab_keyboards]: [ioctl_grab i] tells whether EVIOCGRAB succeeds on
    keyboard [i]. *)
Definition grab_keyboards (ioctl_grab : nat → bool) (st : engine) : engine :=
  set_kbd_grabbed (ioctl_grab <$> seq 0 (length (g_kbd_grabbed st))) st.

Definition ungrab_keyboards (st : engine) : engine :=
  set_kbd_grabbed ((fun _ => false) <$> g_kbd_grabbed st) st.

(** [for (b = NUM_DIRECTIONS; b < NUM_MAPPINGS; b++) emit_event(.., EV_KEY,
    g_map[b].btn_code, 0)] *)
Definition release_buttons (st : engine) : engine :=
  foldl (fun s b => emit_event EV_KEY (btn_code (slot (g_map s) b)) 0 s)
        st (seq NUM_DIRECTIONS NUM_BUTTONS).

Definition center_axes (st : engine) : engine :=
  emit_syn (emit_event EV_ABS ABS_Y AXIS_CENTER
             (emit_event EV_ABS ABS_X AXIS_CENTER st)).

(** [memset(g_dir_held, 0, sizeof(g_dir_held))] *)
Definition clear_dir_held (st : engine) : engine :=
  set_dir_held (replicate NUM_DIRECTIONS false) st.

(** One round of the direction loop of [normal_run]. *)
Definition check_direction (g : list Mapping) (code : Z) (pressed : bool)
    (acc : list bool * bool) (d : nat) : list bool * bool :=
  if code =? keycode (slot g d) then
    if negb (eqb (held_at acc.1 d) pressed)
    then (<[d := pressed]> acc.1, true)
    else acc
  else acc.

Definition check_directions (g : list Mapping) (code : Z) (pressed : bool)
    (held : list bool) (axis_dirty : bool) : list bool * bool :=
  foldl (check_direction g code pressed) (held, axis_dirty)
        (seq 0 NUM_DIRECTIONS).

(** One round of the button loop of [normal_run]. *)
Definition check_button (code : Z) (pressed : bool) (st : engine) (b : nat)
    : engine :=
  if code =? keycode (slot (g_map st) b) then
    emit_syn
      (emit_event EV_KEY (btn_code (slot (g_map st) b)) (Z.b2z pressed)
         (emit_event EV_MSC MSC_SCAN
            (0x90001 + (btn_code (slot (g_map st) b) - BTN_TRIGGER)) st))
  else st.

Definition check_buttons (code : Z) (pressed : bool) (st : engine) : engine :=
  foldl (check_button code pressed) st (seq NUM_DIRECTIONS NUM_BUTTONS).

(** How the body of the read loop leaves: [Next] for the next event
    ([continue] or the end of the body), [Drained] when the resume branch
    has emptied every keyboard queue, [BreakInner] for [goto break_inner]. *)
Inductive outcome := Next | Drained | BreakInner.

(** The body of the read loop of [normal_run] on one event. *)
Definition handle_event (ioctl_grab : nat → bool) (ev : input_event)
    (st : engine) (axis_dirty : bool) : engine * bool * outcome :=
  if negb (ev_type ev =? EV_KEY) then (st, axis_dirty, Next)
  else if ev_value ev =? 2 then (st, axis_dirty, Next)
  else
    let pressed := ev_value ev =? 1 in
    if (ev_code ev =? KEY_LEFTCTRL) || (ev_code ev =? KEY_RIGHTCTRL) then
      (set_ctrl_held pressed st, axis_dirty, Next)
    else if (ev_code ev =? KEY_S) && pressed && g_ctrl_held st then
      if negb (g_suspended st) then
        (set_suspended true
           (ungrab_keyboards
              (clear_dir_held (center_axes (release_buttons st)))),
         axis_dirty, Next)
      else
        (set_ctrl_held false
           (set_suspended false (grab_keyboards ioctl_grab st)),
         axis_dirty, Drained)
    else if (ev_code ev =? KEY_R) && pressed && g_ctrl_held st then
      (set_suspended false st, axis_dirty, BreakInner)
    else if g_suspended st then (st, axis_dirty, Next)
    else
      let hd := check_directions (g_map st) (ev_code ev) pressed
                                 (g_dir_held st) axis_dirty in
      (check_buttons (ev_code ev) pressed (set_dir_held hd.1 st), hd.2, Next).

(** The [while (read(...))] loop over the events queued on one keyboard. *)
Fixpoint read_loop (ioctl_grab : nat → bool) (q : list input_event)
    (st : engine) (axis_dirty : bool) : engine * bool * outcome :=
  match q with
  | [] => (st, axis_dirty, Next)
  | ev :: q' =>
      match handle_event ioctl_grab ev st axis_dirty with
      | (st', dirty', Next) => read_loop ioctl_grab q' st' dirty'
      | r => r
      end
  end.

(** The [for (k ...)] loop over the keyboards; [qs] holds the events queued
    on each keyboard when the iteration starts.  After [Drained] every later
    read finds its queue empty. *)
Fixpoint kbd_loop (ioctl_grab : nat → bool) (qs : list (list input_event))
    (st : engine) (axis_dirty : bool) : engine * bool * outcome :=
  match qs with
  | [] => (st, axis_dirty, Next)
  | q :: qs' =>
      match read_loop ioctl_grab q st axis_dirty with
      | (st', dirty', Next) => kbd_loop ioctl_grab qs' st' dirty'
      | r => r
      end
  end.

(** One iteration of the inner translation loop.  The boolean tells whether
    the iteration left through [break_inner] (a remap was requested). *)
Definition tick (ioctl_grab : nat → bool) (qs : list (list input_event))
    (st : engine) : engine * bool :=
  match kbd_loop ioctl_grab qs st false with
  | (st', _, BreakInner) => (st', true)
  | (st', dirty, _) =>
      (if dirty then recalc_and_emit_axes st' else st', false)
  end.

(** The inner translation loop: iterations until [break_inner], or until
    the quit flag is set, which is when the queue snapshots run out. *)
Fixpoint inner_loop (ioctl_grab : nat → bool)
    (qss : list (list (list input_event))) (st : engine) : engine * bool :=
  match qss with
  | [] => (st, false)
  | qs :: rest =>
      match tick ioctl_grab qs st with
      | (st', true) => (st', true)
      | (st', false) => inner_loop ioctl_grab rest st'
      end
  end.

(** [suspend_translation] *)
Definition suspend_translation (st : engine) : engine :=
  let st := center_axes (release_buttons st) in
  let st := ungrab_keyboards st in
  let st := set_kbd_grabbed [] st in
  set_suspended false (set_ctrl_held false (clear_dir_held st)).

(** ** Command line *)

(** The slot loop of [parse_args]: the first slot whose flag is [arg]. *)
Fixpoint find_mapping (g : list Mapping) (arg : string) : option nat :=
  match g with
  | [] => None
  | s :: rest =>
      if streq arg (cli_name s) then Some 0%nat
      else S <$> find_mapping rest arg
  end.

Record parse_result := mkParse {
  pr_status : Z;
  pr_help : bool;
  pr_guimap : bool;
  pr_map : list Mapping
}.

(** The argument loop of [parse_args] from [argv[i]] on. *)
Fixpoint parse_loop (args : list string) (help guimap : bool)
    (g : list Mapping) : parse_result :=
  match args with
  | [] => mkParse 0 help guimap g
  | a :: rest =>
      if streq a "--help" || streq a "-h" then parse_loop rest true guimap g
      else if streq a "--guimap" then parse_loop rest help true g
      else
        match find_mapping g a with
        | Some m =>
            match rest with
            | [] => mkParse (-1) help guimap g
            | kn :: rest' =>
                let kc := parse_keyname kn in
                if kc <? 0 then mkParse (-1) help guimap g
                else parse_loop rest' help guimap
                       (<[m := set_keycode kc (slot g m)]> g)
            end
        | None => mkParse (-1) help guimap g
        end
  end.

(** [parse_args]: [argv[0]] is the program name. *)
Definition parse_args (argv : list string) (g : list Mapping) : parse_result :=
  parse_loop (tail argv) false false g.

(** ** Remap wizard *)

Inductive guimap_state := GUIMAP_MAP | GUIMAP_REVIEW | GUIMAP_BROWSE.

Definition GUIMAP_REVIEW_APPLY : Z := 16.
Definition GUIMAP_REVIEW_QUIT : Z := 17.
Definition GUIMAP_REVIEW_SAVE : Z := 18.
Definition GUIMAP_REVIEW_TOTAL : Z := 19.
Definition MAX_DIR_ENTRIES : nat := 256.

Record DirEntry := mkDirEntry { de_name : string; de_is_dir : bool }.

(** [DirBrowser]; [count] is the length of [b_entries]. *)
Record DirBrowser := mkBrowser {
  b_path : string;
  b_entries : list DirEntry;
  b_selected : Z;
  b_scroll : Z
}.

(** A file as [guimap_save_script] leaves it. *)
Record file := mkFile { file_path : string; file_text : string; file_mode : Z }.

(** What the wizard finds outside the program: whether the framebuffer
    opens, how many keyboards and whether a joystick are found, the
    directory entries [readdir] yields for a path (name, and whether [stat]
    calls it a directory; [None] when [opendir] fails) and whether [fopen]
    for writing succeeds. *)
Record wizard_env := mkEnv {
  fb_ok : bool;
  kbd_found : nat;
  joy_found : bool;
  readdir : string → option (list (string * bool));
  fopen_ok : string → bool
}.

(** The input of one frame: the code [read_keyboard_press] returns (0 for
    none) and the events queued on the joystick. *)
Record frame := mkFrame { f_key : Z; f_joy : list input_event }.

(** The fields of [GuimapApp] that steer the wizard; the framebuffer and the
    blink timer only feed the renderer. *)
Record GuimapApp := mkApp {
  state : guimap_state;
  cur_map : Z;
  redo_single : Z;
  review_sel : Z;
  browser : DirBrowser;
  save_path : string;
  mapped : list bool;
  applied : bool;
  joy_prev_y : Z
}.

Definition newline : string := String (ascii_of_nat 10) EmptyString.

(** [dir_entry_cmp] *)
Definition dir_entry_cmp (a b : DirEntry) : Z :=
  if negb (eqb (de_is_dir a) (de_is_dir b))
  then Z.b2z (de_is_dir b) - Z.b2z (de_is_dir a)
  else strcasecmp (de_name a) (de_name b).

(** The order [dir_entry_cmp] sorts by. *)
Definition entry_le (a b : DirEntry) : Prop := dir_entry_cmp a b ≤ 0.

#[global] Instance entry_le_dec : RelDecision entry_le.
Proof. intros a b. unfold entry_le. apply _. Defined.

(** [qsort] with [dir_entry_cmp].  The C library leaves the order of
    entries that compare equal open; the model sorts by merging. *)
Definition qsort_entries (l : list DirEntry) : list DirEntry :=
  merge_sort entry_le l.

Definition first_char_is_dot (s : string) : bool :=
  match s with
  | String c _ => (nat_of_ascii c =? 46)%nat
  | EmptyString => false
  end.

(** The [readdir] loop of [browser_load]: hidden names and non-directories
    are skipped, reading stops at [MAX_DIR_ENTRIES] entries. *)
Fixpoint load_entries (ds : list (string * bool)) (acc : list DirEntry)
    : list DirEntry :=
  match ds with
  | [] => acc
  | (name, isdir) :: rest =>
      if (length acc <? MAX_DIR_ENTRIES)%nat then
        if first_char_is_dot name then load_entries rest acc
        else if negb isdir then load_entries rest acc
        else load_entries rest
               (acc ++ [mkDirEntry (String.substring 0 255 name) true])
      else acc
  end.

Definition browser_load (env : wizard_env) (path : string) : DirBrowser :=
  let bpath := String.substring 0 511 path in
  let ents := if streq bpath "/" then [] else [mkDirEntry ".." true] in
  match readdir env path with
  | None => mkBrowser bpath ents 0 0
  | Some ds =>
      let ents := load_entries ds ents in
      let start :=
        match ents with
        | e :: _ => if streq (de_name e) ".." then 1%nat else 0%nat
        | [] => 0%nat
        end in
      let ents :=
        if (1 <? length ents - start)%nat
        then take start ents ++ qsort_entries (drop start ents)
        else ents in
      let ents :=
        if (length ents <? MAX_DIR_ENTRIES)%nat
        then ents ++ [mkDirEntry ">> Export here <<" false]
        else ents in
      mkBrowser bpath ents 0 0
  end.

(** Index of the last ['/'] of a path, as [strrchr] finds it. *)
Fixpoint strrchr_slash (s : string) : option nat :=
  match s with
  | EmptyString => None
  | String c r =>
      match strrchr_slash r with
      | Some i => Some (S i)
      | None => if (nat_of_ascii c =? 47)%nat then Some 0%nat else None
      end
  end.

(** The path after going up one directory. *)
Definition parent_path (p : string) : string :=
  match strrchr_slash p with
  | Some (S i) => String.substring 0 (S i) p
  | _ => "/"
  end.

(** [read_joystick_nav]: returns the new [prev_y], [nav_dy], [nav_confirm]. *)
Fixpoint read_joystick_nav (evs : list input_event) (prev_y nav_dy : Z)
    (nav_confirm : bool) : Z * Z * bool :=
  match evs with
  | [] => (prev_y, nav_dy, nav_confirm)
  | ev :: rest =>
      if (ev_type ev =? EV_ABS) && (ev_code ev =? ABS_Y) then
        let delta := int32 (ev_value ev - AXIS_CENTER) in
        let cur := if delta <? -50 then -1 else if delta >? 50 then 1 else 0 in
        if negb (cur =? prev_y)
        then read_joystick_nav rest cur cur nav_confirm
        else read_joystick_nav rest prev_y nav_dy nav_confirm
      else if (ev_type ev =? EV_KEY) && (ev_code ev =? BTN_TRIGGER)
              && (ev_value ev =? 1)
      then read_joystick_nav rest prev_y nav_dy true
      else read_joystick_nav rest prev_y nav_dy nav_confirm
  end.

(** The file name [guimap_save_script] writes to. *)
Definition script_path (bpath : string) : string :=
  if streq bpath "/" then "/keyboard2thejoystick.sh"
  else String.substring 0 470 bpath +:+ "/keyboard2thejoystick.sh".

(** One round of the slot loop of [guimap_save_script]:
    [fprintf(fp, " \\\n  %s %s", g_map[i].cli_name, kn)]. *)
Definition script_option (m : Mapping) : string :=
  " \" +:+ newline +:+ "  " +:+ cli_name m +:+ " " +:+ keycode_to_name (keycode m).

(** Everything [guimap_save_script] prints to the file. *)
Definition script_text (g : list Mapping) : string :=
  foldl (fun text i => text +:+ script_option (slot g i))
        ("#!/bin/sh" +:+ newline +:+ "exec ./keyboard2thejoystick")
        (seq 0 NUM_MAPPINGS)
  +:+ newline.

(** The mode of [chmod(filepath, 0755)]. *)
Definition MODE_0755 : Z := 7 * 64 + 5 * 8 + 5.

(** [guimap_save_script]: the files written so far and the new
    [save_path]. *)
Definition guimap_save_script (env : wizard_env) (g : list Mapping)
    (app : GuimapApp) (fs : list file) : GuimapApp * list file :=
  let filepath := script_path (b_path (browser app)) in
  if fopen_ok env filepath then
    (mkApp (state app) (cur_map app) (redo_single app) (review_sel app)
           (browser app) filepath (mapped app) (applied app) (joy_prev_y app),
     fs ++ [mkFile filepath (script_text g) MODE_0755])
  else (app, fs).

Definition set_state (s : guimap_state) (a : GuimapApp) : GuimapApp :=
  mkApp s (cur_map a) (redo_single a) (review_sel a) (browser a)
        (save_path a) (mapped a) (applied a) (joy_prev_y a).
Definition set_cur_map (c : Z) (a : GuimapApp) : GuimapApp :=
  mkApp (state a) c (redo_single a) (review_sel a) (browser a)
        (save_path a) (mapped a) (applied a) (joy_prev_y a).
Definition set_redo_single (r : Z) (a : GuimapApp) : GuimapApp :=
  mkApp (state a) (cur_map a) r (review_sel a) (browser a)
        (save_path a) (mapped a) (applied a) (joy_prev_y a).
Definition set_review_sel (r : Z) (a : GuimapApp) : GuimapApp :=
  mkApp (state a) (cur_map a) (redo_single a) r (browser a)
        (save_path a) (mapped a) (applied a) (joy_prev_y a).
Definition set_browser (b : DirBrowser) (a : GuimapApp) : GuimapApp :=
  mkApp (state a) (cur_map a) (redo_single a) (review_sel a) b
        (save_path a) (mapped a) (applied a) (joy_prev_y a).
Definition set_mapped (m : list bool) (a : GuimapApp) : GuimapApp :=
  mkApp (state a) (cur_map a) (redo_single a) (review_sel a) (browser a)
        (save_path a) m (applied a) (joy_prev_y a).
Definition set_applied (p : bool) (a : GuimapApp) : GuimapApp :=
  mkApp (state a) (cur_map a) (redo_single a) (review_sel a) (browser a)
        (save_path a) (mapped a) p (joy_prev_y a).
Definition set_joy_prev_y (y : Z) (a : GuimapApp) : GuimapApp :=
  mkApp (state a) (cur_map a) (redo_single a) (review_sel a) (browser a)
        (save_path a) (mapped a) (applied a) y.

Definition set_selected (s : Z) (b : DirBrowser) : DirBrowser :=
  mkBrowser (b_path b) (b_entries b) s (b_scroll b).
Definition set_scroll (s : Z) (b : DirBrowser) : DirBrowser :=
  mkBrowser (b_path b) (b_entries b) (b_selected b) s.

(** The joystick part of a REVIEW or BROWSE frame: [jdy], [jconfirm] and
    the updated [joy_prev_y]; without a joystick both stay 0. *)
Definition frame_nav (env : wizard_env) (fr : frame) (app : GuimapApp)
    : GuimapApp * Z * bool :=
  if joy_found env then
    match read_joystick_nav (f_joy fr) (joy_prev_y app) 0 false with
    | (prev, jdy, jconfirm) => (set_joy_prev_y prev app, jdy, jconfirm)
    end
  else (app, 0, false).

(** The wizard's world: its own state, the shared table [g_map] and the
    files written. *)
Record wizard := mkWizard {
  w_app : GuimapApp;
  w_map : list Mapping;
  w_files : list file
}.

(** REVIEW leaves for CAPTURE of the selected row. *)
Definition redo_selected (app : GuimapApp) : GuimapApp :=
  set_state GUIMAP_MAP
    (set_cur_map (review_sel app) (set_redo_single (review_sel app) app)).

(** The CAPTURE branch of the frame loop. *)
Definition frame_map (fr : frame) (w : wizard) : wizard * bool :=
  let app := w_app w in
  let key := f_key fr in
  if key >? 0 then
    let cur := Z.to_nat (cur_map app) in
    let g := <[cur := set_keycode key (slot (w_map w) cur)]> (w_map w) in
    let app := set_mapped (<[cur := true]> (mapped app)) app in
    let app :=
      if redo_single app >=? 0 then
        set_state GUIMAP_REVIEW (set_redo_single (-1) app)
      else
        let app := set_cur_map (cur_map app + 1) app in
        if cur_map app >=? Z.of_nat NUM_MAPPINGS
        then set_review_sel 0 (set_state GUIMAP_REVIEW app)
        else app in
    (mkWizard app g (w_files w), false)
  else (w, false).

(** The REVIEW branch; the boolean is the [break] out of the frame loop. *)
Definition frame_review (env : wizard_env) (fr : frame) (w : wizard)
    : wizard * bool :=
  let key := f_key fr in
  match frame_nav env fr (w_app w) with
  | (app, jdy, jconfirm) =>
      let keep a := (mkWizard a (w_map w) (w_files w), false) in
      let leave a := (mkWizard a (w_map w) (w_files w), true) in
      let in_rows :=
        (review_sel app >=? 0) && (review_sel app <? Z.of_nat NUM_MAPPINGS) in
      let save a :=
        set_state GUIMAP_BROWSE (set_browser (browser_load env "/mnt") a) in
      if (key =? KEY_UP) || (jdy <? 0) then
        let s := review_sel app - 1 in
        keep (set_review_sel (if s <? 0 then 0 else s) app)
      else if (key =? KEY_DOWN) || (jdy >? 0) then
        let s := review_sel app + 1 in
        keep (set_review_sel
                (if s >=? GUIMAP_REVIEW_TOTAL then GUIMAP_REVIEW_TOTAL - 1
                 else s) app)
      else if key =? KEY_1 then
        keep (if in_rows then redo_selected app else app)
      else if key =? KEY_A then leave (set_applied true app)
      else if (key =? KEY_Q) || (key =? KEY_ESC) then leave app
      else if key =? KEY_S then keep (save app)
      else if (key =? KEY_ENTER) || (key =? KEY_SPACE) || jconfirm then
        if in_rows then keep (redo_selected app)
        else if review_sel app =? GUIMAP_REVIEW_APPLY
        then leave (set_applied true app)
        else if review_sel app =? GUIMAP_REVIEW_QUIT then leave app
        else if review_sel app =? GUIMAP_REVIEW_SAVE then keep (save app)
        else keep app
      else keep app
  end.

(** The scroll-window block that ends the BROWSE branch. *)
Definition browse_scroll (b : DirBrowser) : DirBrowser :=
  let visible := 18 in
  let b := if b_selected b <? b_scroll b then set_scroll (b_selected b) b
           else b in
  if b_selected b >=? b_scroll b + visible
  then set_scroll (b_selected b - visible + 1) b
  else b.

(** The BROWSE branch. *)
Definition frame_browse (env : wizard_env) (fr : frame) (w : wizard)
    : wizard :=
  let key := f_key fr in
  match frame_nav env fr (w_app w) with
  | (app, jdy, jconfirm) =>
      let b := browser app in
      let count := Z.of_nat (length (b_entries b)) in
      let w' :=
        if (key =? KEY_UP) || (jdy <? 0) then
          let s := b_selected b - 1 in
          mkWizard (set_browser (set_selected (if s <? 0 then 0 else s) b) app)
                   (w_map w) (w_files w)
        else if (key =? KEY_DOWN) || (jdy >? 0) then
          let s := b_selected b + 1 in
          mkWizard
            (set_browser
               (set_selected (if s >=? count then count - 1 else s) b) app)
            (w_map w) (w_files w)
        else if (key =? KEY_ENTER) || jconfirm then
          match b_entries b !! Z.to_nat (b_selected b) with
          | Some e =>
              if streq (de_name e) ".." then
                mkWizard
                  (set_browser (browser_load env (parent_path (b_path b))) app)
                  (w_map w) (w_files w)
              else if de_is_dir e then
                let newpath :=
                  if streq (b_path b) "/"
                  then "/" +:+ String.substring 0 250 (de_name e)
                  else String.substring 0 250 (b_path b) +:+ "/"
                       +:+ String.substring 0 250 (de_name e) in
                mkWizard (set_browser (browser_load env newpath) app)
                         (w_map w) (w_files w)
              else
                match guimap_save_script env (w_map w) app (w_files w) with
                | (app', fs') =>
                    mkWizard (set_state GUIMAP_REVIEW app') (w_map w) fs'
                end
          | None => mkWizard app (w_map w) (w_files w)
          end
        else if (key =? KEY_LEFT) || (key =? KEY_BACKSPACE) then
          mkWizard
            (set_browser (browser_load env (parent_path (b_path b))) app)
            (w_map w) (w_files w)
        else if (key =? KEY_Q) || (key =? KEY_ESC) then
          mkWizard (set_state GUIMAP_REVIEW app) (w_map w) (w_files w)
        else mkWizard app (w_map w) (w_files w) in
      mkWizard
        (set_browser (browse_scroll (browser (w_app w'))) (w_app w'))
        (w_map w') (w_files w')
  end.

(** The update part of one frame of [guimap_run]. *)
Definition guimap_frame (env : wizard_env) (fr : frame) (w : wizard)
    : wizard * bool :=
  match state (w_app w) with
  | GUIMAP_MAP => frame_map fr w
  | GUIMAP_REVIEW => frame_review env fr w
  | GUIMAP_BROWSE => (frame_browse env fr w, false)
  end.

(** The frame loop: it runs until a [break] or until the quit flag is set,
    which is when the frames run out. *)
Fixpoint guimap_loop (env : wizard_env) (frames : list frame) (w : wizard)
    : wizard :=
  match frames with
  | [] => w
  | fr :: rest =>
      match guimap_frame env fr w with
      | (w', true) => w'
      | (w', false) => guimap_loop env rest w'
      end
  end.

(** [gapp] after the [memset] and the start-up assignments. *)
Definition initial_app : GuimapApp :=
  mkApp GUIMAP_MAP 0 (-1) 0 (mkBrowser "" [] 0 0) ""
        (replicate NUM_MAPPINGS false) false 0.

(** [guimap_run]: the table and files it leaves and its return value. *)
Definition guimap_run (env : wizard_env) (frames : list frame)
    (g : list Mapping) (fs : list file) : list Mapping * list file * Z :=
  if negb (fb_ok env) then (g, fs, 1)
  else if (kbd_found env =? 0)%nat then (g, fs, 1)
  else
    let w := guimap_loop env frames (mkWizard initial_app g fs) in
    (w_map w, w_files w, if applied (w_app w) then 0 else 1).

(** The remap session of [normal_run], from [break_inner] to the re-grab:
    [rescan] is the number of keyboards the second scan finds. *)
Definition remap_session (ioctl_grab : nat → bool) (env : wizard_env)
    (frames : list frame) (rescan : nat) (st : engine) (fs : list file)
    : engine * list file :=
  let st := suspend_translation st in
  let saved_map := g_map st in
  match guimap_run env frames (g_map st) fs with
  | (g', fs', remap_result) =>
      let st := set_map g' st in
      let st := if negb (remap_result =? 0) then set_map saved_map st
                else st in
      let st := set_kbd_grabbed (replicate rescan false) st in
      (grab_keyboards ioctl_grab st, fs')
  end.

(** ** Framebuffer and drawing primitives *)

(** [Framebuffer]: the geometry and the back buffer, one [uint32_t] per
    element.  The mapped front buffer is only written by [fb_flip]. *)
Record Framebuffer := mkFb {
  width : Z;
  height : Z;
  stride_px : Z;
  backbuf : list Z
}.

(** What [fb_init] meets: whether [/dev/fb0] opens and the two ioctls
    succeed, the [__u32] fields they report, and whether [mmap] and
    [malloc] succeed. *)
Record fb_sys := mkFbSys {
  fb_open_ok : bool;
  vinfo_ok : bool;
  finfo_ok : bool;
  xres : Z;
  yres : Z;
  bits_per_pixel : Z;
  line_length : Z;
  mmap_ok : bool;
  malloc_ok : bool
}.

(** How [fb_init] ends: with the framebuffer set up (it returns 0), with
    an error (it returns -1), or in the division by zero of a display that
    reports fewer than 8 bits per pixel. *)
Inductive fb_result :=
  | FbReady (fb : Framebuffer)
  | FbError
  | FbDivZero.

(** [fb_init]; [size_bits] is the width of [size_t].  The unsigned fields
    are taken into [int]s, the byte size is a [size_t] product, and the
    back buffer is [size] zeroed bytes, which are [size / 4] whole
    [uint32_t] elements. *)
Definition fb_init (size_bits : Z) (d : fb_sys) : fb_result :=
  if negb (fb_open_ok d) then FbError
  else if negb (vinfo_ok d) then FbError
  else if negb (finfo_ok d) then FbError
  else if bits_per_pixel d / 8 =? 0 then FbDivZero
  else
    let size := (line_length d * yres d) mod 2 ^ size_bits in
    if negb (mmap_ok d) then FbError
    else if negb (malloc_ok d) then FbError
    else FbReady (mkFb (int32 (xres d)) (int32 (yres d))
                       (int32 (line_length d / (bits_per_pixel d / 8)))
                       (replicate (Z.to_nat (size / 4)) 0)).

(** [fb->backbuf[i] = c].  A store outside the allocation is undefined
    behaviour in C; here it is the failure [None]. *)
Definition store (i c : Z) (fb : Framebuffer) : option Framebuffer :=
  if (0 <=? i) && (i <? Z.of_nat (length (backbuf fb)))
  then Some (mkFb (width fb) (height fb) (stride_px fb)
                  (<[Z.to_nat i := c]> (backbuf fb)))
  else None.

Definition draw_pixel (x y c : Z) (fb : Framebuffer) : option Framebuffer :=
  if (x >=? 0) && (x <? width fb) && (y >=? 0) && (y <? height fb)
  then store (y * stride_px fb + x) c fb
  else Some fb.

(** [n] rounds of a counting loop from [i] up. *)
Fixpoint for_loop (n : nat) (i : Z)
    (body : Z → Framebuffer → option Framebuffer) (fb : Framebuffer)
    : option Framebuffer :=
  match n with
  | O => Some fb
  | S n' => fb' ← body i fb; for_loop n' (i + 1) body fb'
  end.

(** [for (i = lo; i < hi; i++) body] *)
Definition for_lt (lo hi : Z) (body : Z → Framebuffer → option Framebuffer)
    (fb : Framebuffer) : option Framebuffer :=
  for_loop (Z.to_nat (hi - lo)) lo body fb.

Definition draw_rect (x y w h c : Z) (fb : Framebuffer) : option Framebuffer :=
  for_lt y (y + h)
    (fun row => for_lt x (x + w) (fun col => draw_pixel col row c)) fb.

(** [while (dx * dx + dy * dy <= r * r) dx++;] with a bound on the number
    of tests; [None] when the bound is used up. *)
Fixpoint circle_dx_loop (fuel : nat) (r dy dx : Z) : option Z :=
  match fuel with
  | O => None
  | S f =>
      if dx * dx + dy * dy <=? r * r then circle_dx_loop f r dy (dx + 1)
      else Some dx
  end.

(** [int dx = 0; while (...) dx++;] *)
Definition circle_dx (r dy : Z) : option Z :=
  circle_dx_loop (Z.to_nat (r * r + 2)) r dy 0.

Definition draw_circle (cx cy r c : Z) (fb : Framebuffer)
    : option Framebuffer :=
  for_lt (- r) (r + 1)
    (fun dy fb =>
       dx ← circle_dx r dy;
       draw_rect (cx - dx + 1) (cy + dy) (2 * dx - 1) 1 c fb) fb.

Definition draw_rounded_rect (x y w h r c : Z) (fb : Framebuffer)
    : option Framebuffer :=
  if r <? 1 then draw_rect x y w h c fb
  else
    fb ← draw_rect (x + r) y (w - 2 * r) h c fb;
    fb ← draw_rect x (y + r) r (h - 2 * r) c fb;
    fb ← draw_rect (x + w - r) (y + r) r (h - 2 * r) c fb;
    for_lt (- r) 1
      (fun dy fb =>
         dx ← circle_dx r dy;
         fb ← draw_rect (x + r - dx + 1) (y + r + dy) (dx - 1) 1 c fb;
         fb ← draw_rect (x + w - r) (y + r + dy) (dx - 1) 1 c fb;
         fb ← draw_rect (x + r - dx + 1) (y + h - 1 - r - dy) (dx - 1) 1 c fb;
         draw_rect (x + w - r) (y + h - 1 - r - dy) (dx - 1) 1 c fb) fb.

(** The three conditional swaps that sort the vertices by [y]. *)
Definition sort_vertices (p0 p1 p2 : Z * Z) : (Z * Z) * (Z * Z) * (Z * Z) :=
  let '(p0, p1) := if p0.2 >? p1.2 then (p1, p0) else (p0, p1) in
  let '(p0, p2) := if p0.2 >? p2.2 then (p2, p0) else (p0, p2) in
  let '(p1, p2) := if p1.2 >? p2.2 then (p2, p1) else (p1, p2) in
  (p0, p1, p2).

(** One scan line of [draw_triangle_filled]; C division truncates. *)
Definition triangle_span (x0 y0 x1 y1 x2 y2 y : Z) : Z * Z :=
  let xa := if negb (y2 =? y0)
            then x0 + Z.quot ((x2 - x0) * (y - y0)) (y2 - y0) else x0 in
  let xb :=
    if y <? y1 then
      if negb (y1 =? y0)
      then x0 + Z.quot ((x1 - x0) * (y - y0)) (y1 - y0) else x0
    else
      if negb (y2 =? y1)
      then x1 + Z.quot ((x2 - x1) * (y - y1)) (y2 - y1) else x1 in
  if xa >? xb then (xb, xa) else (xa, xb).

Definition draw_triangle_filled (x0 y0 x1 y1 x2 y2 c : Z) (fb : Framebuffer)
    : option Framebuffer :=
  match sort_vertices (x0, y0) (x1, y1) (x2, y2) with
  | ((x0, y0), (x1, y1), (x2, y2)) =>
      for_lt y0 (y2 + 1)
        (fun y fb =>
           let s := triangle_span x0 y0 x1 y1 x2 y2 y in
           draw_rect s.1 y (s.2 - s.1 + 1) 1 c fb) fb
  end.

(** The built-in 8x16 font, printable ASCII 0x20..0x7E. *)
Definition font8x16 : list (list Z) := [
  [0; 0; 0; 0; 0; 0; 0; 0; 0; 0; 0; 0; 0; 0; 0; 0];
  [0; 0; 24; 60; 60; 60; 24; 24; 24; 0; 24; 24; 0; 0; 0; 0];
  [0; 102; 102; 102; 36; 0; 0; 0; 0; 0; 0; 0; 0; 0; 0; 0];
  [0; 0; 0; 108; 108; 254; 108; 108; 254; 108; 108; 0; 0; 0; 0; 0];
  [24; 24; 124; 198; 194; 192; 124; 6; 6; 134; 198; 124; 24; 24; 0; 0];
  [0; 0; 0; 0; 194; 198; 12; 24; 48; 96; 198; 134; 0; 0; 0; 0];
  [0; 0; 56; 108; 108; 56; 118; 220; 204; 204; 204; 118; 0; 0; 0; 0];
  [0; 48; 48; 48; 96; 0; 0; 0; 0; 0; 0; 0; 0; 0; 0; 0];
  [0; 0; 12; 24; 48; 48; 48; 48; 48; 48; 24; 12; 0; 0; 0; 0];
  [0; 0; 48; 24; 12; 12; 12; 12; 12; 12; 24; 48; 0; 0; 0; 0];
  [0; 0; 0; 0; 0; 102; 60; 255; 60; 102; 0; 0; 0; 0; 0; 0];
  [0; 0; 0; 0; 0; 24; 24; 126; 24; 24; 0; 0; 0; 0; 0; 0];
  [0; 0; 0; 0; 0; 0; 0; 0; 0; 24; 24; 24; 48; 0; 0; 0];
  [0; 0; 0; 0; 0; 0; 0; 254; 0; 0; 0; 0; 0; 0; 0; 0];
  [0; 0; 0; 0; 0; 0; 0; 0; 0; 0; 24; 24; 0; 0; 0; 0];
  [0; 0; 0; 0; 2; 6; 12; 24; 48; 96; 192; 128; 0; 0; 0; 0];
  [0; 0; 124; 198; 198; 206; 222; 246; 230; 198; 198; 124; 0; 0; 0; 0];
  [0; 0; 24; 56; 120; 24; 24; 24; 24; 24; 24; 126; 0; 0; 0; 0];
  [0; 0; 124; 198; 6; 12; 24; 48; 96; 192; 198; 254; 0; 0; 0; 0];
  [0; 0; 124; 198; 6; 6; 60; 6; 6; 6; 198; 124; 0; 0; 0; 0];
  [0; 0; 12; 28; 60; 108; 204; 254; 12; 12; 12; 30; 0; 0; 0; 0];
  [0; 0; 254; 192; 192; 192; 252; 6; 6; 6; 198; 124; 0; 0; 0; 0];
  [0; 0; 56; 96; 192; 192; 252; 198; 198; 198; 198; 124; 0; 0; 0; 0];
  [0; 0; 254; 198; 6; 6; 12; 24; 48; 48; 48; 48; 0; 0; 0; 0];
  [0; 0; 124; 198; 198; 198; 124; 198; 198; 198; 198; 124; 0; 0; 0; 0];
  [0; 0; 124; 198; 198; 198; 126; 6; 6; 6; 12; 120; 0; 0; 0; 0];
  [0; 0; 0; 0; 24; 24; 0; 0; 0; 24; 24; 0; 0; 0; 0; 0];
  [0; 0; 0; 0; 24; 24; 0; 0; 0; 24; 24; 48; 0; 0; 0; 0];
  [0; 0; 0; 6; 12; 24; 48; 96; 48; 24; 12; 6; 0; 0; 0; 0];
  [0; 0; 0; 0; 0; 126; 0; 0; 126; 0; 0; 0; 0; 0; 0; 0];
  [0; 0; 0; 96; 48; 24; 12; 6; 12; 24; 48; 96; 0; 0; 0; 0];
  [0; 0; 124; 198; 198; 12; 24; 24; 24; 0; 24; 24; 0; 0; 0; 0];
  [0; 0; 0; 124; 198; 198; 222; 222; 222; 220; 192; 124; 0; 0; 0; 0];
  [0; 0; 16; 56; 108; 198; 198; 254; 198; 198; 198; 198; 0; 0; 0; 0];
  [0; 0; 252; 102; 102; 102; 124; 102; 102; 102; 102; 252; 0; 0; 0; 0];
  [0; 0; 60; 102; 194; 192; 192; 192; 192; 194; 102; 60; 0; 0; 0; 0];
  [0; 0; 248; 108; 102; 102; 102; 102; 102; 102; 108; 248; 0; 0; 0; 0];
  [0; 0; 254; 102; 98; 104; 120; 104; 96; 98; 102; 254; 0; 0; 0; 0];
  [0; 0; 254; 102; 98; 104; 120; 104; 96; 96; 96; 240; 0; 0; 0; 0];
  [0; 0; 60; 102; 194; 192; 192; 222; 198; 198; 102; 58; 0; 0; 0; 0];
  [0; 0; 198; 198; 198; 198; 254; 198; 198; 198; 198; 198; 0; 0; 0; 0];
  [0; 0; 60; 24; 24; 24; 24; 24; 24; 24; 24; 60; 0; 0; 0; 0];
  [0; 0; 30; 12; 12; 12; 12; 12; 204; 204; 204; 120; 0; 0; 0; 0];
  [0; 0; 230; 102; 102; 108; 120; 120; 108; 102; 102; 230; 0; 0; 0; 0];
  [0; 0; 240; 96; 96; 96; 96; 96; 96; 98; 102; 254; 0; 0; 0; 0];
  [0; 0; 198; 238; 254; 254; 214; 198; 198; 198; 198; 198; 0; 0; 0; 0];
  [0; 0; 198; 230; 246; 254; 222; 206; 198; 198; 198; 198; 0; 0; 0; 0];
  [0; 0; 124; 198; 198; 198; 198; 198; 198; 198; 198; 124; 0; 0; 0; 0];
  [0; 0; 252; 102; 102; 102; 124; 96; 96; 96; 96; 240; 0; 0; 0; 0];
  [0; 0; 124; 198; 198; 198; 198; 198; 198; 214; 222; 124; 12; 14; 0; 0];
  [0; 0; 252; 102; 102; 102; 124; 108; 102; 102; 102; 230; 0; 0; 0; 0];
  [0; 0; 124; 198; 198; 96; 56; 12; 6; 198; 198; 124; 0; 0; 0; 0];
  [0; 0; 255; 219; 153; 24; 24; 24; 24; 24; 24; 60; 0; 0; 0; 0];
  [0; 0; 198; 198; 198; 198; 198; 198; 198; 198; 198; 124; 0; 0; 0; 0];
  [0; 0; 198; 198; 198; 198; 198; 198; 198; 108; 56; 16; 0; 0; 0; 0];
  [0; 0; 198; 198; 198; 198; 198; 214; 214; 254; 108; 108; 0; 0; 0; 0];
  [0; 0; 198; 198; 108; 124; 56; 56; 124; 108; 198; 198; 0; 0; 0; 0];
  [0; 0; 195; 195; 102; 60; 24; 24; 24; 24; 24; 60; 0; 0; 0; 0];
  [0; 0; 254; 198; 134; 12; 24; 48; 96; 194; 198; 254; 0; 0; 0; 0];
  [0; 0; 60; 48; 48; 48; 48; 48; 48; 48; 48; 60; 0; 0; 0; 0];
  [0; 0; 0; 128; 192; 224; 112; 56; 28; 14; 6; 2; 0; 0; 0; 0];
  [0; 0; 60; 12; 12; 12; 12; 12; 12; 12; 12; 60; 0; 0; 0; 0];
  [16; 56; 108; 198; 0; 0; 0; 0; 0; 0; 0; 0; 0; 0; 0; 0];
  [0; 0; 0; 0; 0; 0; 0; 0; 0; 0; 0; 0; 255; 0; 0; 0];
  [48; 48; 24; 0; 0; 0; 0; 0; 0; 0; 0; 0; 0; 0; 0; 0];
  [0; 0; 0; 0; 0; 120; 12; 124; 204; 204; 204; 118; 0; 0; 0; 0];
  [0; 0; 224; 96; 96; 120; 108; 102; 102; 102; 102; 124; 0; 0; 0; 0];
  [0; 0; 0; 0; 0; 124; 198; 192; 192; 192; 198; 124; 0; 0; 0; 0];
  [0; 0; 28; 12; 12; 60; 108; 204; 204; 204; 204; 118; 0; 0; 0; 0];
  [0; 0; 0; 0; 0; 124; 198; 254; 192; 192; 198; 124; 0; 0; 0; 0];
  [0; 0; 28; 54; 50; 48; 120; 48; 48; 48; 48; 120; 0; 0; 0; 0];
  [0; 0; 0; 0; 0; 118; 204; 204; 204; 204; 124; 12; 204; 120; 0; 0];
  [0; 0; 224; 96; 96; 108; 118; 102; 102; 102; 102; 230; 0; 0; 0; 0];
  [0; 0; 24; 24; 0; 56; 24; 24; 24; 24; 24; 60; 0; 0; 0; 0];
  [0; 0; 6; 6; 0; 14; 6; 6; 6; 6; 6; 6; 102; 60; 0; 0];
  [0; 0; 224; 96; 96; 102; 108; 120; 120; 108; 102; 230; 0; 0; 0; 0];
  [0; 0; 56; 24; 24; 24; 24; 24; 24; 24; 24; 60; 0; 0; 0; 0];
  [0; 0; 0; 0; 0; 236; 254; 214; 214; 214; 214; 198; 0; 0; 0; 0];
  [0; 0; 0; 0; 0; 220; 102; 102; 102; 102; 102; 102; 0; 0; 0; 0];
  [0; 0; 0; 0; 0; 124; 198; 198; 198; 198; 198; 124; 0; 0; 0; 0];
  [0; 0; 0; 0; 0; 220; 102; 102; 102; 102; 124; 96; 96; 240; 0; 0];
  [0; 0; 0; 0; 0; 118; 204; 204; 204; 204; 124; 12; 12; 30; 0; 0];
  [0; 0; 0; 0; 0; 220; 118; 102; 96; 96; 96; 240; 0; 0; 0; 0];
  [0; 0; 0; 0; 0; 124; 198; 96; 56; 12; 198; 124; 0; 0; 0; 0];
  [0; 0; 16; 48; 48; 252; 48; 48; 48; 48; 54; 28; 0; 0; 0; 0];
  [0; 0; 0; 0; 0; 204; 204; 204; 204; 204; 204; 118; 0; 0; 0; 0];
  [0; 0; 0; 0; 0; 195; 195; 195; 195; 102; 60; 24; 0; 0; 0; 0];
  [0; 0; 0; 0; 0; 198; 198; 214; 214; 214; 254; 108; 0; 0; 0; 0];
  [0; 0; 0; 0; 0; 198; 108; 56; 56; 56; 108; 198; 0; 0; 0; 0];
  [0; 0; 0; 0; 0; 198; 198; 198; 198; 198; 126; 6; 12; 248; 0; 0];
  [0; 0; 0; 0; 0; 254; 204; 24; 48; 96; 198; 254; 0; 0; 0; 0];
  [0; 0; 14; 24; 24; 24; 112; 24; 24; 24; 24; 14; 0; 0; 0; 0];
  [0; 0; 24; 24; 24; 24; 0; 24; 24; 24; 24; 24; 0; 0; 0; 0];
  [0; 0; 112; 24; 24; 24; 14; 24; 24; 24; 24; 112; 0; 0; 0; 0];
  [0; 0; 118; 220; 0; 0; 0; 0; 0; 0; 0; 0; 0; 0; 0; 0]
].

(** [font8x16[idx][row]] *)
Definition glyph_row (idx row : Z) : Z :=
  nth (Z.to_nat row) (nth (Z.to_nat idx) font8x16 []) 0.

Definition draw_char (x y : Z) (ch : ascii) (c scale : Z) (fb : Framebuffer)
    : option Framebuffer :=
  let idx := char_code ch - 0x20 in
  if (idx <? 0) || (idx >=? 95) then Some fb
  else
    for_lt 0 FONT_H
      (fun row fb =>
         let bits := glyph_row idx row in
         for_lt 0 FONT_W
           (fun col fb =>
              if negb (Z.land bits (Z.shiftr 0x80 col) =? 0) then
                if scale =? 1 then draw_pixel (x + col) (y + row) c fb
                else draw_rect (x + col * scale) (y + row * scale)
                               scale scale c fb
              else Some fb) fb) fb.

Fixpoint draw_text (x y : Z) (text : string) (c scale : Z) (fb : Framebuffer)
    : option Framebuffer :=
  match text with
  | EmptyString => Some fb
  | String ch rest =>
      fb ← draw_char x y ch c scale fb;
      draw_text (x + FONT_W * scale) y rest c scale fb
  end.



(** The geometry [fb_init] sets up on a display of 32 bits per pixel whose
    line length is a multiple of 4: the visible width fits in a line and
    the back buffer holds [stride_px * height] pixels. *)
Definition fb_wf (fb : Framebuffer) : Prop :=
  0 ≤ width fb ≤ stride_px fb ∧ 0 ≤ height fb ∧
  Z.of_nat (length (backbuf fb)) = stride_px fb * height fb.

(** What keeps every pixel of the surface inside the back buffer: the
    visible width fits in a line and the buffer holds at least
    [stride_px * height] elements. *)
Definition fb_fits (fb : Framebuffer) : Prop :=
  0 ≤ width fb ≤ stride_px fb ∧ 0 ≤ height fb ∧
  stride_px fb * height fb ≤ Z.of_nat (length (backbuf fb)).

(** Same geometry and buffer size. *)
Definition same_shape (fb fb' : Framebuffer) : Prop :=
  width fb' = width fb ∧ height fb' = height fb ∧
  stride_px fb' = stride_px fb ∧ length (backbuf fb') = length (backbuf fb).

(** ** Program entry *)

(** What [main] goes on to do once the arguments are parsed: leave with
    status 1, print the usage text for the table, run the wizard alone, or
    run the translation engine. *)
Inductive run_mode :=
  | ExitFailure
  | ShowUsage (g : list Mapping)
  | RunGuimap (g : list Mapping)
  | RunNormal (g : list Mapping).

(** [main] up to the hand-over. *)
Definition main (argv : list string) : run_mode :=
  let r := parse_args argv init_mappings in
  if pr_status r <? 0 then ExitFailure
  else if pr_help r then ShowUsage (pr_map r)
  else if pr_guimap r then RunGuimap (pr_map r)
  else RunNormal (pr_map r).

(** ** Keyboard queues *)

(** The [while (read(...))] loop of [read_keyboard_press] on one keyboard:
    events are consumed up to and including the first key press; the result
    is its code, if there is one, and the events left in the queue. *)
Fixpoint read_press (q : list input_event) : option Z * list input_event :=
  match q with
  | [] => (None, [])
  | ev :: q' =>
      if (ev_type ev =? EV_KEY) && (ev_value ev =? 1)
      then (Some (ev_code ev), q')
      else read_press q'
  end.

(** [read_keyboard_press]: the value returned and the queues afterwards. *)
Fixpoint read_keyboard_press (qs : list (list input_event))
    : Z * list (list input_event) :=
  match qs with
  | [] => (0, [])
  | q :: qs' =>
      match read_press q with
      | (Some code, q') => (code, q' :: qs')
      | (None, q') =>
          match read_keyboard_press qs' with
          | (code, qs'') => (code, q' :: qs'')
          end
      end
  end.

(** [drain_keyboard_events] *)
Definition drain_keyboard_events (qs : list (list input_event))
    : list (list input_event) :=
  (fun _ => []) <$> qs.

(** ** Virtual joystick device *)

Definition BTN_BASE6 : Z := 299.
Definition ABS_Z : Z := 2.
Definition ABS_RX : Z := 3.
Definition ABS_RY : Z := 4.
Definition AXIS_FLAT : Z := 15.

(** The requests [create_virtual_joystick] makes of the uinput driver. *)
Inductive uinput_request :=
  | UI_SET_EVBIT | UI_SET_KEYBIT | UI_SET_ABSBIT | UI_SET_MSCBIT
  | UI_DEV_CREATE.

(** What the driver answers: whether [open] succeeds, whether an [ioctl]
    with a request and its argument succeeds, and whether the [write] of
    the device description is complete. *)
Record uinput_sys := mkSys {
  open_ok : bool;
  ioctl_ok : uinput_request → Z → bool;
  write_ok : bool
}.

(** The device as configured: the enabled event types, buttons, axes and
    misc codes, and per axis its [absmin], [absmax] and [absflat]. *)
Record uinput_dev := mkDev {
  evbit : list Z;
  keybit : list Z;
  absbit : list Z;
  mscbit : list Z;
  absinfo : list (Z * (Z * Z * Z))
}.

Definition axes : list Z := [ABS_X; ABS_Y; ABS_Z; ABS_RX; ABS_RY].

(** A run of [ioctl]s of one request, one per argument; [None] is the
    [goto fail]. *)
Fixpoint set_bits (sys : uinput_sys) (req : uinput_request) (args : list Z)
    (acc : list Z) : option (list Z) :=
  match args with
  | [] => Some acc
  | a :: rest =>
      if ioctl_ok sys req a then set_bits sys req rest (acc ++ [a])
      else None
  end.

(** [create_virtual_joystick]: the device and the events written to it, or
    [None] for the return value -1. *)
Definition create_virtual_joystick (sys : uinput_sys)
    : option (uinput_dev * list input_event) :=
  if negb (open_ok sys) then None
  else
    match set_bits sys UI_SET_EVBIT [EV_KEY; EV_ABS; EV_SYN; EV_MSC] [] with
    | None => None
    | Some evs =>
    match set_bits sys UI_SET_KEYBIT
            ((fun i => BTN_TRIGGER + Z.of_nat i)
               <$> seq 0 (Z.to_nat (BTN_BASE6 - BTN_TRIGGER + 1))) [] with
    | None => None
    | Some keys =>
    match set_bits sys UI_SET_ABSBIT axes [] with
    | None => None
    | Some abss =>
    match set_bits sys UI_SET_MSCBIT [MSC_SCAN] [] with
    | None => None
    | Some mscs =>
        if negb (write_ok sys) then None
        else if negb (ioctl_ok sys UI_DEV_CREATE 0) then None
        else
          Some (mkDev evs keys abss mscs
                  ((fun a => (a, (AXIS_MIN, AXIS_MAX, AXIS_FLAT))) <$> axes),
                ((fun a => mkEvent EV_ABS a AXIS_CENTER) <$> axes)
                ++ [mkEvent EV_SYN SYN_REPORT 0])
    end end end end.

(** ** The translation run *)

(** [cleanup]; [fd_open] is [g_uinput_fd >= 0].  Returns whether the device
    is still open, and the engine. *)
Definition cleanup (fd_open : bool) (st : engine) : bool * engine :=
  let st := if fd_open then center_axes (release_buttons st) else st in
  (false, set_kbd_grabbed [] (ungrab_keyboards st)).

(** Whether the frame loop of [guimap_run] is left on the quit flag (the
    frames run out) and not on a [break]. *)
Fixpoint guimap_loop_quit (env : wizard_env) (frames : list frame)
    (w : wizard) : bool :=
  match frames with
  | [] => true
  | fr :: rest =>
      match guimap_frame env fr w with
      | (_, true) => false
      | (w', false) => guimap_loop_quit env rest w'
      end
  end.

(** Whether [guimap_run] returns with the quit flag set: it reached its
    frame loop and left it on the flag. *)
Definition guimap_run_quit (env : wizard_env) (frames : list frame)
    (g : list Mapping) (fs : list file) : bool :=
  if negb (fb_ok env) then false
  else if (kbd_found env =? 0)%nat then false
  else guimap_loop_quit env frames (mkWizard initial_app g fs).

(** What one round of the outer loop of [normal_run] meets: the queue
    snapshots of the iterations its translation loop runs and, should that
    loop leave through [break_inner], whether the quit flag was set during
    that last iteration, and the surroundings of the remap session. *)
Record remap_round := mkRound {
  r_qss : list (list (list input_event));
  r_quit_at_break : bool;
  r_env : wizard_env;
  r_frames : list frame;
  r_rescan : nat
}.

(** The outer loop of [normal_run].  The quit flag is never cleared: the
    loop ends when a translation loop ends on it (its snapshots run out,
    or no round is left), when it is found set after [break_inner], and
    after a remap session whose wizard was left on it, since the next
    translation loop then runs no iteration. *)
Fixpoint outer_loop (ioctl_grab : nat → bool) (rounds : list remap_round)
    (st : engine) (fs : list file) : engine * list file :=
  match rounds with
  | [] => (st, fs)
  | r :: rest =>
      match inner_loop ioctl_grab (r_qss r) st with
      | (st', false) => (st', fs)
      | (st', true) =>
          if r_quit_at_break r then (st', fs)
          else
            match remap_session ioctl_grab (r_env r) (r_frames r)
                                (r_rescan r) st' fs with
            | (st'', fs') =>
                if guimap_run_quit (r_env r) (r_frames r)
                                   (g_map (suspend_translation st')) fs
                then (st'', fs')
                else outer_loop ioctl_grab rest st'' fs'
            end
      end
  end.

(** [normal_run] with the [cleanup] that [atexit] runs once it is
    registered: the return value, the device with the engine as the
    process leaves it, and the files.  [found] is what [scan_keyboards]
    returns. *)
Definition normal_run (sys : uinput_sys) (found : nat)
    (ioctl_grab : nat → bool) (rounds : list remap_round)
    (g : list Mapping) (fs : list file)
    : Z * option (uinput_dev * engine) * list file :=
  if (found =? 0)%nat then (1, None, fs)
  else
    match create_virtual_joystick sys with
    | None => (1, None, fs)
    | Some (dev, evs) =>
        let st := grab_keyboards ioctl_grab
                    (mkEngine g (replicate NUM_DIRECTIONS false) false false
                              (replicate found false) evs) in
        match outer_loop ioctl_grab rounds st fs with
        | (st', fs') => (0, Some (dev, (cleanup true st').2), fs')
        end
    end.

(** ** Keyboard detection *)

Definition MAX_KEYBOARDS : nat := 8.

(** [TEST_BIT(bit, a)] on an array of [unsigned long] of [bpl] bits each. *)
Definition TEST_BIT (bpl bit : Z) (a : list Z) : Z :=
  Z.land (Z.shiftr (nth (Z.to_nat (bit / bpl)) a 0) (bit mod bpl)) 1.

(** [is_keyboard], from what its two [ioctl]s leave in [evbits] and
    [keybits]; [None] is a failed [ioctl]. *)
Definition is_keyboard (bpl : Z) (evbits keybits : option (list Z)) : Z :=
  match evbits with
  | None => 0
  | Some ev =>
      if TEST_BIT bpl EV_KEY ev =? 0 then 0
      else
        match keybits with
        | None => 0
        | Some kb =>
            Z.b2z (negb (TEST_BIT bpl KEY_Q kb =? 0)
                   && negb (TEST_BIT bpl KEY_A kb =? 0))
        end
  end.

(** An entry of [/dev/input]: its name, whether [open] succeeds, and the
    bitmaps the device reports. *)
Record input_node := mkNode {
  d_name : string;
  node_open : bool;
  node_evbits : option (list Z);
  node_keybits : option (list Z)
}.

(** The [readdir] loop of [scan_keyboards]; [fds] are the keyboards kept
    so far. *)
Fixpoint scan_loop (bpl : Z) (nodes : list input_node) (max_fds : nat)
    (fds : list input_node) : list input_node :=
  match nodes with
  | [] => fds
  | n :: rest =>
      if (max_fds <=? length fds)%nat then fds
      else if (String.length (d_name n) <=? 5)%nat
      then scan_loop bpl rest max_fds fds
      else if negb (String.eqb (String.substring 0 5 (d_name n)) "event")
      then scan_loop bpl rest max_fds fds
      else if negb (node_open n) then scan_loop bpl rest max_fds fds
      else if negb (is_keyboard bpl (node_evbits n) (node_keybits n) =? 0)
      then scan_loop bpl rest max_fds (fds ++ [n])
      else scan_loop bpl rest max_fds fds
  end.

(** [scan_keyboards]: the keyboards opened; the return value is their
    number.  [None] is a failed [opendir]. *)
Definition scan_keyboards (bpl : Z) (dir : option (list input_node))
    (max_fds : nat) : list input_node :=
  match dir with
  | None => []
  | Some nodes => scan_loop bpl nodes max_fds []
  end.

(** ** Framebuffer: clearing and showing *)

(** [fb_clear] *)
Definition fb_clear (color : Z) (fb : Framebuffer) : option Framebuffer :=
  for_lt 0 (stride_px fb * height fb) (fun i => store i color) fb.

(** [fb_flip]: the mapped front buffer after the [memcpy]. *)
Definition fb_flip (fb : Framebuffer) : list Z := backbuf fb.

(** ** Review screen: the duplicate column *)

(** The scan for duplicate key codes of [guimap_render_review]; once the
    flag is set both loops are left. *)
Definition has_dupes (g : list Mapping) : bool :=
  foldl (fun (dupes : bool) (i : nat) =>
           if dupes then true
           else existsb (fun j => keycode (slot g j) =? keycode (slot g i))
                        (seq (S i) (NUM_MAPPINGS - S i)))
        false (seq 0 NUM_MAPPINGS).

(** [strncat(dst, src, n)] *)
Definition strncat (dst src : string) (n : nat) : string :=
  dst +:+ String.substring 0 n src.

(** One round of the loop that collects in [dups] the labels of the other
    slots bound to the key of slot [i]; the buffer holds 256 bytes. *)
Definition dups_step (g : list Mapping) (i : nat) (dups : string) (j : nat)
    : string :=
  if (j =? i)%nat then dups
  else if keycode (slot g j) =? keycode (slot g i) then
    let dups :=
      if negb (String.eqb dups "")
      then strncat dups ", " (256 - String.length dups - 1)
      else dups in
    strncat dups (label (slot g j)) (256 - String.length dups - 1)
  else dups.

(** The text of the Duplicate column for row [i]; empty for no text. *)
Definition dup_column (g : list Mapping) (i : nat) : string :=
  if has_dupes g then foldl (dups_step g i) "" (seq 0 NUM_MAPPINGS) else "".

(** ** Browse screen: the rows *)

(** The row loop of [guimap_render_browse], [n] rounds from index [i] on:
    for each row the entry read and whether it is highlighted.  [None] is
    a read of [entries[i]] outside the entries loaded. *)
Fixpoint browse_rows_loop (n : nat) (i : Z) (b : DirBrowser)
    : option (list (DirEntry * bool)) :=
  match n with
  | O => Some []
  | S n' =>
      if (i <? Z.of_nat (length (b_entries b))) && (i <? b_scroll b + 18)
      then
        if i <? 0 then None
        else
          e ← b_entries b !! Z.to_nat i;
          rest ← browse_rows_loop n' (i + 1) b;
          Some ((e, i =? b_selected b) :: rest)
      else Some []
  end.

(** The loop from [scroll] on; it ends after 18 rounds at the latest. *)
Definition browse_rows (b : DirBrowser) : option (list (DirEntry * bool)) :=
  browse_rows_loop 18 (b_scroll b) b.

(** * Notions used in the statements *)

(** A string without a line feed. *)
Fixpoint no_newline (s : string) : bool :=
  match s with
  | EmptyString => true
  | String c r => negb (nat_of_ascii c =? 10)%nat && no_newline r
  end.

(** Lines joined, each closed by a line feed. *)
Definition unlines (ls : list string) : string :=
  foldr (fun l acc => l +:+ newline +:+ acc) "" ls.

(** A continuation backslash after every line but the last. *)
Fixpoint with_continuations (ls : list string) : list string :=
  match ls with
  | [] => []
  | [l] => [l]
  | l :: rest => (l +:+ " \") :: with_continuations rest
  end.

(** What the script says for one slot: the flag and the key name. *)
Definition option_line (m : Mapping) : string :=
  "  " +:+ cli_name m +:+ " " +:+ keycode_to_name (keycode m).

(** The [i]-th of the sixteen lines after the invocation. *)
Definition continuation_line (g : list Mapping) (i : nat) : string :=
  option_line (slot g i) +:+ (if (i <? 15)%nat then " \" else "").

(** An engine in its running shape: a well-formed table and eight held
    flags. *)
Definition engine_wf (st : engine) : Prop :=
  table_wf (g_map st) ∧ length (g_dir_held st) = NUM_DIRECTIONS.

(** The idle engine right after start-up with the default table and one
    grabbed keyboard. *)
Definition engine_start : engine :=
  mkEngine init_mappings (replicate NUM_DIRECTIONS false) false false [true] [].

(** The three events of one button report. *)
Definition button_report (g : list Mapping) (pressed : bool) (b : nat)
    : list input_event :=
  [mkEvent EV_MSC MSC_SCAN (0x90001 + (btn_code (slot g b) - BTN_TRIGGER));
   mkEvent EV_KEY (btn_code (slot g b)) (Z.b2z pressed);
   mkEvent EV_SYN SYN_REPORT 0].

(** The reports of the button slots among [l] that are bound to [code]. *)
Definition button_reports (g : list Mapping) (code : Z) (pressed : bool)
    (l : list nat) : list input_event :=
  flat_map (fun b => if code =? keycode (slot g b)
                     then button_report g pressed b else []) l.

(** The release-all report of the pause and suspend paths. *)
Definition release_report (g : list Mapping) : list input_event :=
  ((fun b => mkEvent EV_KEY (btn_code (slot g b)) 0)
     <$> seq NUM_DIRECTIONS NUM_BUTTONS)
  ++ [mkEvent EV_ABS ABS_X AXIS_CENTER; mkEvent EV_ABS ABS_Y AXIS_CENTER;
      mkEvent EV_SYN SYN_REPORT 0].

(** The axis values [recalc_and_emit_axes] derives from the held flags. *)
Definition axes_of (g : list Mapping) (held : list bool) : Z * Z :=
  (axis_value (clamp1 (axis_sums g held).1),
   axis_value (clamp1 (axis_sums g held).2)).

(** The report [recalc_and_emit_axes] writes: both axes and one flush. *)
Definition axis_report (g : list Mapping) (held : list bool)
    : list input_event :=
  [mkEvent EV_ABS ABS_X (axes_of g held).1;
   mkEvent EV_ABS ABS_Y (axes_of g held).2;
   mkEvent EV_SYN SYN_REPORT 0].

(** The two keys the engine tracks as control. *)
Definition is_ctrl (code : Z) : bool :=
  (code =? KEY_LEFTCTRL) || (code =? KEY_RIGHTCTRL).

(** A press of the pause key or of the remap key while control is held. *)
Definition chord_press (ctrl : bool) (ev : input_event) : bool :=
  ((ev_code ev =? KEY_S) || (ev_code ev =? KEY_R))
  && (ev_value ev =? 1) && ctrl.


(** The rule in the words of the specification: clamp the sum to [-1, 1],
    then 0 for a negative, 255 for a positive and 127 for a zero result. *)
Definition spec_clamp (lo hi s : Z) : Z := Z.max lo (Z.min hi s).

(** The axis value of a sum by that rule. *)
Definition spec_axis (s : Z) : Z :=
  if decide (spec_clamp (-1) 1 s < 0) then 0
  else if decide (0 < spec_clamp (-1) 1 s) then 255 else 127.

(** The sum of [f] over the slots of a set given as a duplicate-free list. *)
Definition sum_over (f : nat → Z) (S : list nat) : Z :=
  foldr (fun d s => f d + s) 0 S.

(** The held flags when exactly the slots of [S] are held. *)
Definition held_of (S : list nat) : list bool :=
  (fun d => bool_decide (d ∈ S)) <$> seq 0 NUM_DIRECTIONS.

(** A press of key [k]. *)
Definition press (k : Z) : input_event := mkEvent EV_KEY k 1.

(** Whether draining [evs], control being held or not as [ctrl] says, meets
    a press of the pause or remap key while control is held. *)
Fixpoint has_chord (ctrl : bool) (evs : list input_event) : bool :=
  match evs with
  | [] => false
  | ev :: rest =>
      if negb (ev_type ev =? EV_KEY) || (ev_value ev =? 2)
      then has_chord ctrl rest
      else if is_ctrl (ev_code ev) then has_chord (ev_value ev =? 1) rest
      else chord_press ctrl ev || has_chord ctrl rest
  end.

(** Whether some transition of [evs], drained from state [st] on, gives a
    held-direction flag a new value. *)
Fixpoint flag_changed (ioctl_grab : nat → bool) (evs : list input_event)
    (st : engine) : bool :=
  match evs with
  | [] => false
  | ev :: rest =>
      let st' := (handle_event ioctl_grab ev st false).1.1 in
      negb (bool_decide (g_dir_held st' = g_dir_held st))
      || flag_changed ioctl_grab rest st'
  end.

(** An event that is not an axis event. *)
Definition no_abs (e : input_event) : Prop := ev_type e ≠ EV_ABS.

(** What chord-free draining does to the engine: the table and the pause
    state stay, only button reports are written, and a paused engine
    writes nothing and keeps its direction flags. *)
Definition quiet_step (st st' : engine) : Prop :=
  engine_wf st' ∧ g_map st' = g_map st ∧ g_suspended st' = g_suspended st ∧
  (∃ btns, uinput st' = uinput st ++ btns ∧ Forall no_abs btns) ∧
  (g_suspended st = true →
   uinput st' = uinput st ∧ g_dir_held st' = g_dir_held st).

(** A drawing step that, on a framebuffer whose surface fits its buffer,
    runs to its end without a store outside the back buffer and keeps the
    geometry. *)
Definition preserving (f : Framebuffer → option Framebuffer) : Prop :=
  ∀ fb, fb_fits fb → ∃ fb', f fb = Some fb' ∧ same_shape fb fb'.

(** A display of 32 bits per pixel: the fields are [__u32] values, a line
    holds at least the visible width, the height is an [int] and the byte
    size of the buffer fits 32 bits. *)
Definition display_32bpp (d : fb_sys) : Prop :=
  bits_per_pixel d = 32 ∧ 0 ≤ xres d ∧ 0 ≤ yres d ≤ INT_MAX ∧
  4 * xres d ≤ line_length d < 2 ^ 32 ∧
  line_length d * yres d < 2 ^ 32.

(** A 5 x 4 display of 32 bits per pixel with 6 pixels per line, and a
    4 x 4 display of 16 bits per pixel with 4 pixels per line. *)
Definition small_display : fb_sys :=
  mkFbSys true true true 5 4 32 24 true true.

Definition display_16bpp : fb_sys :=
  mkFbSys true true true 4 4 16 8 true true.

(** A 5 x 4 surface with 6 pixels per line. *)
Definition small_fb : Framebuffer := mkFb 5 4 6 (replicate 24 0).

(** The string with every letter in lower case, as [strcasecmp] compares it. *)
Fixpoint lower (s : string) : string :=
  match s with
  | EmptyString => EmptyString
  | String c r => String (tolower c) (lower r)
  end.

(** A string a C program can hold: no NUL character inside. *)
Fixpoint c_string (s : string) : bool :=
  match s with
  | EmptyString => true
  | String c r => negb (nat_of_ascii c =? 0)%nat && c_string r
  end.

(** A key code that has an entry in the key-name table. *)
Definition named (code : Z) : Prop :=
  ∃ k, k ∈ key_names ∧ kn_code k = code.

(** What the table itself guarantees, checked entry by entry: every entry
    is found again by its name and by its code, its code lies in 1..111,
    and its name is a lower-case C string. *)
Definition entry_ok (k : KeyName) : bool :=
  (parse_keyname (kn_name k) =? kn_code k)
  && String.eqb (keycode_to_name (kn_code k)) (kn_name k)
  && (1 <=? kn_code k) && (kn_code k <=? 111)
  && String.eqb (lower (kn_name k)) (kn_name k)
  && c_string (kn_name k).


(** A table all of whose key codes have a name. *)
Definition named_table (g : list Mapping) : Prop :=
  ∀ i, (i < NUM_MAPPINGS)%nat → named (keycode (slot g i)).

(** The option pairs of the exported script: for each slot its flag and the
    name of its key. *)
Definition script_pairs (g : list Mapping) : list (string * string) :=
  (fun i => (cli_name (slot g i), keycode_to_name (keycode (slot g i))))
    <$> seq 0 NUM_MAPPINGS.

(** The same as the argument words the script passes to the program. *)
Definition script_args (g : list Mapping) : list string :=
  flat_map (fun p => [p.1; p.2]) (script_pairs g).

(** Slot [i] of [t] takes the key code slot [i] has in [g]. *)
Definition copy_keycode (g t : list Mapping) (i : nat) : list Mapping :=
  <[i := set_keycode (keycode (slot g i)) (slot t i)]> t.

(** What [main] hands over for slot [i]: it leaves with a failure exactly
    when parsing returned -1; otherwise the table it passes on is the
    parsed one, differs from the built-in table in key codes only, and the
    key code of slot [i] has a name. *)
Definition main_hands_over (argv : list string) (i : nat) : Prop :=
  match main argv with
  | ExitFailure => pr_status (parse_args argv init_mappings) = -1
  | ShowUsage g | RunGuimap g | RunNormal g =>
      pr_status (parse_args argv init_mappings) = 0 ∧
      g = pr_map (parse_args argv init_mappings) ∧
      table_wf g ∧ named (keycode (slot g i)) ∧
      keycode_to_name (keycode (slot g i)) ≠ "?"
  end.

(** The bounds the directory browser's accesses to [entries] rely on: at
    most [MAX_DIR_ENTRIES] entries, the selection inside the 18-row window
    that starts at [scroll], and the selection an index of an entry unless
    there is none. *)
Definition browser_ok (b : DirBrowser) : Prop :=
  (length (b_entries b) ≤ MAX_DIR_ENTRIES)%nat ∧
  b_scroll b ≤ b_selected b < b_scroll b + 18 ∧
  ((b_entries b = [] ∧ -1 ≤ b_selected b ≤ 0) ∨
   (0 ≤ b_scroll b ∧ b_selected b < Z.of_nat (length (b_entries b)))).

(** The bounds the wizard's other array accesses rely on: the table differs
    from the built-in one in key codes only, the REVIEW selection is one of
    the 19 rows, and while a key is awaited [cur_map] is a slot. *)
Definition wizard_ok (w : wizard) : Prop :=
  table_wf (w_map w) ∧
  0 ≤ review_sel (w_app w) < GUIMAP_REVIEW_TOTAL ∧
  (state (w_app w) = GUIMAP_MAP →
   0 ≤ cur_map (w_app w) < Z.of_nat NUM_MAPPINGS) ∧
  length (mapped (w_app w)) = NUM_MAPPINGS ∧
  browser_ok (browser (w_app w)).

(** The key codes the frames deliver, in order; a frame without a press
    delivers 0 (or an error code below 0). *)
Definition pressed_keys (frames : list frame) : list Z :=
  omap (fun fr => if f_key fr >? 0 then Some (f_key fr) else None) frames.

(** Slots [c], [c+1], ... take the keys [ks] one after the other. *)
Fixpoint bind_from (c : nat) (ks : list Z) (g : list Mapping)
    : list Mapping :=
  match ks with
  | [] => g
  | k :: rest => bind_from (S c) rest (<[c := set_keycode k (slot g c)]> g)
  end.

(** [n] flags from index [c] on are set. *)
Fixpoint mark_from (c n : nat) (m : list bool) : list bool :=
  match n with
  | O => m
  | S n' => mark_from (S c) n' (<[c := true]> m)
  end.

(** The wizard's state when the sixteenth key has been captured. *)
Definition review_app : GuimapApp :=
  mkApp GUIMAP_REVIEW (Z.of_nat NUM_MAPPINGS) (-1) 0 (mkBrowser "" [] 0 0) ""
        (replicate NUM_MAPPINGS true) false 0.

(** The two synthetic entries of a listing. *)
Definition parent_entry : DirEntry := mkDirEntry ".." true.
Definition export_entry : DirEntry := mkDirEntry ">> Export here <<" false.

(** What a listing shows of the entries [readdir] yields: hidden names and
    non-directories are left out, names are cut to 255 characters. *)
Definition shown (ds : list (string * bool)) : list DirEntry :=
  omap (fun d : string * bool => if first_char_is_dot d.1 then None
                 else if d.2 then Some (mkDirEntry (String.substring 0 255 d.1)
                                                   true)
                 else None) ds.

(** The zone of the stick for an ABS_Y value: -1 up, 1 down, 0 centre. *)
Definition stick_zone (v : Z) : Z :=
  if v - AXIS_CENTER <? -50 then -1
  else if v - AXIS_CENTER >? 50 then 1 else 0.

Definition is_abs_y (ev : input_event) : bool :=
  (ev_type ev =? EV_ABS) && (ev_code ev =? ABS_Y).

Definition is_trigger_press (ev : input_event) : bool :=
  (ev_type ev =? EV_KEY) && (ev_code ev =? BTN_TRIGGER) && (ev_value ev =? 1).

(** Every ABS_Y value is an [int] from which the centre can be taken off
    within the range of [int]. *)
Definition stick_in_range (evs : list input_event) : Prop :=
  Forall (fun ev => is_abs_y ev = true →
                    INT_MIN + AXIS_CENTER ≤ ev_value ev ≤ INT_MAX) evs.

(** The zone the last ABS_Y event leaves the stick in. *)
Definition last_zone (evs : list input_event) (prev : Z) : Z :=
  foldl (fun z ev => if is_abs_y ev then stick_zone (ev_value ev) else z)
        prev evs.

(** No ABS_Y event takes the stick out of zone [prev]. *)
Definition stick_rests (evs : list input_event) (prev : Z) : bool :=
  forallb (fun ev => negb (is_abs_y ev) || (stick_zone (ev_value ev) =? prev))
          evs.

(** The path [frame_browse] opens for the entry [name] of directory [p]. *)
Definition child_path (p name : string) : string :=
  if streq p "/" then "/" +:+ String.substring 0 250 name
  else String.substring 0 250 p +:+ "/" +:+ String.substring 0 250 name.

Definition syn_event : input_event := mkEvent EV_SYN SYN_REPORT 0.

(** An event the device was configured for: a flush, a 0 or 1 for an
    enabled button, a value inside the range of an enabled axis, or an
    enabled misc code, the event type being enabled in each case. *)
Definition accepts (dev : uinput_dev) (ev : input_event) : bool :=
  bool_decide (ev_type ev ∈ evbit dev) &&
  (if ev_type ev =? EV_SYN then ev_code ev =? SYN_REPORT
   else if ev_type ev =? EV_KEY then
     bool_decide (ev_code ev ∈ keybit dev)
     && ((ev_value ev =? 0) || (ev_value ev =? 1))
   else if ev_type ev =? EV_ABS then
     bool_decide (ev_code ev ∈ absbit dev)
     && existsb (fun i : Z * (Z * Z * Z) =>
                   (i.1 =? ev_code ev) && (i.2.1.1 <=? ev_value ev)
                   && (ev_value ev <=? i.2.1.2)) (absinfo dev)
   else if ev_type ev =? EV_MSC then bool_decide (ev_code ev ∈ mscbit dev)
   else false).

(** The device [create_virtual_joystick] sets up when nothing fails. *)
Definition joystick_dev : uinput_dev :=
  mkDev [EV_KEY; EV_ABS; EV_SYN; EV_MSC]
        ((fun i => BTN_TRIGGER + Z.of_nat i) <$> seq 0 12)
        axes [MSC_SCAN]
        ((fun a => (a, (AXIS_MIN, AXIS_MAX, AXIS_FLAT))) <$> axes).

(** Events the device accepts, the last of them a flush. *)
Definition flushed (evs : list input_event) : Prop :=
  Forall (fun ev => accepts joystick_dev ev = true) evs ∧
  (evs = [] ∨ last evs = Some syn_event).

(** What translation may do to the engine: the table and the number of
    keyboards stay, eight held flags stay eight, and the trace only grows,
    by accepted events that end with a flush. *)
Definition extends (st st' : engine) : Prop :=
  g_map st' = g_map st ∧
  length (g_kbd_grabbed st') = length (g_kbd_grabbed st) ∧
  (length (g_dir_held st) = NUM_DIRECTIONS →
   length (g_dir_held st') = NUM_DIRECTIONS) ∧
  ∃ evs, uinput st' = uinput st ++ evs ∧ flushed evs.

(** The first report written to the new device: every axis centred. *)
Definition center_report : list input_event :=
  ((fun a => mkEvent EV_ABS a AXIS_CENTER) <$> axes) ++ [syn_event].

(** What [normal_run] leaves behind.  Without a keyboard or without a
    device it returns 1 and nothing was written.  Otherwise it returns 0,
    the device is [joystick_dev], the table still differs from the built-in
    one in key codes only, and the trace starts with the centring report,
    ends with the release-all report of [cleanup] and holds only accepted
    events, flushed at the end; no keyboard is left grabbed. *)
Definition run_outcome (sys : uinput_sys) (found : nat)
    (ioctl_grab : nat → bool) (rounds : list remap_round)
    (g : list Mapping) (fs : list file) : Prop :=
  match normal_run sys found ioctl_grab rounds g fs with
  | (status, None, fs') =>
      status = 1 ∧ fs' = fs ∧
      (found = 0%nat ∨ create_virtual_joystick sys = None)
  | (status, Some (dev, st), fs') =>
      status = 0 ∧ found ≠ 0%nat ∧ dev = joystick_dev ∧
      table_wf (g_map st) ∧ flushed (uinput st) ∧
      (∃ mid, uinput st = center_report ++ mid ++ release_report (g_map st)) ∧
      g_kbd_grabbed st = []
  end.

(** A key press, as [read_keyboard_press] looks for it. *)
Definition is_press (ev : input_event) : bool :=
  (ev_type ev =? EV_KEY) && (ev_value ev =? 1).

(** No event of the queue is a key press. *)
Definition no_press (q : list input_event) : Prop :=
  Forall (fun ev => is_press ev = false) q.

(** The number a bitmap of [bpl]-bit words stands for, lowest word first. *)
Fixpoint bitmap_value (bpl : Z) (a : list Z) : Z :=
  match a with
  | [] => 0
  | w :: rest => w + 2 ^ bpl * bitmap_value bpl rest
  end.

(** Words of [bpl] bits. *)
Definition words (bpl : Z) (a : list Z) : Prop :=
  Forall (fun w => 0 ≤ w < 2 ^ bpl) a.

(** Bit [n] of the bitmap an [ioctl] left, if it succeeded. *)
Definition has_bit (bpl : Z) (bits : option (list Z)) (n : Z) : bool :=
  match bits with
  | None => false
  | Some a => Z.testbit (bitmap_value bpl a) n
  end.

(** An entry [scan_keyboards] keeps: an [eventN] node that opens and
    reports key events with the keys Q and A. *)
Definition keyboard_node (bpl : Z) (n : input_node) : bool :=
  negb (String.length (d_name n) <=? 5)%nat
  && String.eqb (String.substring 0 5 (d_name n)) "event"
  && node_open n
  && negb (is_keyboard bpl (node_evbits n) (node_keybits n) =? 0).

(** The bitmaps a node reports are arrays of [bpl]-bit words. *)
Definition node_words (bpl : Z) (n : input_node) : Prop :=
  (∀ a, node_evbits n = Some a → words bpl a) ∧
  (∀ a, node_keybits n = Some a → words bpl a).








(** The other slots bound to the key of slot [i], in slot order. *)
Definition same_key_slots (g : list Mapping) (i : nat) : list nat :=
  List.filter (fun j => negb (j =? i)%nat
                        && (keycode (slot g j) =? keycode (slot g i)))
              (seq 0 NUM_MAPPINGS).

(** An argument at which parsing stops with an error: it is neither
    [--help], [-h] nor [--guimap], and it is no flag of the table, or it is
    the last argument, or the argument after it is no key name. *)
Definition option_fails (a : string) (rest : list string) : Prop :=
  streq a "--help" = false ∧ streq a "-h" = false ∧
  streq a "--guimap" = false ∧
  (find_mapping init_mappings a = None ∨ rest = [] ∨
   ∃ kn rest', rest = kn :: rest' ∧ parse_keyname kn < 0).

(** When parsing fails: some argument fails in this sense and everything
    before it parses. *)
Definition fails_at (parse : list string → parse_result)
    (args : list string) : Prop :=
  ∃ pre a rest, args = pre ++ a :: rest ∧ pr_status (parse pre) = 0 ∧
                option_fails a rest.

(** Frame [fr] chooses Apply in state [w]: the wizard is in REVIEW and the
    key is [A], or the Apply row is selected. *)
Definition chooses_apply (fr : frame) (w : wizard) : Prop :=
  state (w_app w) = GUIMAP_REVIEW ∧
  (f_key fr = KEY_A ∨ review_sel (w_app w) = GUIMAP_REVIEW_APPLY).

(** Entries from index [i] on, the one at index [sel] highlighted. *)
Fixpoint rows_from (sel i : Z) (l : list DirEntry)
    : list (DirEntry * bool) :=
  match l with
  | [] => []
  | e :: rest => (e, i =? sel) :: rows_from sel (i + 1) rest
  end.

(** The rows of the 18-row window that starts at [scroll]. *)
Definition window_rows (b : DirBrowser) : list (DirEntry * bool) :=
  rows_from (b_selected b) (b_scroll b)
    (take 18 (drop (Z.to_nat (b_scroll b)) (b_entries b))).

(** * Properties *)

(** ** The mapping table *)

Lemma table_wf_init : table_wf init_mappings.
Proof. reflexivity. Qed.

Lemma table_wf_length (g : list Mapping) :
  table_wf g → length g = NUM_MAPPINGS.
Proof.
  intros H. apply (f_equal length) in H. by rewrite !length_fmap in H.
Qed.

Lemma table_wf_slot (g : list Mapping) (i : nat) :
  table_wf g → fixed_part (slot g i) = fixed_part (slot init_mappings i).
Proof.
  intros H. unfold slot. rewrite <- !(map_nth fixed_part).
  change (map fixed_part) with (fmap (M:=list) fixed_part). by rewrite H.
Qed.

Lemma fixed_part_set_keycode (kc : Z) (m : Mapping) :
  fixed_part (set_keycode kc m) = fixed_part m.
Proof. reflexivity. Qed.

Lemma slot_insert_eq (g : list Mapping) (i : nat) (m : Mapping) :
  (i < length g)%nat → slot (<[i := m]> g) i = m.
Proof.
  intros Hi. unfold slot. apply nth_lookup_Some.
  by apply list_lookup_insert_eq.
Qed.

Lemma slot_insert_ne (g : list Mapping) (i j : nat) (m : Mapping) :
  i ≠ j → slot (<[i := m]> g) j = slot g j.
Proof.
  intros Hne. unfold slot. rewrite !nth_lookup.
  by rewrite list_lookup_insert_ne.
Qed.

(** Overwriting a key code keeps the table well formed. *)
Lemma table_wf_insert (g : list Mapping) (i : nat) (kc : Z) :
  table_wf g → table_wf (<[i := set_keycode kc (slot g i)]> g).
Proof.
  intros H. unfold table_wf. rewrite <- H. rewrite list_fmap_insert.
  rewrite fixed_part_set_keycode.
  destruct (decide (i < length g)%nat) as [Hi|Hi].
  - apply list_insert_id. rewrite list_lookup_fmap.
    unfold slot. rewrite nth_lookup.
    destruct (g !! i) eqn:E; [done|].
    apply lookup_ge_None in E. lia.
  - apply list_insert_ge. rewrite length_fmap. lia.
Qed.

(** A well-formed table is the initial one with sixteen key codes put in. *)
Lemma table_wf_zip (g : list Mapping) :
  table_wf g → g = zip_with set_keycode (keycode <$> g) init_mappings.
Proof.
  intros H. apply list_eq. intros i.
  rewrite lookup_zip_with, list_lookup_fmap.
  pose proof (table_wf_slot g i H) as Hs.
  pose proof (table_wf_length g H) as Hl.
  destruct (g !! i) as [m|] eqn:E; simpl.
  - assert (Hi : (i < length init_mappings)%nat).
    { apply lookup_lt_Some in E. exact (eq_ind _ (fun n => (i < n)%nat) E _ Hl). }
    destruct (lookup_lt_is_Some_2 init_mappings i Hi) as [m0 E0].
    rewrite E0. simpl. f_equal.
    unfold slot in Hs. rewrite !nth_lookup, E, E0 in Hs. simpl in Hs.
    destruct m, m0. unfold fixed_part, set_keycode in *. simpl in *.
    congruence.
  - done.
Qed.

(** ** Strings *)

Lemma append_nil_r (s : string) : s +:+ "" = s.
Proof. induction s as [|c s IH]; [done|]. cbv [String.append]. fold String.append. by rewrite IH. Qed.

Lemma append_cons (c : ascii) (s t : string) :
  String c s +:+ t = String c (s +:+ t).
Proof. reflexivity. Qed.

Lemma append_assoc (s t u : string) : (s +:+ t) +:+ u = s +:+ (t +:+ u).
Proof.
  induction s as [|c s IH]; [done|].
  by rewrite !append_cons, IH.
Qed.

Lemma no_newline_app (s t : string) :
  no_newline (s +:+ t) = no_newline s && no_newline t.
Proof.
  induction s as [|c s IH]; [done|].
  rewrite append_cons. simpl. rewrite IH. by rewrite andb_assoc.
Qed.

Lemma foldl_append (f : nat → string) (l : list nat) (h : string) :
  foldl (fun text i => text +:+ f i) h l
  = h +:+ foldr (fun i acc => f i +:+ acc) "" l.
Proof.
  revert h. induction l as [|i l IH]; intros h; simpl.
  - by rewrite append_nil_r.
  - by rewrite IH, append_assoc.
Qed.

Lemma unlines_continuations (h : string) (ls : list string) :
  h +:+ foldr (fun l acc => (" \" +:+ newline +:+ l) +:+ acc) "" ls +:+ newline
  = unlines (with_continuations (h :: ls)).
Proof.
  revert h. induction ls as [|l ls IH]; intros h.
  - simpl. by rewrite append_nil_r.
  - change (with_continuations (h :: l :: ls))
      with ((h +:+ " \") :: with_continuations (l :: ls)).
    change (unlines (?a :: ?r)) with (a +:+ newline +:+ unlines r).
    rewrite <- IH. simpl foldr. by rewrite !append_assoc.
Qed.

Lemma script_text_lines (g : list Mapping) :
  script_text g
  = unlines ("#!/bin/sh"
             :: with_continuations
                  ("exec ./keyboard2thejoystick"
                   :: (option_line ∘ slot g <$> seq 0 NUM_MAPPINGS))).
Proof.
  unfold script_text. rewrite foldl_append.
  change (unlines ("#!/bin/sh" :: ?l)) with ("#!/bin/sh" +:+ newline +:+ unlines l).
  rewrite <- unlines_continuations.
  assert (Hbody : ∀ l : list nat,
    foldr (fun i acc => script_option (slot g i) +:+ acc) "" l
    = foldr (fun l acc => (" \" +:+ newline +:+ l) +:+ acc) ""
            (option_line ∘ slot g <$> l)).
  { induction l as [|i l IH]; [done|].
    simpl. by rewrite IH. }
  rewrite Hbody. by rewrite !append_assoc.
Qed.

Lemma with_continuations_script (h : string) (g : list Mapping) :
  with_continuations (h :: (option_line ∘ slot g <$> seq 0 NUM_MAPPINGS))
  = (h +:+ " \") :: (continuation_line g <$> seq 0 NUM_MAPPINGS).
Proof.
  unfold continuation_line. simpl. by rewrite append_nil_r.
Qed.

(** ** Key names *)

Lemma keycode_to_name_from_ind (P : string → Prop) (tbl : list KeyName) :
  P "?" → Forall (fun k => P (kn_name k)) tbl →
  ∀ code, P (keycode_to_name_from tbl code).
Proof.
  intros Hq Htbl code. induction Htbl as [|k rest Hk _ IH]; simpl; [done|].
  by destruct (kn_code k =? code).
Qed.

Lemma keycode_to_name_no_newline (code : Z) :
  no_newline (keycode_to_name code) = true.
Proof.
  apply (keycode_to_name_from_ind (fun s => no_newline s = true)); [done|].
  unfold key_names. repeat constructor.
Qed.

Lemma keycode_to_name_from_unknown (tbl : list KeyName) (code : Z) :
  Forall (fun k => kn_code k ≠ code) tbl →
  keycode_to_name_from tbl code = "?".
Proof.
  induction 1 as [|k rest Hk _ IH]; simpl; [done|].
  destruct (Z.eqb_spec (kn_code k) code); [done|exact IH].
Qed.

Lemma cli_name_no_newline (g : list Mapping) (i : nat) :
  table_wf g → no_newline (cli_name (slot g i)) = true.
Proof.
  intros H. pose proof (table_wf_slot g i H) as Hs.
  assert (cli_name (slot g i) = cli_name (slot init_mappings i)) as ->.
  { unfold fixed_part in Hs. congruence. }
  do 16 (destruct i as [|i]; [reflexivity|]).
  unfold slot. by destruct i.
Qed.

(** ** Command-line overrides *)

Lemma table_wf_inv (g : list Mapping) :
  table_wf g →
  ∃ ks, length ks = NUM_MAPPINGS ∧ g = zip_with set_keycode ks init_mappings.
Proof.
  intros H. exists (keycode <$> g). split.
  - rewrite length_fmap. by apply table_wf_length.
  - by apply table_wf_zip.
Qed.

(** Replaces a well-formed table by sixteen explicit slots. *)
Ltac explicit_table g H :=
  let ks := fresh "ks" in
  let Hlen := fresh "Hlen" in
  destruct (table_wf_inv g H) as (ks & Hlen & ->);
  do 17 (destruct ks as [|? ks]; try discriminate Hlen);
  clear Hlen; cbn [zip_with init_mappings] in *.

Lemma cli_name_wf (g : list Mapping) (i : nat) :
  table_wf g → cli_name (slot g i) = cli_name (slot init_mappings i).
Proof.
  intros H. pose proof (table_wf_slot g i H) as Hs.
  unfold fixed_part in Hs. congruence.
Qed.

Lemma find_mapping_Some (g : list Mapping) (a : string) (m : nat) :
  find_mapping g a = Some m → cli_name (slot g m) = a ∧ (m < length g)%nat.
Proof.
  revert m. induction g as [|s g IH]; intros m; simpl; [done|].
  destruct (String.eqb_spec a (cli_name s)) as [->|Hne]; unfold streq.
  - rewrite String.eqb_refl. intros [= <-]. split; [done|]. simpl. lia.
  - apply String.eqb_neq in Hne. rewrite Hne.
    destruct (find_mapping g a) as [m'|]; [|done].
    intros [= <-]. destruct (IH m' eq_refl) as [? ?].
    split; [done|]. simpl. lia.
Qed.

(** The flags of a well-formed table are pairwise distinct, so the slot loop
    stops at the slot that owns the flag. *)
Lemma find_mapping_wf (g : list Mapping) (i : nat) :
  table_wf g → (i < NUM_MAPPINGS)%nat →
  find_mapping g (cli_name (slot g i)) = Some i.
Proof.
  intros H Hi. rewrite (cli_name_wf g i H).
  explicit_table g H.
  do 16 (destruct i as [|i]; [reflexivity|]).
  unfold NUM_MAPPINGS in Hi. lia.
Qed.

Lemma flag_not_reserved (g : list Mapping) (i : nat) :
  table_wf g → (i < NUM_MAPPINGS)%nat →
  streq (cli_name (slot g i)) "--help" = false ∧
  streq (cli_name (slot g i)) "-h" = false ∧
  streq (cli_name (slot g i)) "--guimap" = false.
Proof.
  intros H Hi. rewrite (cli_name_wf g i H).
  do 16 (destruct i as [|i]; [by repeat split|]).
  unfold NUM_MAPPINGS in Hi. lia.
Qed.

(** Whatever the arguments, and also when parsing stops with an error, the
    table stays well formed and a slot whose flag is not among the
    arguments is not written. *)
Lemma parse_loop_frame (n : nat) :
  ∀ (args : list string) (help guimap : bool) (g : list Mapping),
    (length args ≤ n)%nat → table_wf g →
    table_wf (pr_map (parse_loop args help guimap g)) ∧
    ∀ i, cli_name (slot g i) ∉ args →
         slot (pr_map (parse_loop args help guimap g)) i = slot g i.
Proof.
  induction n as [|n IH]; intros args help guimap g Hlen Hwf.
  - destruct args; [by split|simpl in Hlen; lia].
  - destruct args as [|a rest]; [by split|]. simpl in Hlen.
    cbn [parse_loop].
    destruct (streq a "--help" || streq a "-h").
    { destruct (IH rest true guimap g) as [Hw Hs]; [lia|done|].
      split; [done|]. intros i Hi. apply Hs.
      by apply not_elem_of_cons in Hi as [_ Hi]. }
    destruct (streq a "--guimap").
    { destruct (IH rest help true g) as [Hw Hs]; [lia|done|].
      split; [done|]. intros i Hi. apply Hs.
      by apply not_elem_of_cons in Hi as [_ Hi]. }
    destruct (find_mapping g a) as [m|] eqn:Hm; [|by split].
    destruct rest as [|kn rest']; [by split|].
    destruct (parse_keyname kn <? 0); [by split|].
    apply find_mapping_Some in Hm as [Hcli Hml].
    set (g' := <[m := set_keycode (parse_keyname kn) (slot g m)]> g).
    assert (Hwf' : table_wf g') by by apply table_wf_insert.
    simpl in Hlen.
    destruct (IH rest' help guimap g') as [Hw Hs]; [lia|done|].
    split; [done|]. intros i Hi.
    apply not_elem_of_cons in Hi as [Hia Hi].
    apply not_elem_of_cons in Hi as [_ Hi].
    assert (Hne : m ≠ i) by (intros ->; by apply Hia).
    rewrite Hs.
    + by apply slot_insert_ne.
    + by rewrite (cli_name_wf g' i Hwf'), <- (cli_name_wf g i Hwf).
Qed.

(** C6: a valid command-line override of one slot writes that slot's
    current key code and nothing else.  For a well-formed table [g], a slot
    [m] and a key name the parser accepts, parsing the flag of [m] followed
    by the name succeeds and yields [g] with the key code of slot [m]
    replaced: label, flag, button code, default key and direction vector of
    every slot, and every field of every other slot, are as before.  For
    any argument vector at all the table stays well formed and slots whose
    flag is not among the arguments are untouched. *)
Theorem parse_args_override_frame (g : list Mapping) (m : nat)
    (prog name : string) :
  table_wf g → (m < NUM_MAPPINGS)%nat → 0 ≤ parse_keyname name →
  let r := parse_args [prog; cli_name (slot g m); name] g in
  pr_status r = 0 ∧
  pr_map r = <[m := set_keycode (parse_keyname name) (slot g m)]> g ∧
  keycode (slot (pr_map r) m) = parse_keyname name ∧
  (∀ i, fixed_part (slot (pr_map r) i) = fixed_part (slot g i)) ∧
  (∀ i, i ≠ m → slot (pr_map r) i = slot g i) ∧
  (∀ argv, table_wf (pr_map (parse_args argv g)) ∧
           ∀ i, cli_name (slot g i) ∉ tail argv →
                slot (pr_map (parse_args argv g)) i = slot g i).
Proof.
  intros Hwf Hm Hkc r.
  assert (Hr : r = mkParse 0 false false
                 (<[m := set_keycode (parse_keyname name) (slot g m)]> g)).
  { subst r. unfold parse_args. cbn [tail parse_loop].
    destruct (flag_not_reserved g m Hwf Hm) as (-> & -> & ->).
    cbn [orb]. rewrite (find_mapping_wf g m Hwf Hm).
    destruct (Z.ltb_spec (parse_keyname name) 0); [lia|done]. }
  rewrite Hr. cbn [pr_status pr_map].
  pose proof (table_wf_length g Hwf) as Hl.
  repeat split.
  - rewrite slot_insert_eq; [done|]. rewrite Hl. done.
  - intros i. destruct (decide (i = m)) as [->|Hne].
    + rewrite slot_insert_eq; [done|]. rewrite Hl. done.
    + by rewrite slot_insert_ne.
  - intros i Hne. by rewrite slot_insert_ne.
  - by apply (parse_loop_frame (length (tail argv))).
  - by apply (parse_loop_frame (length (tail argv))).
Qed.

(** The default table, [--up] rebound to [k]: the vector of "up" stays
    (0, -1). *)
Lemma parse_args_override_frame_witness :
  let r := parse_args ["keyboard2thejoystick"; "--up"; "k"] init_mappings in
  pr_status r = 0 ∧ keycode (slot (pr_map r) 0) = KEY_K ∧
  (dx (slot (pr_map r) 0), dy (slot (pr_map r) 0)) = (0, -1) ∧
  ∀ i, i ≠ 0%nat → slot (pr_map r) i = slot init_mappings i.
Proof.
  assert (Hm : (0 < NUM_MAPPINGS)%nat) by (unfold NUM_MAPPINGS; lia).
  assert (Hkc : 0 ≤ parse_keyname "k") by (vm_compute; discriminate).
  destruct (parse_args_override_frame init_mappings 0 "keyboard2thejoystick"
              "k" table_wf_init Hm Hkc)
    as (Hs & Hmap & Hk & Hfix & Hother & _).
  split; [exact Hs|]. split; [exact Hk|]. split; [|exact Hother].
  exact (f_equal (fun p => (p.1.2, p.2)) (Hfix 0%nat)).
Defined.

(** ** Script export *)

Lemma continuation_line_flat (g : list Mapping) (i : nat) :
  continuation_line g i
  = "  " +:+ cli_name (slot g i) +:+ " "
    +:+ keycode_to_name (keycode (slot g i))
    +:+ (if (i <? 15)%nat then " \" else "").
Proof. unfold continuation_line, option_line. by rewrite !append_assoc. Qed.

Lemma continuation_line_no_newline (g : list Mapping) (i : nat) :
  table_wf g → no_newline (continuation_line g i) = true.
Proof.
  intros H. rewrite continuation_line_flat, !no_newline_app.
  rewrite (cli_name_no_newline g i H), keycode_to_name_no_newline.
  by destruct (i <? 15)%nat.
Qed.

Lemma script_text_layout (g : list Mapping) :
  script_text g
  = unlines ("#!/bin/sh" :: "exec ./keyboard2thejoystick \"
             :: (continuation_line g <$> seq 0 NUM_MAPPINGS)).
Proof. by rewrite script_text_lines, with_continuations_script. Qed.

(** C8: when the script file can be opened, exporting the table [g] adds
    one file whose text is, line by line, the shebang line, the line that
    invokes the program, and sixteen continuation lines of which the
    [i]-th holds the flag of slot [i] and the name of its current key
    code; no line contains a line feed, and the file mode 0755 has the
    three execute bits set. *)
Theorem export_script_layout (env : wizard_env) (g : list Mapping)
    (app : GuimapApp) (fs : list file) :
  table_wf g →
  fopen_ok env (script_path (b_path (browser app))) = true →
  let body := continuation_line g <$> seq 0 NUM_MAPPINGS in
  let lines := "#!/bin/sh" :: "exec ./keyboard2thejoystick \" :: body in
  (guimap_save_script env g app fs).2
  = fs ++ [mkFile (script_path (b_path (browser app))) (unlines lines)
                  MODE_0755] ∧
  length body = 16%nat ∧
  (∀ i, (i < 16)%nat →
     body !! i
     = Some ("  " +:+ cli_name (slot g i) +:+ " "
             +:+ keycode_to_name (keycode (slot g i))
             +:+ (if (i <? 15)%nat then " \" else ""))) ∧
  Forall (fun l => no_newline l = true) lines ∧
  Z.land MODE_0755 73 = 73.
Proof.
  intros Hwf Hopen body lines.
  split; [|split; [|split; [|split]]].
  - unfold guimap_save_script. rewrite Hopen. cbn [snd].
    by rewrite script_text_layout.
  - reflexivity.
  - intros i Hi. subst body.
    rewrite list_lookup_fmap, lookup_seq_lt by (unfold NUM_MAPPINGS; lia).
    cbn. by rewrite continuation_line_flat.
  - subst lines body. do 2 (apply List.Forall_cons; [reflexivity|]).
    apply Forall_fmap, Forall_forall. intros i _.
    by apply continuation_line_no_newline.
  - reflexivity.
Qed.

(** Exporting the default table into "/mnt". *)
Lemma export_script_layout_witness :
  (guimap_save_script (mkEnv true 1 false (fun _ => None) (fun _ => true))
     init_mappings
     (set_browser (mkBrowser "/mnt" [] 0 0) initial_app) []).2
  = [mkFile "/mnt/keyboard2thejoystick.sh"
       (unlines ("#!/bin/sh" :: "exec ./keyboard2thejoystick \"
                 :: (continuation_line init_mappings <$> seq 0 NUM_MAPPINGS)))
       MODE_0755].
Proof.
  exact (proj1 (export_script_layout
                  (mkEnv true 1 false (fun _ => None) (fun _ => true))
                  init_mappings
                  (set_browser (mkBrowser "/mnt" [] 0 0) initial_app) []
                  table_wf_init eq_refl)).
Defined.

(** C10: key-code-to-name resolution never fails and yields "?" for every
    code outside the key-name table; the key-name parser rejects "?".  So
    when the wizard captures such a code into slot [i], the exported script
    has the line of slot [i] pairing its flag with "?", and feeding that
    pair back to the command-line parser is an error. *)
Theorem unknown_key_exports_placeholder (code : Z) :
  Forall (fun k => kn_code k ≠ code) key_names →
  keycode_to_name code = "?" ∧
  parse_keyname "?" = -1 ∧
  ∀ (env : wizard_env) (joy : list input_event) (w : wizard) (i : nat),
    table_wf (w_map w) → state (w_app w) = GUIMAP_MAP →
    cur_map (w_app w) = Z.of_nat i → (i < NUM_MAPPINGS)%nat → 0 < code →
    let g' := w_map (guimap_frame env (mkFrame code joy) w).1 in
    keycode (slot g' i) = code ∧
    script_text g'
    = unlines ("#!/bin/sh" :: "exec ./keyboard2thejoystick \"
               :: (continuation_line g' <$> seq 0 NUM_MAPPINGS)) ∧
    continuation_line g' i
    = "  " +:+ cli_name (slot (w_map w) i) +:+ " ?"
      +:+ (if (i <? 15)%nat then " \" else "") ∧
    pr_status (parse_args ["keyboard2thejoystick";
                           cli_name (slot (w_map w) i); "?"] g') = -1.
Proof.
  intros Hunk.
  assert (Hname : keycode_to_name code = "?")
    by by apply keycode_to_name_from_unknown.
  split; [exact Hname|]. split; [reflexivity|].
  intros env joy w i Hwf Hst Hcur Hi Hpos g'.
  assert (Hg' : g' = <[i := set_keycode code (slot (w_map w) i)]> (w_map w)).
  { subst g'. unfold guimap_frame. rewrite Hst. unfold frame_map.
    cbn [f_key]. destruct (Z.gtb_spec code 0); [|lia].
    cbn [fst w_map]. by rewrite Hcur, Nat2Z.id. }
  assert (Hwf' : table_wf g') by (rewrite Hg'; by apply table_wf_insert).
  assert (Hslot : slot g' i = set_keycode code (slot (w_map w) i)).
  { rewrite Hg'. apply slot_insert_eq. by rewrite (table_wf_length _ Hwf). }
  split; [by rewrite Hslot|]. split; [apply script_text_layout|].
  split.
  - rewrite continuation_line_flat, Hslot. cbn [cli_name keycode set_keycode].
    by rewrite Hname.
  - assert (Hcli : cli_name (slot (w_map w) i) = cli_name (slot g' i))
      by by rewrite Hslot.
    rewrite Hcli. unfold parse_args. cbn [tail parse_loop].
    destruct (flag_not_reserved g' i Hwf' Hi) as (-> & -> & ->).
    cbn [orb]. by rewrite (find_mapping_wf g' i Hwf' Hi).
Qed.

(** Scroll Lock (code 70) has no name; captured into the "up" slot it is
    exported as ["  --up ? \"]. *)
Lemma unknown_key_exports_placeholder_witness :
  keycode_to_name 70 = "?" ∧
  continuation_line
    (w_map (guimap_frame (mkEnv true 1 false (fun _ => None) (fun _ => true))
              (mkFrame 70 []) (mkWizard initial_app init_mappings [])).1) 0
  = "  --up ? \".
Proof.
  assert (Hunk : Forall (fun k => kn_code k ≠ 70) key_names).
  { unfold key_names. repeat constructor; vm_compute; discriminate. }
  destruct (unknown_key_exports_placeholder 70 Hunk) as (Hname & _ & Hcap).
  split; [exact Hname|].
  assert (Hi : (0 < NUM_MAPPINGS)%nat) by (unfold NUM_MAPPINGS; lia).
  assert (Hpos : 0 < 70) by lia.
  exact (proj1 (proj2 (proj2
    (Hcap (mkEnv true 1 false (fun _ => None) (fun _ => true)) []
          (mkWizard initial_app init_mappings []) 0%nat
          table_wf_init eq_refl eq_refl Hi Hpos)))).
Defined.

(** ** Translation engine: events written *)

Lemma engine_wf_start : engine_wf engine_start.
Proof. split; reflexivity. Qed.

Lemma release_buttons_fold (l : list nat) (st : engine) :
  foldl (fun s b => emit_event EV_KEY (btn_code (slot (g_map s) b)) 0 s) st l
  = mkEngine (g_map st) (g_dir_held st) (g_ctrl_held st) (g_suspended st)
      (g_kbd_grabbed st)
      (uinput st
       ++ ((fun b => mkEvent EV_KEY (btn_code (slot (g_map st) b)) 0) <$> l)).
Proof.
  revert st. induction l as [|b l IH]; intros st; simpl.
  - rewrite app_nil_r. by destruct st.
  - rewrite IH. unfold emit_event; simpl. by rewrite <- app_assoc.
Qed.

Lemma release_center (st : engine) :
  center_axes (release_buttons st)
  = mkEngine (g_map st) (g_dir_held st) (g_ctrl_held st) (g_suspended st)
      (g_kbd_grabbed st) (uinput st ++ release_report (g_map st)).
Proof.
  unfold release_buttons. rewrite release_buttons_fold.
  unfold center_axes, emit_syn, emit_event, release_report; simpl.
  by rewrite <- !app_assoc.
Qed.

Lemma check_buttons_fold (code : Z) (pressed : bool) (l : list nat)
    (st : engine) :
  foldl (check_button code pressed) st l
  = mkEngine (g_map st) (g_dir_held st) (g_ctrl_held st) (g_suspended st)
      (g_kbd_grabbed st)
      (uinput st ++ button_reports (g_map st) code pressed l).
Proof.
  revert st. induction l as [|b l IH]; intros st; simpl.
  - rewrite app_nil_r. by destruct st.
  - rewrite IH. unfold check_button.
    destruct (code =? keycode (slot (g_map st) b)); simpl; [|done].
    by rewrite <- !app_assoc.
Qed.

Lemma recalc_emits (st : engine) :
  recalc_and_emit_axes st
  = mkEngine (g_map st) (g_dir_held st) (g_ctrl_held st) (g_suspended st)
      (g_kbd_grabbed st)
      (uinput st ++ axis_report (g_map st) (g_dir_held st)).
Proof.
  unfold recalc_and_emit_axes, emit_syn, emit_event, axis_report, axes_of.
  simpl. by rewrite <- !app_assoc.
Qed.

(** ** Direction flags *)

Lemma held_at_insert_eq (held : list bool) (d : nat) (p : bool) :
  (d < length held)%nat → held_at (<[d := p]> held) d = p.
Proof.
  intros Hd. unfold held_at. apply nth_lookup_Some.
  by apply list_lookup_insert_eq.
Qed.

Lemma held_at_insert_ne (held : list bool) (d d' : nat) (p : bool) :
  d ≠ d' → held_at (<[d := p]> held) d' = held_at held d'.
Proof.
  intros Hne. unfold held_at. rewrite !nth_lookup.
  by rewrite list_lookup_insert_ne.
Qed.

Lemma held_ext (h1 h2 : list bool) :
  length h1 = length h2 → (∀ d, held_at h1 d = held_at h2 d) → h1 = h2.
Proof.
  intros Hl Hext. apply (nth_ext h1 h2 false false Hl). intros n _.
  apply Hext.
Qed.

Lemma existsb_ext_elem {A : Type} (f h : A → bool) (l : list A) :
  (∀ x, x ∈ l → f x = h x) → existsb f l = existsb h l.
Proof.
  induction l as [|x l IH]; intros Hext; simpl; [done|].
  rewrite (Hext x) by left. f_equal. apply IH. intros y Hy. apply Hext.
  by right.
Qed.

(** The direction loop over distinct slots [l]: every slot of [l] bound to
    the key takes the value [pressed], the others keep theirs, and the
    dirty flag is raised exactly when some flag took a new value. *)
Lemma check_directions_fold (g : list Mapping) (code : Z) (pressed : bool)
    (l : list nat) :
  ∀ (held : list bool) (dirty : bool),
    NoDup l → (∀ d, d ∈ l → (d < length held)%nat) →
    let r := foldl (check_direction g code pressed) (held, dirty) l in
    length r.1 = length held ∧
    (∀ d, held_at r.1 d
          = if bool_decide (d ∈ l) && (code =? keycode (slot g d))
            then pressed else held_at held d) ∧
    r.2 = dirty || existsb (fun d => (code =? keycode (slot g d))
                                     && negb (eqb (held_at held d) pressed)) l.
Proof.
  induction l as [|d0 l IH]; intros held dirty Hnd Hlt; simpl.
  - split; [done|]. split; [done|]. by rewrite orb_false_r.
  - apply NoDup_cons in Hnd as [Hd0 Hnd].
    assert (Hd0lt : (d0 < length held)%nat) by (apply Hlt; left).
    set (acc := check_direction g code pressed (held, dirty) d0).
    assert (Hacc : length acc.1 = length held ∧
              (∀ d, held_at acc.1 d
                    = if bool_decide (d = d0) && (code =? keycode (slot g d))
                      then pressed else held_at held d) ∧
              acc.2 = dirty || ((code =? keycode (slot g d0))
                                && negb (eqb (held_at held d0) pressed))).
    { subst acc. unfold check_direction. cbn [fst snd].
      destruct (code =? keycode (slot g d0)) eqn:Ek; cbn [andb].
      - destruct (eqb (held_at held d0) pressed) eqn:Eh; cbn [negb fst snd].
        + split; [done|]. split; [|by rewrite orb_false_r].
          intros d. destruct (bool_decide_reflect (d = d0)) as [->|]; [|done].
          rewrite Ek. cbn. by apply eqb_prop.
        + split; [by rewrite length_insert|]. split; [|by rewrite orb_true_r].
          intros d. destruct (bool_decide_reflect (d = d0)) as [->|Hne].
          * rewrite Ek. cbn. by apply held_at_insert_eq.
          * cbn. by apply held_at_insert_ne.
      - split; [done|]. split; [|by rewrite orb_false_r].
        intros d. destruct (bool_decide_reflect (d = d0)) as [->|]; [|done].
        by rewrite Ek. }
    destruct acc as [held1 dirty1]. cbn [fst snd] in Hacc.
    destruct Hacc as (Hl1 & Hh1 & Hd1).
    destruct (IH held1 dirty1 Hnd) as (Hl2 & Hh2 & Hd2).
    { intros d Hd. rewrite Hl1. apply Hlt. by right. }
    split; [by rewrite Hl2|]. split.
    + intros d. rewrite Hh2, Hh1.
      destruct (bool_decide_reflect (d = d0)) as [->|Hne].
      * rewrite (bool_decide_eq_false_2 _ Hd0).
        rewrite (bool_decide_eq_true_2 (d0 ∈ d0 :: l)) by left.
        cbn [andb]. done.
      * cbn [andb].
        destruct (bool_decide_reflect (d ∈ l)) as [Hin|Hnin].
        -- rewrite (bool_decide_eq_true_2 (d ∈ d0 :: l)) by by right. done.
        -- rewrite (bool_decide_eq_false_2 (d ∈ d0 :: l)); [done|].
           intros [?|?]%elem_of_cons; done.
    + rewrite Hd2, Hd1, <- orb_assoc. f_equal. f_equal.
      apply existsb_ext_elem. intros d Hd. rewrite Hh1.
      destruct (bool_decide_reflect (d = d0)) as [->|Hne]; [|done].
      by exfalso.
Qed.

Lemma existsb_false_elem {A : Type} (f : A → bool) (l : list A) (x : A) :
  existsb f l = false → x ∈ l → f x = false.
Proof.
  induction l as [|y l IH]; simpl; intros Hex Hin.
  - by apply elem_of_nil in Hin.
  - apply orb_false_elim in Hex as [Hy Hl].
    apply elem_of_cons in Hin as [->|Hin]; [done|by apply IH].
Qed.

Lemma check_directions_spec (g : list Mapping) (code : Z) (pressed : bool)
    (held : list bool) (dirty : bool) :
  length held = NUM_DIRECTIONS →
  let hd := check_directions g code pressed held dirty in
  length hd.1 = NUM_DIRECTIONS ∧
  (∀ d, held_at hd.1 d
        = if bool_decide (d < NUM_DIRECTIONS)%nat && (code =? keycode (slot g d))
          then pressed else held_at held d) ∧
  hd.2 = dirty || negb (bool_decide (hd.1 = held)).
Proof.
  intros Hlen hd.
  destruct (check_directions_fold g code pressed (seq 0 NUM_DIRECTIONS)
              held dirty) as (Hl & Hh & Hd).
  { apply NoDup_seq. }
  { intros d Hd. apply elem_of_seq in Hd. lia. }
  fold (check_directions g code pressed held dirty) in Hl, Hh, Hd.
  fold hd in Hl, Hh, Hd.
  assert (Hh' : ∀ d, held_at hd.1 d
            = if bool_decide (d < NUM_DIRECTIONS)%nat
                 && (code =? keycode (slot g d))
              then pressed else held_at held d).
  { intros d. rewrite Hh.
    rewrite (bool_decide_ext (d ∈ seq 0 NUM_DIRECTIONS) (d < NUM_DIRECTIONS)%nat);
      [done|].
    rewrite elem_of_seq. lia. }
  split; [by rewrite Hl|]. split; [exact Hh'|].
  rewrite Hd. f_equal.
  destruct (existsb _ _) eqn:Ex.
  - apply existsb_exists in Ex as (d & Hin & Hc).
    apply andb_prop in Hc as [Hk Hne]. apply negb_true_iff in Hne.
    apply List.in_seq in Hin.
    rewrite bool_decide_eq_false_2; [done|].
    intros Heq. specialize (Hh' d). rewrite Heq, Hk in Hh'.
    rewrite bool_decide_eq_true_2 in Hh' by lia. cbn in Hh'.
    rewrite Hh', eqb_reflx in Hne. done.
  - rewrite bool_decide_eq_true_2; [done|].
    apply held_ext; [by rewrite Hl|]. intros d. rewrite Hh'.
    destruct (bool_decide_reflect (d < NUM_DIRECTIONS)%nat) as [Hd8|]; [|done].
    destruct (code =? keycode (slot g d)) eqn:Hk; [|done]. cbn.
    assert (Hin : d ∈ seq 0 NUM_DIRECTIONS) by (apply elem_of_seq; lia).
    pose proof (existsb_false_elem _ _ d Ex Hin) as Hf. cbn beta in Hf.
    rewrite Hk in Hf. cbn in Hf. apply negb_false_iff in Hf.
    symmetry. by apply eqb_prop.
Qed.

(** ** One key transition *)

(** A press or release that reaches the mapping loops of an active engine:
    the direction flags follow the key, and the events written are the
    reports of the button slots bound to it. *)
Lemma handle_event_translate (ioctl_grab : nat → bool) (ev : input_event)
    (st : engine) (dirty : bool) :
  ev_type ev = EV_KEY → ev_value ev ≠ 2 → is_ctrl (ev_code ev) = false →
  chord_press (g_ctrl_held st) ev = false → g_suspended st = false →
  handle_event ioctl_grab ev st dirty
  = (mkEngine (g_map st)
       (check_directions (g_map st) (ev_code ev) (ev_value ev =? 1)
                         (g_dir_held st) dirty).1
       (g_ctrl_held st) false (g_kbd_grabbed st)
       (uinput st ++ button_reports (g_map st) (ev_code ev) (ev_value ev =? 1)
                       (seq NUM_DIRECTIONS NUM_BUTTONS)),
     (check_directions (g_map st) (ev_code ev) (ev_value ev =? 1)
                       (g_dir_held st) dirty).2,
     Next).
Proof.
  intros Ht Hv Hc Hch Hs. unfold handle_event.
  rewrite Ht. change (EV_KEY =? EV_KEY) with true. cbn [negb].
  destruct (Z.eqb_spec (ev_value ev) 2) as [|_]; [done|].
  unfold is_ctrl in Hc. rewrite Hc.
  unfold chord_press in Hch.
  destruct (ev_code ev =? KEY_S) eqn:ES, (ev_code ev =? KEY_R) eqn:ER,
    (ev_value ev =? 1) eqn:EV, (g_ctrl_held st) eqn:EC;
    cbn in Hch; try discriminate Hch; cbn [andb]; rewrite Hs;
    unfold check_buttons; rewrite check_buttons_fold; cbn;
    by rewrite ?EC, ?Hs.
Qed.

Lemma btn_code_wf (g : list Mapping) (b : nat) :
  table_wf g → (NUM_DIRECTIONS ≤ b < NUM_MAPPINGS)%nat →
  btn_code (slot g b) = BTN_TRIGGER + (Z.of_nat b - 8).
Proof.
  intros H Hb. pose proof (table_wf_slot g b H) as Hs.
  assert (btn_code (slot g b) = btn_code (slot init_mappings b)) as ->.
  { unfold fixed_part in Hs. congruence. }
  unfold NUM_DIRECTIONS, NUM_MAPPINGS in Hb.
  do 8 (destruct b as [|b]; [lia|]).
  do 8 (destruct b as [|b]; [reflexivity|]). lia.
Qed.





Lemma control_key_flag (ioctl_grab : nat → bool) (st : engine)
    (dirty : bool) (ev : input_event) :
  ev_type ev = EV_KEY → ev_value ev ≠ 2 → is_ctrl (ev_code ev) = true →
  handle_event ioctl_grab ev st dirty
  = (set_ctrl_held (ev_value ev =? 1) st, dirty, Next).
Proof.
  intros Ht Hv Hc. unfold handle_event.
  rewrite Ht. change (EV_KEY =? EV_KEY) with true. cbn [negb].
  destruct (Z.eqb_spec (ev_value ev) 2) as [|_]; [done|].
  unfold is_ctrl in Hc. by rewrite Hc.
Qed.

(** C7 (amended): a transition of a control key, left or right, only sets
    the held-control flag to the press state (a key repeat leaves even that
    alone); it writes no event, changes no direction flag, raises no axis
    update and goes on with the next event.  The shift and alt keys are
    ordinary keys: on an active engine their presses and releases go
    through the direction loop and the button loop like any other key. *)
Theorem control_key_only_sets_flag (ioctl_grab : nat → bool) (st : engine)
    (dirty : bool) (ev : input_event) :
  ev_type ev = EV_KEY → is_ctrl (ev_code ev) = true →
  handle_event ioctl_grab ev st dirty
  = (mkEngine (g_map st) (g_dir_held st)
              (if ev_value ev =? 2 then g_ctrl_held st else ev_value ev =? 1)
              (g_suspended st) (g_kbd_grabbed st) (uinput st),
     dirty, Next) ∧
  ∀ code value,
    code ∈ [KEY_LEFTSHIFT; KEY_RIGHTSHIFT; KEY_LEFTALT; KEY_RIGHTALT] →
    value ≠ 2 → g_suspended st = false →
    handle_event ioctl_grab (mkEvent EV_KEY code value) st dirty
    = (mkEngine (g_map st)
         (check_directions (g_map st) code (value =? 1) (g_dir_held st)
                           dirty).1
         (g_ctrl_held st) false (g_kbd_grabbed st)
         (uinput st ++ button_reports (g_map st) code (value =? 1)
                         (seq NUM_DIRECTIONS NUM_BUTTONS)),
       (check_directions (g_map st) code (value =? 1) (g_dir_held st)
                         dirty).2,
       Next).
Proof.
  intros Ht Hc. split.
  - destruct (Z.eqb_spec (ev_value ev) 2) as [Hv|Hv].
    + unfold handle_event. rewrite Ht, Hv. cbn. by destruct st.
    + by rewrite control_key_flag.
  - intros code value Hcode Hv Hs.
    assert (Hplain : is_ctrl code = false ∧
              (code =? KEY_S) || (code =? KEY_R) = false).
    { repeat (apply elem_of_cons in Hcode as [->|Hcode]; [by split|]).
      by apply elem_of_nil in Hcode. }
    destruct Hplain as [Hnc Hnk].
    apply handle_event_translate; try done.
    unfold chord_press. cbn [ev_code]. by rewrite Hnk.
Qed.

Lemma control_key_only_sets_flag_witness :
  handle_event (fun _ => true) (mkEvent EV_KEY KEY_RIGHTCTRL 1)
               engine_start true
  = (set_ctrl_held true engine_start, true, Next).
Proof.
  exact (proj1 (control_key_only_sets_flag (fun _ => true) engine_start true
                  (mkEvent EV_KEY KEY_RIGHTCTRL 1) eq_refl eq_refl)).
Defined.

(** C7 fails as stated: left alt is in the key vocabulary as a modifier
    and is the default key of Right Fire; its press leaves the held-control
    flag alone and writes the report of button 289.  Left shift, bound to
    "up" with [--up lshift], sets a direction flag and raises the axis
    update. *)
Lemma alt_and_shift_are_mapped :
  keycode_to_name KEY_LEFTALT = "lalt" ∧
  handle_event (fun _ => true) (mkEvent EV_KEY KEY_LEFTALT 1) engine_start false
  = (mkEngine init_mappings (replicate NUM_DIRECTIONS false) false false
              [true]
              [mkEvent EV_MSC MSC_SCAN 0x90002; mkEvent EV_KEY BTN_THUMB 1;
               mkEvent EV_SYN SYN_REPORT 0],
     false, Next) ∧
  let r := parse_args ["keyboard2thejoystick"; "--up"; "lshift"]
                      init_mappings in
  pr_status r = 0 ∧
  handle_event (fun _ => true) (mkEvent EV_KEY KEY_LEFTSHIFT 1)
               (set_map (pr_map r) engine_start) false
  = (mkEngine (pr_map r) (<[0%nat := true]> (replicate NUM_DIRECTIONS false))
              false false [true] [],
     true, Next).
Proof. vm_compute. repeat split. Qed.

(** ** Axis recomputation *)

Lemma axis_value_spec (s : Z) : axis_value (clamp1 s) = spec_axis s.
Proof.
  unfold axis_value, clamp1, spec_axis, spec_clamp.
  destruct (Z.ltb_spec s (-1)); repeat case_decide;
    repeat match goal with
           | |- context [?a >? ?b] => destruct (Z.gtb_spec a b)
           | |- context [?a <? ?b] => destruct (Z.ltb_spec a b)
           end; lia.
Qed.

Lemma sum_over_perm (f : nat → Z) (l k : list nat) :
  l ≡ₚ k → sum_over f l = sum_over f k.
Proof.
  induction 1; simpl; unfold sum_over in *; simpl; lia.
Qed.

Lemma held_at_held_of (S : list nat) (d : nat) :
  (d < NUM_DIRECTIONS)%nat → held_at (held_of S) d = bool_decide (d ∈ S).
Proof.
  intros Hd. unfold held_at, held_of. apply nth_lookup_Some.
  rewrite list_lookup_fmap, lookup_seq_lt by done. done.
Qed.

(** The summing loop adds the vector of every held slot among [l]. *)
Lemma axis_sums_fold (g : list Mapping) (held : list bool) (l : list nat)
    (s : Z * Z) :
  foldl (fun s d =>
           if held_at held d
           then (s.1 + dx (slot g d), s.2 + dy (slot g d)) else s) s l
  = (s.1 + sum_over (fun d => dx (slot g d)) (filter (fun d => held_at held d = true) l),
     s.2 + sum_over (fun d => dy (slot g d)) (filter (fun d => held_at held d = true) l)).
Proof.
  revert s. induction l as [|d l IH]; intros [sx sy]; simpl.
  - f_equal; lia.
  - rewrite IH. rewrite filter_cons.
    destruct (held_at held d); case_decide; try done; simpl; f_equal; lia.
Qed.

Lemma axis_sums_held_of (g : list Mapping) (S : list nat) :
  NoDup S → (∀ d, d ∈ S → (d < NUM_DIRECTIONS)%nat) →
  axis_sums g (held_of S)
  = (sum_over (fun d => dx (slot g d)) S, sum_over (fun d => dy (slot g d)) S).
Proof.
  intros Hnd Hlt. unfold axis_sums. rewrite axis_sums_fold. cbn [fst snd].
  assert (Hp : filter (fun d => held_at (held_of S) d = true)
                      (seq 0 NUM_DIRECTIONS) ≡ₚ S).
  { apply NoDup_Permutation; [apply NoDup_filter, NoDup_seq|done|].
    intros d. rewrite list_elem_of_filter, elem_of_seq. split.
    - intros [Hh Hd]. rewrite held_at_held_of in Hh by lia.
      by apply bool_decide_eq_true in Hh.
    - intros Hd. pose proof (Hlt d Hd). split; [|lia].
      rewrite held_at_held_of by done. by apply bool_decide_eq_true. }
  by rewrite !(sum_over_perm _ _ _ Hp).
Qed.

(** Draining presses of keys that are not control keys, control not being
    held: a direction flag is set when it was set before or its key is
    among the keys pressed. *)
Lemma read_loop_presses (ioctl_grab : nat → bool) (ks : list Z) :
  ∀ (st : engine) (dirty : bool),
    length (g_dir_held st) = NUM_DIRECTIONS →
    g_suspended st = false → g_ctrl_held st = false →
    Forall (fun k => is_ctrl k = false) ks →
    ∃ st' dirty',
      read_loop ioctl_grab (press <$> ks) st dirty = (st', dirty', Next) ∧
      g_map st' = g_map st ∧
      length (g_dir_held st') = NUM_DIRECTIONS ∧
      ∀ d, held_at (g_dir_held st') d
           = held_at (g_dir_held st) d
             || (bool_decide (d < NUM_DIRECTIONS)%nat
                 && bool_decide (keycode (slot (g_map st) d) ∈ ks)).
Proof.
  induction ks as [|k ks IH]; intros st dirty Hlen Hs Hc Hks.
  - exists st, dirty. repeat split; try done.
    intros d. rewrite (bool_decide_eq_false_2 (_ ∈ [])).
    + by rewrite andb_false_r, orb_false_r.
    + apply not_elem_of_nil.
  - apply Forall_cons in Hks as [Hk Hks].
    cbn [fmap list_fmap read_loop].
    change (list_fmap Z input_event press ks) with (press <$> ks).
    assert (Hv : ev_value (press k) ≠ 2) by (cbn; lia).
    assert (Hch : chord_press (g_ctrl_held st) (press k) = false).
    { unfold chord_press. rewrite Hc. by rewrite andb_false_r. }
    rewrite (handle_event_translate ioctl_grab (press k) st dirty
               eq_refl Hv Hk Hch Hs).
    cbn [press ev_code ev_value]. change (1 =? 1) with true.
    destruct (check_directions_spec (g_map st) k true (g_dir_held st) dirty
                Hlen) as (Hl1 & Hh1 & _).
    set (st1 := mkEngine _ _ _ _ _ _).
    destruct (IH st1 (check_directions (g_map st) k true (g_dir_held st)
                                       dirty).2)
      as (st' & dirty' & Hrun & Hmap & Hl' & Hh'); try done.
    exists st', dirty'. split; [exact Hrun|]. split; [done|].
    split; [done|]. intros d. rewrite Hh'. subst st1. cbn [g_dir_held g_map].
    rewrite Hh1.
    destruct (bool_decide_reflect (d < NUM_DIRECTIONS)%nat); cbn [andb];
      [|by rewrite !orb_false_r].
    destruct (Z.eqb_spec k (keycode (slot (g_map st) d))) as [->|Hne].
    + rewrite (bool_decide_eq_true_2 (_ ∈ _ :: ks)) by left.
      by rewrite orb_true_r.
    + destruct (bool_decide_reflect (keycode (slot (g_map st) d) ∈ ks)).
      * rewrite (bool_decide_eq_true_2 (_ ∈ _ :: ks)) by by right. done.
      * rewrite (bool_decide_eq_false_2 (_ ∈ _ :: ks)); [done|].
        intros [?|?]%elem_of_cons; congruence.
Qed.

Lemma direction_vector_wf (g : list Mapping) (d : nat) :
  table_wf g → (d < NUM_DIRECTIONS)%nat →
  -1 ≤ dx (slot g d) ≤ 1 ∧ -1 ≤ dy (slot g d) ≤ 1.
Proof.
  intros H Hd. pose proof (table_wf_slot g d H) as Hs.
  assert (dx (slot g d) = dx (slot init_mappings d)) as ->
    by (unfold fixed_part in Hs; congruence).
  assert (dy (slot g d) = dy (slot init_mappings d)) as ->
    by (unfold fixed_part in Hs; congruence).
  unfold NUM_DIRECTIONS in Hd.
  do 8 (destruct d as [|d]; [cbn; lia|]). lia.
Qed.

Lemma sum_over_bound (f : nat → Z) (S : list nat) :
  (∀ d, d ∈ S → -1 ≤ f d ≤ 1) →
  - Z.of_nat (length S) ≤ sum_over f S ≤ Z.of_nat (length S).
Proof.
  induction S as [|d S IH]; intros Hf; [cbn; lia|].
  assert (Hd : -1 ≤ f d ≤ 1) by (apply Hf; left).
  assert (HS : ∀ d', d' ∈ S → -1 ≤ f d' ≤ 1) by (intros d' ?; apply Hf; by right).
  specialize (IH HS). unfold sum_over in *. cbn [foldr length]. lia.
Qed.

Lemma held_set_size (S : list nat) :
  NoDup S → (∀ d, d ∈ S → (d < NUM_DIRECTIONS)%nat) →
  (length S ≤ NUM_DIRECTIONS)%nat.
Proof.
  intros Hnd Hlt.
  assert (Hsub : S ⊆+ seq 0 NUM_DIRECTIONS).
  { apply NoDup_submseteq; [done|]. intros d Hd. apply elem_of_seq.
    specialize (Hlt d Hd). lia. }
  apply submseteq_length in Hsub. by rewrite length_seq in Hsub.
Qed.

(** C1: with exactly the direction slots of a set [S] held, the axis
    recomputation writes the X value given by the rule of the
    specification applied to the sum of [dx] over [S], the Y value given
    by the same rule on [dy], and one flush; [S] enters only as a set.
    The sums lie in [-8, 8].  Moreover the held flags, and with them the
    axis report, reached by pressing a collection of keys are the same for
    every order of the presses. *)
Theorem axes_depend_on_held_set (st : engine) (S : list nat) :
  table_wf (g_map st) →
  NoDup S → (∀ d, d ∈ S → (d < NUM_DIRECTIONS)%nat) →
  g_dir_held st = held_of S →
  uinput (recalc_and_emit_axes st)
  = uinput st
    ++ [mkEvent EV_ABS ABS_X
          (spec_axis (sum_over (fun d => dx (slot (g_map st) d)) S));
        mkEvent EV_ABS ABS_Y
          (spec_axis (sum_over (fun d => dy (slot (g_map st) d)) S));
        mkEvent EV_SYN SYN_REPORT 0] ∧
  (-8 ≤ sum_over (fun d => dx (slot (g_map st) d)) S ≤ 8 ∧
   -8 ≤ sum_over (fun d => dy (slot (g_map st) d)) S ≤ 8) ∧
  (∀ S', S ≡ₚ S' → held_of S' = held_of S) ∧
  (∀ (ioctl_grab : nat → bool) (ks ks' : list Z),
     g_suspended st = false → g_ctrl_held st = false →
     Forall (fun k => is_ctrl k = false) ks → ks ≡ₚ ks' →
     let st1 := (read_loop ioctl_grab (press <$> ks) st false).1.1 in
     let st2 := (read_loop ioctl_grab (press <$> ks') st false).1.1 in
     g_dir_held st1 = g_dir_held st2 ∧
     axis_report (g_map st1) (g_dir_held st1)
     = axis_report (g_map st2) (g_dir_held st2)).
Proof.
  intros Hwf Hnd Hlt Hheld. split; [|split; [|split]].
  2: { pose proof (held_set_size S Hnd Hlt) as Hsz.
       unfold NUM_DIRECTIONS in Hsz.
       pose proof (sum_over_bound (fun d => dx (slot (g_map st) d)) S) as Hx.
       pose proof (sum_over_bound (fun d => dy (slot (g_map st) d)) S) as Hy.
       split.
       - destruct Hx; [|lia].
         intros d Hd. by apply direction_vector_wf, Hlt.
       - destruct Hy; [|lia].
         intros d Hd. by apply direction_vector_wf, Hlt. }
  - rewrite recalc_emits. cbn [uinput]. f_equal.
    unfold axis_report, axes_of. rewrite Hheld, axis_sums_held_of by done.
    cbn [fst snd]. by rewrite !axis_value_spec.
  - intros S' Hp. unfold held_of. apply list_fmap_ext. intros _ d _.
    apply bool_decide_ext. by rewrite Hp.
  - intros ioctl_grab ks ks' Hs Hc Hks Hp st1 st2.
    assert (Hlen : length (g_dir_held st) = NUM_DIRECTIONS).
    { rewrite Hheld. unfold held_of. by rewrite length_fmap, length_seq. }
    assert (Hks' : Forall (fun k => is_ctrl k = false) ks') by by rewrite <- Hp.
    destruct (read_loop_presses ioctl_grab ks st false Hlen Hs Hc Hks)
      as (s1 & d1 & Hr1 & Hm1 & Hl1 & Hh1).
    destruct (read_loop_presses ioctl_grab ks' st false Hlen Hs Hc Hks')
      as (s2 & d2 & Hr2 & Hm2 & Hl2 & Hh2).
    subst st1 st2. rewrite Hr1, Hr2. cbn [fst].
    assert (Heq : g_dir_held s1 = g_dir_held s2).
    { apply held_ext; [by rewrite Hl1, Hl2|]. intros d.
      rewrite Hh1, Hh2. do 2 f_equal. apply bool_decide_ext. by rewrite Hp. }
    split; [exact Heq|]. by rewrite Heq, Hm1, Hm2.
Qed.

(** Default table, "up" and "right" held: X = 255 and Y = 0 in one report. *)
Lemma axes_depend_on_held_set_witness :
  uinput (recalc_and_emit_axes
            (set_dir_held (held_of [0%nat; 3%nat]) engine_start))
  = [mkEvent EV_ABS ABS_X 255; mkEvent EV_ABS ABS_Y 0;
     mkEvent EV_SYN SYN_REPORT 0].
Proof.
  assert (Hnd : NoDup [0%nat; 3%nat]).
  { apply NoDup_cons. split; [|apply NoDup_singleton].
    intros Hx. apply elem_of_cons in Hx as [Hx|Hx]; [lia|].
    by apply elem_of_nil in Hx. }
  assert (Hlt : ∀ d, d ∈ [0%nat; 3%nat] → (d < NUM_DIRECTIONS)%nat).
  { intros d Hd. unfold NUM_DIRECTIONS.
    repeat (apply elem_of_cons in Hd as [->|Hd]; [lia|]).
    by apply elem_of_nil in Hd. }
  exact (proj1 (axes_depend_on_held_set
                  (set_dir_held (held_of [0%nat; 3%nat]) engine_start)
                  [0%nat; 3%nat] table_wf_init Hnd Hlt eq_refl)).
Defined.

(** ** Iterations without a chord *)

Lemma quiet_step_refl (st : engine) : engine_wf st → quiet_step st st.
Proof.
  intros Hwf. split; [done|]. split; [done|]. split; [done|]. split; [|done].
  exists []. by rewrite app_nil_r.
Qed.

Lemma quiet_step_trans (st1 st2 st3 : engine) :
  quiet_step st1 st2 → quiet_step st2 st3 → quiet_step st1 st3.
Proof.
  intros (_ & Hm1 & Hs1 & (b1 & Hu1 & Hb1) & Hp1)
         (Hwf & Hm2 & Hs2 & (b2 & Hu2 & Hb2) & Hp2).
  split; [done|]. split; [congruence|]. split; [congruence|]. split.
  - exists (b1 ++ b2). split.
    + by rewrite Hu2, Hu1, app_assoc.
    + by apply Forall_app.
  - intros Hs. destruct (Hp1 Hs) as [Hu Hh].
    destruct Hp2 as [Hu' Hh']; [congruence|]. split; congruence.
Qed.

Lemma button_reports_no_abs (g : list Mapping) (code : Z) (pressed : bool)
    (l : list nat) :
  Forall no_abs (button_reports g code pressed l).
Proof.
  induction l as [|b l IH]; [constructor|].
  unfold button_reports. cbn [flat_map]. apply Forall_app. split; [|exact IH].
  destruct (code =? keycode (slot g b)); [|constructor].
  unfold button_report. repeat constructor; discriminate.
Qed.

Lemma check_directions_indep (g : list Mapping) (code : Z) (pressed : bool)
    (held : list bool) (dirty : bool) :
  length held = NUM_DIRECTIONS →
  (check_directions g code pressed held dirty).1
  = (check_directions g code pressed held false).1.
Proof.
  intros Hlen.
  destruct (check_directions_spec g code pressed held dirty Hlen)
    as (Hl1 & Hh1 & _).
  destruct (check_directions_spec g code pressed held false Hlen)
    as (Hl2 & Hh2 & _).
  apply held_ext; [congruence|]. intros d. by rewrite Hh1, Hh2.
Qed.

Section ChordFree.

Variable ioctl_grab : nat → bool.

Lemma handle_event_paused (ev : input_event) (st : engine) (dirty : bool) :
  is_ctrl (ev_code ev) = false → chord_press (g_ctrl_held st) ev = false →
  g_suspended st = true →
  handle_event ioctl_grab ev st dirty = (st, dirty, Next).
Proof.
  intros Hc Hch Hs. unfold handle_event.
  destruct (negb (ev_type ev =? EV_KEY)); [done|].
  destruct (ev_value ev =? 2); [done|].
  unfold is_ctrl in Hc. rewrite Hc.
  unfold chord_press in Hch.
  destruct (ev_code ev =? KEY_S), (ev_code ev =? KEY_R),
    (ev_value ev =? 1), (g_ctrl_held st);
    cbn in Hch; try discriminate Hch; cbn [andb]; by rewrite Hs.
Qed.

Lemma handle_event_no_chord (ev : input_event) (rest : list input_event)
    (st : engine) :
  engine_wf st → has_chord (g_ctrl_held st) (ev :: rest) = false →
  ∃ st1,
    (∀ d, handle_event ioctl_grab ev st d
          = (st1, d || negb (bool_decide (g_dir_held st1 = g_dir_held st)),
             Next)) ∧
    quiet_step st st1 ∧ has_chord (g_ctrl_held st1) rest = false.
Proof.
  intros Hwf Hch. cbn [has_chord] in Hch.
  assert (Hsame : ∀ d : bool, d || negb (bool_decide (g_dir_held st = g_dir_held st)) = d).
  { intros d. rewrite bool_decide_eq_true_2 by done. by rewrite orb_false_r. }
  destruct (negb (ev_type ev =? EV_KEY) || (ev_value ev =? 2)) eqn:Eskip.
  { exists st. split; [|split; [by apply quiet_step_refl|done]].
    intros d. rewrite Hsame. unfold handle_event.
    destruct (negb (ev_type ev =? EV_KEY)); [done|].
    cbn in Eskip. by rewrite Eskip. }
  apply orb_false_elim in Eskip as [Et Ev2].
  apply negb_false_iff, Z.eqb_eq in Et. apply Z.eqb_neq in Ev2.
  destruct (is_ctrl (ev_code ev)) eqn:Ec.
  { exists (set_ctrl_held (ev_value ev =? 1) st).
    split; [|split; [|done]].
    - intros d. rewrite control_key_flag by done.
      cbn [set_ctrl_held g_dir_held]. by rewrite Hsame.
    - destruct Hwf as [Hwf Hlen].
      split; [by split|]. split; [done|]. split; [done|]. split; [|done].
      exists []. by rewrite app_nil_r. }
  apply orb_false_elim in Hch as [Hcp Hrest].
  destruct (g_suspended st) eqn:Es.
  { exists st. split; [|split; [by apply quiet_step_refl|done]].
    intros d. rewrite Hsame. by apply handle_event_paused. }
  destruct Hwf as [Hwf Hlen].
  set (hd := check_directions (g_map st) (ev_code ev) (ev_value ev =? 1)
                              (g_dir_held st) false).
  exists (mkEngine (g_map st) hd.1 (g_ctrl_held st) false (g_kbd_grabbed st)
            (uinput st ++ button_reports (g_map st) (ev_code ev)
                            (ev_value ev =? 1)
                            (seq NUM_DIRECTIONS NUM_BUTTONS))).
  destruct (check_directions_spec (g_map st) (ev_code ev) (ev_value ev =? 1)
              (g_dir_held st) false Hlen) as (Hl & _ & _).
  fold hd in Hl.
  split; [|split; [|done]].
  - intros d. rewrite handle_event_translate by done.
    destruct (check_directions_spec (g_map st) (ev_code ev) (ev_value ev =? 1)
                (g_dir_held st) d Hlen) as (_ & _ & Hd).
    rewrite Hd. rewrite (check_directions_indep _ _ _ _ d Hlen). done.
  - split; [by split|]. split; [done|]. split; [by rewrite Es|].
    split; [|by rewrite Es].
    eexists. split; [done|]. apply button_reports_no_abs.
Qed.

Lemma read_loop_no_chord (q : list input_event) :
  ∀ (rest : list input_event) (st : engine) (d : bool),
    engine_wf st → has_chord (g_ctrl_held st) (q ++ rest) = false →
    ∃ st',
      read_loop ioctl_grab q st d
      = (st', d || flag_changed ioctl_grab q st, Next) ∧
      quiet_step st st' ∧ has_chord (g_ctrl_held st') rest = false ∧
      (∀ r, flag_changed ioctl_grab (q ++ r) st
            = flag_changed ioctl_grab q st || flag_changed ioctl_grab r st') ∧
      (g_suspended st = true → flag_changed ioctl_grab q st = false).
Proof.
  induction q as [|ev q IH]; intros rest st d Hwf Hch.
  - exists st. cbn. rewrite orb_false_r.
    split; [done|]. split; [by apply quiet_step_refl|]. by repeat split.
  - cbn [app] in Hch.
    destruct (handle_event_no_chord ev (q ++ rest) st Hwf Hch)
      as (st1 & Hstep & Hq1 & Hch1).
    destruct (IH rest st1 (d || negb (bool_decide (g_dir_held st1 = g_dir_held st)))
                (proj1 Hq1) Hch1)
      as (st' & Hrun & Hq2 & Hch2 & Happ & Hpaused).
    exists st'.
    assert (Hst1 : (handle_event ioctl_grab ev st false).1.1 = st1)
      by by rewrite Hstep.
    split; [|split; [by eapply quiet_step_trans|split; [done|split]]].
    + cbn [read_loop flag_changed]. rewrite Hstep, Hrun, Hst1.
      by rewrite orb_assoc.
    + intros r. cbn [app flag_changed]. rewrite Hst1, Happ.
      by rewrite orb_assoc.
    + intros Hs. cbn [flag_changed]. rewrite Hst1.
      destruct Hq1 as (_ & _ & Hs1 & _ & Hp1).
      destruct (Hp1 Hs) as [_ Hh]. rewrite Hh.
      rewrite bool_decide_eq_true_2 by done. cbn.
      apply Hpaused. congruence.
Qed.

Lemma kbd_loop_no_chord (qs : list (list input_event)) :
  ∀ (rest : list input_event) (st : engine) (d : bool),
    engine_wf st → has_chord (g_ctrl_held st) (concat qs ++ rest) = false →
    ∃ st',
      kbd_loop ioctl_grab qs st d
      = (st', d || flag_changed ioctl_grab (concat qs) st, Next) ∧
      quiet_step st st' ∧ has_chord (g_ctrl_held st') rest = false ∧
      (g_suspended st = true →
       flag_changed ioctl_grab (concat qs) st = false).
Proof.
  induction qs as [|q qs IH]; intros rest st d Hwf Hch.
  - exists st. cbn. rewrite orb_false_r.
    split; [done|]. split; [by apply quiet_step_refl|]. by split.
  - cbn [concat] in Hch. rewrite <- app_assoc in Hch.
    destruct (read_loop_no_chord q (concat qs ++ rest) st d Hwf Hch)
      as (st1 & Hrun1 & Hq1 & Hch1 & Happ & Hp1).
    destruct (IH rest st1 (d || flag_changed ioctl_grab q st) (proj1 Hq1) Hch1)
      as (st' & Hrun2 & Hq2 & Hch2 & Hp2).
    exists st'.
    split; [|split; [by eapply quiet_step_trans|split; [done|]]].
    + cbn [kbd_loop concat]. rewrite Hrun1, Hrun2, Happ.
      by rewrite orb_assoc.
    + intros Hs. cbn [concat]. rewrite Happ, (Hp1 Hs). cbn.
      apply Hp2. destruct Hq1 as (_ & _ & Hs1 & _). congruence.
Qed.

Lemma inner_loop_paused (qss : list (list (list input_event))) :
  ∀ st : engine,
    engine_wf st → g_suspended st = true →
    has_chord (g_ctrl_held st) (concat (concat qss)) = false →
    ∃ st',
      inner_loop ioctl_grab qss st = (st', false) ∧
      uinput st' = uinput st ∧ g_suspended st' = true ∧
      g_dir_held st' = g_dir_held st ∧ g_map st' = g_map st.
Proof.
  induction qss as [|qs qss IH]; intros st Hwf Hs Hch.
  - by exists st.
  - cbn [concat] in Hch. rewrite concat_app in Hch.
    destruct (kbd_loop_no_chord qs (concat (concat qss)) st false
                Hwf Hch)
      as (st1 & Hrun & (Hwf1 & Hm1 & Hs1 & _ & Hp1) & Hch1 & Hfc).
    destruct (Hp1 Hs) as [Hu1 Hh1].
    destruct (IH st1 Hwf1) as (st' & Hloop & Hu & Hs' & Hh & Hm);
      [congruence|done|].
    exists st'. cbn [inner_loop]. unfold tick.
    rewrite Hrun, (Hfc Hs). cbn [orb]. rewrite Hloop.
    repeat split; congruence.
Qed.

End ChordFree.

(** C3 (amended): in a poll iteration of the active engine in which no
    pause or remap chord is processed, the engine writes button reports
    and then, when one or more transitions gave a held-direction flag a new
    value, exactly one axis report (X, Y and one flush, computed from the
    flags at the end of the iteration), however many flags changed; when
    no flag changed it writes no axis event at all. *)
Theorem tick_axis_report (ioctl_grab : nat → bool)
    (qs : list (list input_event)) (st : engine) :
  engine_wf st → g_suspended st = false →
  has_chord (g_ctrl_held st) (concat qs) = false →
  let r := tick ioctl_grab qs st in
  r.2 = false ∧
  ∃ btns,
    Forall no_abs btns ∧
    uinput r.1
    = uinput st ++ btns
      ++ (if flag_changed ioctl_grab (concat qs) st
          then [mkEvent EV_ABS ABS_X (axes_of (g_map st) (g_dir_held r.1)).1;
                mkEvent EV_ABS ABS_Y (axes_of (g_map st) (g_dir_held r.1)).2;
                mkEvent EV_SYN SYN_REPORT 0]
          else []).
Proof.
  intros Hwf Hs Hch r.
  rewrite <- (app_nil_r (concat qs)) in Hch.
  destruct (kbd_loop_no_chord ioctl_grab qs [] st false Hwf Hch)
    as (st' & Hrun & (Hwf' & Hm & Hs' & (btns & Hu & Hb) & _) & _ & _).
  subst r. unfold tick. rewrite Hrun. cbn [orb].
  destruct (flag_changed ioctl_grab (concat qs) st); cbn [fst snd].
  - split; [done|]. exists btns. split; [done|].
    rewrite recalc_emits. cbn [uinput g_dir_held].
    by rewrite Hu, Hm, <- app_assoc.
  - split; [done|]. exists btns. split; [done|].
    by rewrite Hu, app_nil_r.
Qed.

(** "Up" and "right" pressed in the same iteration: two flags change, one
    report with X = 255 and Y = 0 is written. *)
Lemma tick_axis_report_witness :
  let r := tick (fun _ => true) [[press KEY_W; press KEY_D]] engine_start in
  r.2 = false ∧
  ∃ btns,
    Forall no_abs btns ∧
    uinput r.1
    = [] ++ btns ++ [mkEvent EV_ABS ABS_X 255; mkEvent EV_ABS ABS_Y 0;
                     mkEvent EV_SYN SYN_REPORT 0].
Proof.
  exact (tick_axis_report (fun _ => true) [[press KEY_W; press KEY_D]]
           engine_start engine_wf_start eq_refl eq_refl).
Defined.

(** C3 fails as stated in iterations that process a chord.  Default table,
    one iteration each: "up" pressed and then the remap chord changes a
    flag but the iteration leaves through [break_inner] and writes no axis
    report; "up" pressed and then the pause chord writes two centred axis
    reports, the one of the pause branch and the one of the recomputation;
    the pause chord alone changes no flag and still writes an axis
    report. *)
Lemma chord_iterations_break_batching :
  let grab := fun _ : nat => true in
  let centred := [mkEvent EV_ABS ABS_X 127; mkEvent EV_ABS ABS_Y 127;
                  mkEvent EV_SYN SYN_REPORT 0] in
  let remap := [press KEY_W; press KEY_LEFTCTRL; press KEY_R] in
  let pause := [press KEY_W; press KEY_LEFTCTRL; press KEY_S] in
  let pause_only := [press KEY_LEFTCTRL; press KEY_S] in
  (flag_changed grab remap engine_start = true ∧
   tick grab [remap] engine_start
   = (mkEngine init_mappings (<[0%nat := true]> (replicate 8 false))
               true false [true] [], true)) ∧
  (flag_changed grab pause engine_start = true ∧
   uinput (tick grab [pause] engine_start).1
   = release_report init_mappings ++ centred) ∧
  (flag_changed grab pause_only engine_start = false ∧
   uinput (tick grab [pause_only] engine_start).1
   = release_report init_mappings).
Proof. vm_compute. repeat split. Qed.

(** ** Pause *)

(** C4 (amended): when the active engine processes a press of the pause
    key with control held, it writes a release of each of the 8 buttons,
    both axes centred and one flush, clears the 8 held-direction flags and
    is paused.  While paused, key transitions write no joystick event and
    change no direction flag through any number of iterations, up to a
    press of the pause chord, which resumes, or of the remap chord, which
    also ends the pause. *)
Theorem pause_chord_effect (ioctl_grab : nat → bool) (st : engine)
    (dirty : bool) :
  engine_wf st → g_suspended st = false → g_ctrl_held st = true →
  let r := handle_event ioctl_grab (press KEY_S) st dirty in
  let st1 := r.1.1 in
  r.2 = Next ∧
  uinput st1
  = uinput st
    ++ [mkEvent EV_KEY BTN_TRIGGER 0; mkEvent EV_KEY BTN_THUMB 0;
        mkEvent EV_KEY BTN_THUMB2 0; mkEvent EV_KEY BTN_TOP 0;
        mkEvent EV_KEY BTN_TOP2 0; mkEvent EV_KEY BTN_PINKIE 0;
        mkEvent EV_KEY BTN_BASE 0; mkEvent EV_KEY BTN_BASE2 0;
        mkEvent EV_ABS ABS_X AXIS_CENTER; mkEvent EV_ABS ABS_Y AXIS_CENTER;
        mkEvent EV_SYN SYN_REPORT 0] ∧
  g_dir_held st1 = replicate NUM_DIRECTIONS false ∧
  g_suspended st1 = true ∧
  (∀ (qs : list (list input_event)) (d : bool),
     has_chord (g_ctrl_held st1) (concat qs) = false →
     ∃ st2, kbd_loop ioctl_grab qs st1 d = (st2, d, Next) ∧
            uinput st2 = uinput st1 ∧ g_suspended st2 = true ∧
            g_dir_held st2 = replicate NUM_DIRECTIONS false) ∧
  (∀ qss : list (list (list input_event)),
     has_chord (g_ctrl_held st1) (concat (concat qss)) = false →
     ∃ st2, inner_loop ioctl_grab qss st1 = (st2, false) ∧
            uinput st2 = uinput st1 ∧ g_suspended st2 = true ∧
            g_dir_held st2 = replicate NUM_DIRECTIONS false) ∧
  (∀ (st2 : engine) (d : bool),
     g_suspended st2 = true → g_ctrl_held st2 = true →
     let r2 := handle_event ioctl_grab (press KEY_S) st2 d in
     r2.2 = Drained ∧ g_suspended r2.1.1 = false ∧
     uinput r2.1.1 = uinput st2) ∧
  (∀ (st2 : engine) (d : bool),
     g_suspended st2 = true → g_ctrl_held st2 = true →
     let r3 := handle_event ioctl_grab (press KEY_R) st2 d in
     r3.2 = BreakInner ∧ g_suspended r3.1.1 = false ∧
     uinput r3.1.1 = uinput st2).
Proof.
  intros [Hwf Hlen] Hs Hc r st1.
  assert (Hr : r = (mkEngine (g_map st) (replicate NUM_DIRECTIONS false) true
                      true ((fun _ => false) <$> g_kbd_grabbed st)
                      (uinput st ++ release_report (g_map st)),
                    dirty, Next)).
  { subst r. unfold handle_event. cbn [press ev_type ev_value ev_code].
    change (negb (EV_KEY =? EV_KEY)) with false.
    change (1 =? 2) with false. change (1 =? 1) with true.
    change ((KEY_S =? KEY_LEFTCTRL) || (KEY_S =? KEY_RIGHTCTRL)) with false.
    change (KEY_S =? KEY_S) with true.
    rewrite Hc, Hs. cbn [andb negb]. rewrite release_center.
    unfold set_suspended, ungrab_keyboards, set_kbd_grabbed, clear_dir_held,
      set_dir_held. cbn. by rewrite Hc. }
  assert (Hwf1 : engine_wf st1).
  { subst st1. rewrite Hr. split; [done|reflexivity]. }
  assert (Hs1 : g_suspended st1 = true) by (subst st1; by rewrite Hr).
  assert (Hh1 : g_dir_held st1 = replicate NUM_DIRECTIONS false)
    by (subst st1; by rewrite Hr).
  split; [by rewrite Hr|]. split.
  { subst st1. rewrite Hr. cbn [fst uinput]. f_equal.
    unfold release_report, NUM_DIRECTIONS, NUM_BUTTONS.
    cbn [fmap list_fmap seq].
    assert (Hb : ∀ b, (NUM_DIRECTIONS ≤ b < NUM_MAPPINGS)%nat →
              btn_code (slot (g_map st) b) = BTN_TRIGGER + (Z.of_nat b - 8))
      by (intros b Hb; by apply btn_code_wf).
    unfold NUM_DIRECTIONS, NUM_MAPPINGS in Hb.
    rewrite !Hb by lia. reflexivity. }
  split; [done|]. split; [done|]. split; [|split; [|split]].
  - intros qs d Hch. rewrite <- (app_nil_r (concat qs)) in Hch.
    destruct (kbd_loop_no_chord ioctl_grab qs [] st1 d Hwf1 Hch)
      as (st2 & Hrun & (_ & _ & Hs2 & _ & Hp) & _ & Hfc).
    destruct (Hp Hs1) as [Hu Hh].
    exists st2. rewrite Hrun, (Hfc Hs1), orb_false_r.
    repeat split; congruence.
  - intros qss Hch.
    destruct (inner_loop_paused ioctl_grab qss st1 Hwf1 Hs1 Hch)
      as (st2 & Hloop & Hu & Hs2 & Hh & _).
    exists st2. repeat split; congruence.
  - intros st2 d Hs2 Hc2 r2. subst r2. unfold handle_event.
    cbn [press ev_type ev_value ev_code].
    change (negb (EV_KEY =? EV_KEY)) with false.
    change (1 =? 2) with false. change (1 =? 1) with true.
    change ((KEY_S =? KEY_LEFTCTRL) || (KEY_S =? KEY_RIGHTCTRL)) with false.
    change (KEY_S =? KEY_S) with true.
    rewrite Hc2, Hs2. cbn. done.
  - intros st2 d Hs2 Hc2 r3. subst r3. unfold handle_event.
    cbn [press ev_type ev_value ev_code].
    change (negb (EV_KEY =? EV_KEY)) with false.
    change (1 =? 2) with false. change (1 =? 1) with true.
    change ((KEY_R =? KEY_LEFTCTRL) || (KEY_R =? KEY_RIGHTCTRL)) with false.
    change (KEY_R =? KEY_S) with false.
    change (KEY_R =? KEY_R) with true.
    rewrite Hc2. cbn. done.
Qed.

(** Default table, "up" held: control down, then the pause key. *)
Lemma pause_chord_effect_witness :
  let st := (tick (fun _ => true) [[press KEY_W; press KEY_LEFTCTRL]]
                  engine_start).1 in
  let st1 := (handle_event (fun _ => true) (press KEY_S) st false).1.1 in
  g_dir_held st = <[0%nat := true]> (replicate NUM_DIRECTIONS false) ∧
  g_dir_held st1 = replicate NUM_DIRECTIONS false ∧
  g_suspended st1 = true.
Proof.
  intros st st1.
  assert (Hwf : engine_wf st) by (split; reflexivity).
  destruct (pause_chord_effect (fun _ => true) st false Hwf eq_refl eq_refl)
    as (_ & _ & Hh & Hs & _).
  split; [reflexivity|]. split; [exact Hh|exact Hs].
Defined.

(** C4 fails as stated: the pause does not last until the pause chord is
    pressed again.  Default table: the pause chord, then, control still
    held, the remap key; the wizard is left with Quit; after the session
    the engine is active and a press of Space is reported as button 288,
    the pause key having been pressed once only. *)
Lemma remap_chord_ends_pause :
  let grab := fun _ : nat => true in
  let env := mkEnv true 1 false (fun _ => None) (fun _ => true) in
  let frames := ((fun k => mkFrame k []) <$> replicate 16 KEY_K)
                ++ [mkFrame KEY_Q []] in
  let st1 := (tick grab [[press KEY_LEFTCTRL; press KEY_S]] engine_start).1 in
  let t2 := tick grab [[press KEY_R]] st1 in
  let st3 := (remap_session grab env frames 1 t2.1 []).1 in
  let st4 := (tick grab [[press KEY_SPACE]] st3).1 in
  g_suspended st1 = true ∧ t2.2 = true ∧ g_suspended st3 = false ∧
  g_map st3 = init_mappings ∧
  drop (length (uinput st3)) (uinput st4)
  = [mkEvent EV_MSC MSC_SCAN 0x90001; mkEvent EV_KEY BTN_TRIGGER 1;
     mkEvent EV_SYN SYN_REPORT 0].
Proof. vm_compute. repeat split. Qed.

(** ** Remap session *)

Lemma suspend_translation_map (st : engine) :
  g_map (suspend_translation st) = g_map st.
Proof. unfold suspend_translation. by rewrite release_center. Qed.

Lemma g_map_grab (f : nat → bool) (st : engine) :
  g_map (grab_keyboards f st) = g_map st.
Proof. reflexivity. Qed.

Lemma g_map_set_grabbed (k : list bool) (st : engine) :
  g_map (set_kbd_grabbed k st) = g_map st.
Proof. reflexivity. Qed.

Lemma g_map_set_map (g : list Mapping) (st : engine) :
  g_map (set_map g st) = g.
Proof. reflexivity. Qed.

(** The table a remap session leaves: the wizard's on success, the
    snapshot otherwise. *)
Lemma remap_session_map (ioctl_grab : nat → bool) (env : wizard_env)
    (frames : list frame) (rescan : nat) (st : engine) (fs : list file) :
  g_map (remap_session ioctl_grab env frames rescan st fs).1
  = if (guimap_run env frames (g_map (suspend_translation st)) fs).2 =? 0
    then (guimap_run env frames (g_map (suspend_translation st)) fs).1.1
    else g_map st.
Proof.
  unfold remap_session.
  generalize (guimap_run env frames (g_map (suspend_translation st)) fs).
  intros [[g' fs'] res]. cbn [fst snd].
  rewrite g_map_grab, g_map_set_grabbed.
  destruct (res =? 0); cbn [negb]; rewrite !g_map_set_map.
  - reflexivity.
  - apply suspend_translation_map.
Qed.

(** C5: when the wizard of a remap session returns failure, the table
    after the session is the table before it, whatever the wizard wrote
    into the shared table in between; so every slot has its former key
    code. *)
Theorem remap_failure_restores (ioctl_grab : nat → bool) (env : wizard_env)
    (frames : list frame) (rescan : nat) (st : engine) (fs : list file) :
  (guimap_run env frames (g_map (suspend_translation st)) fs).2 ≠ 0 →
  let after := (remap_session ioctl_grab env frames rescan st fs).1 in
  g_map after = g_map st ∧
  ∀ i, keycode (slot (g_map after) i) = keycode (slot (g_map st) i).
Proof.
  intros Hfail. cbv zeta.
  rewrite (remap_session_map ioctl_grab env frames rescan st fs).
  destruct (guimap_run env frames (g_map (suspend_translation st)) fs)
    as [[g' fs'] res].
  cbn [snd] in Hfail. cbn [fst snd].
  destruct (Z.eqb_spec res 0) as [|_]; [done|]. by split.
Qed.

(** Sixteen captures of the key K, then Quit: the wizard has written K
    into every slot of the shared table, and the session ends with the
    default table. *)
Lemma remap_failure_restores_witness :
  let env := mkEnv true 1 false (fun _ => None) (fun _ => true) in
  let frames := ((fun k => mkFrame k []) <$> replicate 16 KEY_K)
                ++ [mkFrame KEY_Q []] in
  keycode <$> (guimap_run env frames init_mappings []).1.1
  = replicate 16 KEY_K ∧
  g_map (remap_session (fun _ => true) env frames 1 engine_start []).1
  = g_map engine_start.
Proof.
  intros env frames. split; [vm_compute; reflexivity|].
  assert (Hfail : (guimap_run env frames
                     (g_map (suspend_translation engine_start)) []).2 ≠ 0)
    by (vm_compute; discriminate).
  exact (proj1 (remap_failure_restores (fun _ => true) env frames 1
                  engine_start [] Hfail)).
Defined.

(** ** Drawing stays inside the back buffer *)

Lemma same_shape_refl (fb : Framebuffer) : same_shape fb fb.
Proof. by repeat split. Qed.

Lemma same_shape_trans (fb1 fb2 fb3 : Framebuffer) :
  same_shape fb1 fb2 → same_shape fb2 fb3 → same_shape fb1 fb3.
Proof.
  intros (? & ? & ? & ?) (? & ? & ? & ?). repeat split; congruence.
Qed.


Lemma same_shape_fits (fb fb' : Framebuffer) :
  fb_fits fb → same_shape fb fb' → fb_fits fb'.
Proof.
  intros (Hw & Hh & Hl) (Ew & Eh & Es & El). unfold fb_fits.
  rewrite Ew, Eh, Es, El. done.
Qed.


(** A value inside the range of [int] is taken into itself. *)
Lemma int32_small (z : Z) : INT_MIN ≤ z ≤ INT_MAX → int32 z = z.
Proof.
  unfold INT_MIN, INT_MAX, int32. intros Hz.
  rewrite Z.mod_small by lia. lia.
Qed.

(** On a display of 32 bits per pixel [fb_init] divides by 4, and the
    surface it sets up fits the buffer it allocates. *)
Lemma fb_init_fits (size_bits : Z) (d : fb_sys) (fb : Framebuffer) :
  32 ≤ size_bits → display_32bpp d → fb_init size_bits d = FbReady fb →
  fb_fits fb ∧ width fb = xres d ∧ height fb = yres d ∧
  stride_px fb = line_length d / 4.
Proof.
  intros Hbits (Hbpp & Hx & Hy & Hll & Hsz) Hinit.
  unfold fb_init in Hinit. rewrite Hbpp in Hinit.
  change (32 / 8) with 4 in Hinit. change (4 =? 0) with false in Hinit.
  unfold INT_MAX in Hy.
  assert (Hst : 0 ≤ line_length d / 4 < 2 ^ 30).
  { split; [apply Z.div_pos; lia|apply Z.div_lt_upper_bound; lia]. }
  assert (Hxs : xres d ≤ line_length d / 4).
  { apply Z.div_le_lower_bound; lia. }
  assert (Hpow : 2 ^ 32 ≤ 2 ^ size_bits).
  { apply Z.pow_le_mono_r; lia. }
  assert (Hmod : (line_length d * yres d) mod 2 ^ size_bits
                 = line_length d * yres d).
  { apply Z.mod_small. split; [apply Z.mul_nonneg_nonneg; lia|lia]. }
  rewrite Hmod in Hinit.
  rewrite !int32_small in Hinit by (unfold INT_MIN, INT_MAX; lia).
  destruct (fb_open_ok d), (vinfo_ok d), (finfo_ok d), (mmap_ok d),
    (malloc_ok d); cbn in Hinit; try discriminate.
  injection Hinit as <-. cbn [width height stride_px backbuf].
  split; [|done]. unfold fb_fits. cbn [width height stride_px backbuf].
  rewrite length_replicate.
  assert (Hnn : 0 ≤ line_length d * yres d) by (apply Z.mul_nonneg_nonneg; lia).
  rewrite Z2Nat.id by (apply Z.div_pos; lia).
  split; [lia|]. split; [lia|].
  apply Z.div_le_lower_bound; [lia|].
  assert (H4 : 0 < 4) by lia.
  pose proof (Z.mul_div_le (line_length d) 4 H4) as Hle.
  nia.
Qed.

Lemma fb_init_wf (size_bits : Z) (d : fb_sys) (fb : Framebuffer) :
  32 ≤ size_bits → display_32bpp d → line_length d mod 4 = 0 →
  fb_init size_bits d = FbReady fb → fb_wf fb.
Proof.
  intros Hbits Hd Hmod Hinit.
  destruct (fb_init_fits size_bits d fb Hbits Hd Hinit)
    as ((Hw & Hh & _) & _ & Eh & Es).
  split; [done|]. split; [done|].
  destruct Hd as (Hbpp & Hx & Hy & Hll & Hsz).
  unfold fb_init in Hinit. rewrite Hbpp in Hinit.
  change (32 / 8) with 4 in Hinit. change (4 =? 0) with false in Hinit.
  destruct (fb_open_ok d), (vinfo_ok d), (finfo_ok d), (mmap_ok d),
    (malloc_ok d); cbn in Hinit; try discriminate.
  rewrite Es, Eh. injection Hinit as <-. cbn [backbuf].
  rewrite length_replicate.
  assert (Hpow : 2 ^ 32 ≤ 2 ^ size_bits) by (apply Z.pow_le_mono_r; lia).
  assert (Hnn : 0 ≤ line_length d * yres d)
    by (apply Z.mul_nonneg_nonneg; lia).
  rewrite Z.mod_small by lia.
  rewrite Z2Nat.id by (apply Z.div_pos; lia).
  assert (Hl : line_length d = 4 * (line_length d / 4)).
  { rewrite (Z.div_mod (line_length d) 4) at 1 by lia. lia. }
  rewrite Hl at 1.
  replace (4 * (line_length d / 4) * yres d)
    with (line_length d / 4 * yres d * 4) by lia.
  by rewrite Z.div_mul.
Qed.

Lemma preserving_skip : preserving Some.
Proof. intros fb _. exists fb. split; [done|apply same_shape_refl]. Qed.

Lemma preserving_bind (f h : Framebuffer → option Framebuffer) :
  preserving f → preserving h → preserving (fun fb => fb' ← f fb; h fb').
Proof.
  intros Hf Hh fb Hwf.
  destruct (Hf fb Hwf) as (fb1 & E1 & S1).
  destruct (Hh fb1 (same_shape_fits _ _ Hwf S1)) as (fb2 & E2 & S2).
  exists fb2. rewrite E1. cbn. split; [done|by eapply same_shape_trans].
Qed.

(** A store succeeds exactly when its index is inside the buffer. *)
Lemma store_Some (i c : Z) (fb fb' : Framebuffer) :
  store i c fb = Some fb' ↔
  0 ≤ i < Z.of_nat (length (backbuf fb)) ∧
  fb' = mkFb (width fb) (height fb) (stride_px fb)
             (<[Z.to_nat i := c]> (backbuf fb)).
Proof.
  unfold store.
  destruct (Z.leb_spec 0 i), (Z.ltb_spec i (Z.of_nat (length (backbuf fb))));
    cbn; split; try (intros [= <-]; split; [lia|done]);
    try (intros [? ->]; done || lia); try done.
Qed.

(** The index of a pixel inside the surface lies inside the buffer. *)
Lemma pixel_index_in_bounds (fb : Framebuffer) (x y : Z) :
  fb_fits fb → 0 ≤ x < width fb → 0 ≤ y < height fb →
  0 ≤ y * stride_px fb + x < Z.of_nat (length (backbuf fb)).
Proof.
  intros (Hw & Hh & Hl) Hx Hy. nia.
Qed.

Lemma draw_pixel_spec (x y c : Z) (fb : Framebuffer) :
  fb_fits fb →
  ∃ fb', draw_pixel x y c fb = Some fb' ∧ same_shape fb fb' ∧
    ((0 ≤ x < width fb ∧ 0 ≤ y < height fb) →
     0 ≤ y * stride_px fb + x < Z.of_nat (length (backbuf fb)) ∧
     backbuf fb' = <[Z.to_nat (y * stride_px fb + x) := c]> (backbuf fb)) ∧
    (¬ (0 ≤ x < width fb ∧ 0 ≤ y < height fb) → fb' = fb).
Proof.
  intros Hwf. unfold draw_pixel.
  destruct (Z.geb_spec x 0), (Z.ltb_spec x (width fb)),
    (Z.geb_spec y 0), (Z.ltb_spec y (height fb)); cbn [andb];
    try (exists fb; split; [done|]; split; [apply same_shape_refl|];
         split; [intros; lia|done]).
  pose proof (pixel_index_in_bounds fb x y Hwf) as Hin.
  eexists. split; [apply store_Some; split; [lia|reflexivity]|].
  split; [|split].
  - repeat split; cbn; try done. by rewrite length_insert.
  - intros _. split; [lia|done].
  - intros Hout. lia.
Qed.

Lemma draw_pixel_preserving (x y c : Z) : preserving (draw_pixel x y c).
Proof.
  intros fb Hwf. destruct (draw_pixel_spec x y c fb Hwf) as (fb' & ? & ? & _).
  by exists fb'.
Qed.

Lemma for_loop_preserving (body : Z → Framebuffer → option Framebuffer)
    (n : nat) :
  (∀ i, preserving (body i)) → ∀ i, preserving (for_loop n i body).
Proof.
  intros Hbody. induction n as [|n IH]; intros i; cbn [for_loop].
  - apply preserving_skip.
  - apply (preserving_bind (body i) (for_loop n (i + 1) body)); [done|apply IH].
Qed.

Lemma for_lt_preserving (lo hi : Z)
    (body : Z → Framebuffer → option Framebuffer) :
  (∀ i, preserving (body i)) → preserving (for_lt lo hi body).
Proof. intros Hbody. by apply for_loop_preserving. Qed.

Lemma draw_rect_preserving (x y w h c : Z) : preserving (draw_rect x y w h c).
Proof.
  apply for_lt_preserving. intros row.
  apply for_lt_preserving. intros col. apply draw_pixel_preserving.
Qed.

(** The search for the half width of a scan line ends within the bound. *)
Lemma circle_dx_loop_total (r dy : Z) (fuel : nat) :
  ∀ dx, 0 ≤ dx → Z.max 0 (r * r - dy * dy - dx * dx + 1) < Z.of_nat fuel →
        ∃ v, circle_dx_loop fuel r dy dx = Some v ∧ dx ≤ v.
Proof.
  induction fuel as [|fuel IH]; intros dx Hdx Hfuel; [lia|].
  cbn [circle_dx_loop].
  destruct (Z.leb_spec (dx * dx + dy * dy) (r * r)) as [Hle|Hgt].
  - destruct (IH (dx + 1)) as (v & Hv & Hge); [lia|nia|].
    exists v. split; [done|lia].
  - exists dx. split; [done|lia].
Qed.

Lemma circle_dx_total (r dy : Z) : ∃ dx, circle_dx r dy = Some dx ∧ 0 ≤ dx.
Proof.
  unfold circle_dx. apply circle_dx_loop_total; [lia|nia].
Qed.

Lemma draw_circle_preserving (cx cy r c : Z) :
  preserving (draw_circle cx cy r c).
Proof.
  apply for_lt_preserving. intros dy fb Hwf.
  destruct (circle_dx_total r dy) as (dx & -> & _). cbn.
  by apply draw_rect_preserving.
Qed.

Lemma draw_rounded_rect_preserving (x y w h r c : Z) :
  preserving (draw_rounded_rect x y w h r c).
Proof.
  unfold draw_rounded_rect. destruct (r <? 1).
  { apply draw_rect_preserving. }
  repeat (apply preserving_bind; [apply draw_rect_preserving|]).
  apply for_lt_preserving. intros dy fb Hwf.
  destruct (circle_dx_total r dy) as (dx & -> & _). cbn.
  revert fb Hwf.
  repeat (apply preserving_bind; [apply draw_rect_preserving|]).
  apply draw_rect_preserving.
Qed.

Lemma draw_triangle_filled_preserving (x0 y0 x1 y1 x2 y2 c : Z) :
  preserving (draw_triangle_filled x0 y0 x1 y1 x2 y2 c).
Proof.
  unfold draw_triangle_filled.
  destruct (sort_vertices (x0, y0) (x1, y1) (x2, y2))
    as [[[a0 b0] [a1 b1]] [a2 b2]].
  apply for_lt_preserving. intros y. apply draw_rect_preserving.
Qed.

Lemma draw_char_preserving (x y : Z) (ch : ascii) (c scale : Z) :
  preserving (draw_char x y ch c scale).
Proof.
  unfold draw_char.
  destruct ((char_code ch - 32 <? 0) || (char_code ch - 32 >=? 95));
    [apply preserving_skip|].
  apply for_lt_preserving. intros row.
  apply for_lt_preserving. intros col.
  destruct (negb _); [|apply preserving_skip].
  destruct (scale =? 1);
    [apply draw_pixel_preserving|apply draw_rect_preserving].
Qed.

Lemma draw_text_preserving (text : string) :
  ∀ x y c scale, preserving (draw_text x y text c scale).
Proof.
  induction text as [|ch rest IH]; intros x y c scale; cbn [draw_text].
  - apply preserving_skip.
  - apply (preserving_bind (draw_char x y ch c scale)
             (draw_text (x + FONT_W * scale) y rest c scale)).
    + apply draw_char_preserving.
    + apply IH.
Qed.

(** C9: on the framebuffer that [fb_init] sets up for a display of 32 bits
    per pixel, and on every framebuffer of the same shape (drawing keeps
    the shape), every drawing primitive, for all integer arguments, runs
    to its end with every store inside the back buffer (a store outside
    would make the result [None]) and leaves the geometry and the buffer
    size as they were.  A pixel inside the surface is written at its
    index, which lies inside the buffer; a pixel outside the surface
    leaves the framebuffer unchanged.  No primitive has a failure
    result. *)
Theorem primitives_clip_in_bounds (size_bits : Z) (d : fb_sys)
    (fb0 fb : Framebuffer) :
  32 ≤ size_bits → display_32bpp d →
  fb_init size_bits d = FbReady fb0 → same_shape fb0 fb →
  (∀ x y c, ∃ fb',
     draw_pixel x y c fb = Some fb' ∧ same_shape fb fb' ∧
     ((0 ≤ x < width fb ∧ 0 ≤ y < height fb) →
      0 ≤ y * stride_px fb + x < Z.of_nat (length (backbuf fb)) ∧
      backbuf fb' = <[Z.to_nat (y * stride_px fb + x) := c]> (backbuf fb)) ∧
     (¬ (0 ≤ x < width fb ∧ 0 ≤ y < height fb) → fb' = fb)) ∧
  (∀ x y w h c, ∃ fb', draw_rect x y w h c fb = Some fb' ∧ same_shape fb fb') ∧
  (∀ cx cy r c, ∃ fb', draw_circle cx cy r c fb = Some fb' ∧ same_shape fb fb') ∧
  (∀ x y w h r c, ∃ fb',
     draw_rounded_rect x y w h r c fb = Some fb' ∧ same_shape fb fb') ∧
  (∀ x0 y0 x1 y1 x2 y2 c, ∃ fb',
     draw_triangle_filled x0 y0 x1 y1 x2 y2 c fb = Some fb' ∧
     same_shape fb fb') ∧
  (∀ x y ch c scale, ∃ fb',
     draw_char x y ch c scale fb = Some fb' ∧ same_shape fb fb') ∧
  (∀ x y text c scale, ∃ fb',
     draw_text x y text c scale fb = Some fb' ∧ same_shape fb fb') ∧
  (∀ i c fb', store i c fb = Some fb' →
     0 ≤ i < Z.of_nat (length (backbuf fb))).
Proof.
  intros Hbits Hd Hinit Hshape.
  assert (Hwf : fb_fits fb).
  { apply (same_shape_fits fb0); [|done].
    by destruct (fb_init_fits size_bits d fb0 Hbits Hd Hinit). }
  split; [intros x y c; by apply draw_pixel_spec|].
  split; [intros x y w h c; by apply draw_rect_preserving|].
  split; [intros cx cy r c; by apply draw_circle_preserving|].
  split; [intros x y w h r c; by apply draw_rounded_rect_preserving|].
  split; [intros x0 y0 x1 y1 x2 y2 c;
          by apply draw_triangle_filled_preserving|].
  split; [intros x y ch c scale; by apply draw_char_preserving|].
  split; [intros x y text c scale; by apply draw_text_preserving|].
  intros i c fb' Hst. apply store_Some in Hst. lia.
Qed.

(** A circle of radius 3 around (-1, 2) on the surface of the small
    display: most of it falls outside and is skipped. *)
Lemma primitives_clip_in_bounds_witness :
  display_32bpp small_display ∧
  fb_init 32 small_display = FbReady small_fb ∧
  ∃ fb', draw_circle (-1) 2 3 7 small_fb = Some fb' ∧ same_shape small_fb fb'.
Proof.
  assert (Hbits : 32 ≤ 32) by lia.
  assert (Hd : display_32bpp small_display).
  { unfold display_32bpp, small_display, INT_MAX. cbn. lia. }
  assert (Hinit : fb_init 32 small_display = FbReady small_fb)
    by reflexivity.
  split; [exact Hd|]. split; [exact Hinit|].
  exact (proj1 (proj2 (proj2
           (primitives_clip_in_bounds 32 small_display small_fb small_fb
              Hbits Hd Hinit (same_shape_refl small_fb))))
           (-1) 2 3 7).
Defined.

(** On a display of 16 bits per pixel [fb_init] succeeds with a surface of
    4 x 4 pixels and a back buffer of 8 elements: the pixel (0, 2) lies
    inside the surface, its index is past the end of the buffer, and
    [draw_pixel] and [draw_rect] store there. *)
Lemma primitives_overrun_16bpp :
  ∃ fb, fb_init 32 display_16bpp = FbReady fb ∧
    0 ≤ 0 < width fb ∧ 0 ≤ 2 < height fb ∧
    Z.of_nat (length (backbuf fb)) ≤ 2 * stride_px fb + 0 ∧
    draw_pixel 0 2 7 fb = None ∧ draw_rect 0 0 4 4 7 fb = None.
Proof.
  exists (mkFb 4 4 4 (replicate 8 0)).
  split; [reflexivity|]. cbn [width height stride_px backbuf].
  split; [lia|]. split; [lia|].
  split; [by rewrite length_replicate|]. split; reflexivity.
Qed.

(** * Further properties *)

(** ** Key names: parsing and printing *)

Lemma char_code_inj (c1 c2 : ascii) : char_code c1 = char_code c2 → c1 = c2.
Proof.
  unfold char_code. intros H. apply Nat2Z.inj in H.
  rewrite <- (ascii_nat_embedding c1), <- (ascii_nat_embedding c2).
  by rewrite H.
Qed.

Lemma tolower_nul (c : ascii) :
  char_code (tolower c) = 0 → (nat_of_ascii c =? 0)%nat = true.
Proof.
  destruct c as [[] [] [] [] [] [] [] []]; vm_compute; congruence.
Qed.

(** On C strings [strcasecmp] is 0 exactly when the strings agree after
    lower-casing. *)
Lemma strcasecmp_zero (a b : string) :
  c_string a = true → c_string b = true →
  strcasecmp a b = 0 ↔ lower a = lower b.
Proof.
  revert b. induction a as [|c1 a IH]; intros [|c2 b] Ha Hb;
    cbn [strcasecmp lower c_string] in *.
  - done.
  - apply andb_prop in Hb as [Hc _]. split; [|done]. intros H.
    assert (H0 : char_code (tolower c2) = 0) by lia.
    apply tolower_nul in H0. by rewrite H0 in Hc.
  - apply andb_prop in Ha as [Hc _]. split; [|done]. intros H.
    apply tolower_nul in H. by rewrite H in Hc.
  - apply andb_prop in Ha as [_ Ha]. apply andb_prop in Hb as [_ Hb].
    destruct (Z.eqb_spec (char_code (tolower c1) - char_code (tolower c2)) 0)
      as [Hd|Hd].
    + assert (Hc : tolower c1 = tolower c2) by (apply char_code_inj; lia).
      rewrite Hc, (IH b Ha Hb). split; [by intros ->|by intros [= ?]].
    + split; [done|]. intros [= Hc _]. rewrite Hc in Hd. lia.
Qed.

(** The first entry that [keycode_to_name] finds, or no entry at all. *)
Lemma keycode_to_name_from_found (tbl : list KeyName) (code : Z) :
  (keycode_to_name_from tbl code = "?" ∧
   Forall (fun k => kn_code k ≠ code) tbl) ∨
  (∃ k, k ∈ tbl ∧ kn_code k = code ∧
        keycode_to_name_from tbl code = kn_name k).
Proof.
  induction tbl as [|k tbl IH]; cbn [keycode_to_name_from].
  - left. by split.
  - destruct (Z.eqb_spec (kn_code k) code) as [Hk|Hk].
    + right. exists k. split; [left|done].
    + destruct IH as [[Hq Hall]|(k' & Hin & Hc & Hn)].
      * left. split; [done|]. by constructor.
      * right. exists k'. split; [by right|done].
Qed.

Lemma parse_keyname_from_found (tbl : list KeyName) (name : string) :
  (parse_keyname_from tbl name = -1 ∧
   Forall (fun k => strcasecmp (kn_name k) name ≠ 0) tbl) ∨
  (∃ k, k ∈ tbl ∧ strcasecmp (kn_name k) name = 0 ∧
        parse_keyname_from tbl name = kn_code k).
Proof.
  induction tbl as [|k tbl IH]; cbn [parse_keyname_from].
  - left. by split.
  - destruct (Z.eqb_spec (strcasecmp (kn_name k) name) 0) as [Hk|Hk].
    + right. exists k. split; [left|done].
    + destruct IH as [[Hq Hall]|(k' & Hin & Hc & Hn)].
      * left. split; [done|]. by constructor.
      * right. exists k'. split; [by right|done].
Qed.

Lemma key_names_ok : forallb entry_ok key_names = true.
Proof. vm_compute. reflexivity. Qed.

Lemma entry_ok_elem (k : KeyName) :
  k ∈ key_names →
  parse_keyname (kn_name k) = kn_code k ∧
  keycode_to_name (kn_code k) = kn_name k ∧
  1 ≤ kn_code k ≤ 111 ∧ lower (kn_name k) = kn_name k ∧
  c_string (kn_name k) = true.
Proof.
  intros Hin. pose proof key_names_ok as Hall.
  rewrite forallb_forall in Hall.
  specialize (Hall k (proj1 (list_elem_of_In _ _) Hin)).
  unfold entry_ok in Hall.
  apply andb_prop in Hall as [Hall H6]. apply andb_prop in Hall as [Hall H5].
  apply andb_prop in Hall as [Hall H4]. apply andb_prop in Hall as [Hall H3].
  apply andb_prop in Hall as [H1 H2].
  apply Z.eqb_eq in H1. apply String.eqb_eq in H2. apply String.eqb_eq in H5.
  repeat split; try done; lia.
Qed.

Lemma named_range (code : Z) : named code → 1 ≤ code ≤ 111.
Proof.
  intros (k & Hin & <-). by destruct (entry_ok_elem k Hin) as (_ & _ & ? & _).
Qed.

Lemma keycode_name_parse (code : Z) :
  named code →
  keycode_to_name code ≠ "?" ∧
  parse_keyname (keycode_to_name code) = code.
Proof.
  intros (k0 & Hin0 & Hc0).
  destruct (keycode_to_name_from_found key_names code)
    as [[_ Hall]|(k & Hin & Hc & Hn)].
  - rewrite Forall_forall in Hall. by destruct (Hall k0 Hin0).
  - fold (keycode_to_name code) in Hn. rewrite Hn.
    destruct (entry_ok_elem k Hin) as (Hp & Hname & Hr & _ & _).
    split; [|congruence].
    intros Hq. rewrite Hq in Hp.
    change (parse_keyname "?") with (-1) in Hp. lia.
Qed.

Lemma parse_keyname_named (name : string) :
  0 ≤ parse_keyname name → named (parse_keyname name).
Proof.
  intros Hacc.
  destruct (parse_keyname_from_found key_names name)
    as [[Hm _]|(k & Hin & _ & Hn)].
  - fold (parse_keyname name) in Hm. lia.
  - fold (parse_keyname name) in Hn. rewrite Hn. by exists k.
Qed.

(** X1: printing then parsing a key code gives the code back.  For every
    code with an entry in the key-name table, [keycode_to_name] yields a
    name other than the placeholder and [parse_keyname] maps that name
    back to the code. *)
Theorem keycode_name_roundtrip (code : Z) :
  named code →
  keycode_to_name code ≠ "?" ∧
  parse_keyname (keycode_to_name code) = code.
Proof. apply keycode_name_parse. Qed.

Lemma keycode_name_roundtrip_witness :
  keycode_to_name KEY_LEFTBRACE ≠ "?" ∧
  parse_keyname (keycode_to_name KEY_LEFTBRACE) = KEY_LEFTBRACE.
Proof.
  apply keycode_name_roundtrip.
  exists {| kn_code := KEY_LEFTBRACE; kn_name := "bracketleft" |}.
  split; [|reflexivity].
  apply list_elem_of_In. do 25 right. by left.
Defined.

(** X2: parsing then printing gives the name back in lower case.  When
    [parse_keyname] accepts a C string, the code it returns is a code of
    the table in 1..111 and [keycode_to_name] of that code is the
    lower-cased argument. *)
Theorem parse_name_roundtrip (name : string) :
  c_string name = true → 0 ≤ parse_keyname name →
  named (parse_keyname name) ∧ 1 ≤ parse_keyname name ≤ 111 ∧
  keycode_to_name (parse_keyname name) = lower name.
Proof.
  intros Hcs Hacc.
  destruct (parse_keyname_from_found key_names name)
    as [[Hm _]|(k & Hin & Hcmp & Hn)].
  - fold (parse_keyname name) in Hm. lia.
  - fold (parse_keyname name) in Hn. rewrite Hn.
    destruct (entry_ok_elem k Hin) as (_ & Hname & Hrange & Hlow & Hck).
    split; [by exists k|]. split; [done|].
    apply strcasecmp_zero in Hcmp; [|done|done]. congruence.
Qed.

Lemma parse_name_roundtrip_witness :
  keycode_to_name (parse_keyname "LShift") = "lshift".
Proof.
  assert (Hacc : 0 ≤ parse_keyname "LShift") by (vm_compute; discriminate).
  exact (proj2 (proj2 (parse_name_roundtrip "LShift" eq_refl Hacc))).
Defined.

(** X3: [parse_keyname] does not look at the case of letters, and it
    returns -1 or a code in 1..111, never 0: two C strings that agree
    after lower-casing get the same result. *)
Theorem parse_keyname_case_insensitive (a b : string) :
  c_string a = true → c_string b = true → lower a = lower b →
  parse_keyname a = parse_keyname b ∧
  (parse_keyname a = -1 ∨ 1 ≤ parse_keyname a ≤ 111).
Proof.
  intros Ha Hb Hab. split.
  - unfold parse_keyname.
    assert (Hall : Forall (fun k => c_string (kn_name k) = true) key_names).
    { apply Forall_forall. intros k Hin.
      by destruct (entry_ok_elem k Hin) as (_ & _ & _ & _ & ?). }
    induction Hall as [|k tbl Hk _ IH]; [done|].
    cbn [parse_keyname_from]. rewrite IH.
    assert (Heq : (strcasecmp (kn_name k) a =? 0)
                  = (strcasecmp (kn_name k) b =? 0)).
    { destruct (Z.eqb_spec (strcasecmp (kn_name k) a) 0) as [H0|H0],
        (Z.eqb_spec (strcasecmp (kn_name k) b) 0) as [H1|H1]; try done.
      - apply strcasecmp_zero in H0; [|done|done]. exfalso. apply H1.
        apply strcasecmp_zero; [done|done|congruence].
      - apply strcasecmp_zero in H1; [|done|done]. exfalso. apply H0.
        apply strcasecmp_zero; [done|done|congruence]. }
    by rewrite Heq.
  - destruct (parse_keyname_from_found key_names a)
      as [[Hm _]|(k & Hin & _ & Hn)].
    + by left.
    + right. fold (parse_keyname a) in Hn. rewrite Hn.
      by destruct (entry_ok_elem k Hin) as (_ & _ & ? & _).
Qed.

Lemma parse_keyname_case_insensitive_witness :
  parse_keyname "PageUp" = parse_keyname "pageup".
Proof.
  exact (proj1 (parse_keyname_case_insensitive "PageUp" "pageup"
                  eq_refl eq_refl eq_refl)).
Defined.

(** ** Command line: what every run starts from *)

Lemma table_ext (a b : list Mapping) :
  table_wf a → table_wf b →
  (∀ i, (i < NUM_MAPPINGS)%nat → keycode (slot a i) = keycode (slot b i)) →
  a = b.
Proof.
  intros Ha Hb Hk.
  rewrite (table_wf_zip a Ha), (table_wf_zip b Hb). f_equal.
  apply (nth_ext _ _ 0 0).
  - by rewrite !length_fmap, (table_wf_length a Ha), (table_wf_length b Hb).
  - intros i Hi. rewrite length_fmap, (table_wf_length a Ha) in Hi.
    change 0 with (keycode null_mapping).
    rewrite !(map_nth keycode). by apply Hk.
Qed.

(** A property of the table that every accepted override keeps is kept by
    the whole argument loop, which ends with status 0 or -1. *)
Lemma parse_loop_inv (P : list Mapping → Prop) :
  (∀ g m name, P g → table_wf g → (m < NUM_MAPPINGS)%nat →
               0 ≤ parse_keyname name →
               P (<[m := set_keycode (parse_keyname name) (slot g m)]> g)) →
  ∀ (n : nat) (args : list string) (help guimap : bool) (g : list Mapping),
    (length args ≤ n)%nat → table_wf g → P g →
    P (pr_map (parse_loop args help guimap g)) ∧
    (pr_status (parse_loop args help guimap g) = 0 ∨
     pr_status (parse_loop args help guimap g) = -1).
Proof.
  intros Hstep. induction n as [|n IH]; intros args help guimap g Hlen Hwf HP.
  - destruct args; [split; [done|by left]|simpl in Hlen; lia].
  - destruct args as [|a rest]; [split; [done|by left]|]. simpl in Hlen.
    cbn [parse_loop].
    destruct (streq a "--help" || streq a "-h"); [apply IH; [lia|done|done]|].
    destruct (streq a "--guimap"); [apply IH; [lia|done|done]|].
    destruct (find_mapping g a) as [m|] eqn:Hm; [|split; [done|by right]].
    destruct rest as [|kn rest']; [split; [done|by right]|].
    destruct (Z.ltb_spec (parse_keyname kn) 0); [split; [done|by right]|].
    apply find_mapping_Some in Hm as [_ Hml].
    rewrite (table_wf_length g Hwf) in Hml. simpl in Hlen.
    apply IH; [lia|by apply table_wf_insert|by apply Hstep].
Qed.

Lemma named_table_insert (g : list Mapping) (m : nat) (name : string) :
  named_table g → table_wf g → (m < NUM_MAPPINGS)%nat →
  0 ≤ parse_keyname name →
  named_table (<[m := set_keycode (parse_keyname name) (slot g m)]> g).
Proof.
  intros Hn Hwf Hm Hacc i Hi.
  destruct (decide (i = m)) as [->|Hne].
  - rewrite slot_insert_eq by by rewrite (table_wf_length g Hwf).
    by apply parse_keyname_named.
  - rewrite slot_insert_ne by done. by apply Hn.
Qed.

Lemma named_existsb (code : Z) :
  existsb (fun k => kn_code k =? code) key_names = true → named code.
Proof.
  intros H. apply existsb_exists in H as (k & Hin & Hk).
  exists k. split; [by apply list_elem_of_In|by apply Z.eqb_eq].
Qed.

Lemma named_table_forallb (g : list Mapping) :
  forallb (fun i => existsb (fun k => kn_code k =? keycode (slot g i))
                            key_names)
          (seq 0 NUM_MAPPINGS) = true →
  named_table g.
Proof.
  intros H i Hi. rewrite forallb_forall in H.
  apply named_existsb, H, List.in_seq. lia.
Qed.

Lemma named_table_init : named_table init_mappings.
Proof. by apply named_table_forallb. Qed.

(** X4: whatever the arguments, [main] hands over a table that differs
    from the built-in one in key codes only and in which every key code
    has a name, so no binding of a freshly started program prints as the
    placeholder; and it leaves with a failure exactly when parsing
    returned -1. *)
Theorem main_starts_with_named_table (argv : list string) (i : nat) :
  (i < NUM_MAPPINGS)%nat → main_hands_over argv i.
Proof.
  intros Hi. unfold main_hands_over, main, parse_args.
  destruct (parse_loop_inv (fun g => table_wf g ∧ named_table g))
    with (n := length (tail argv)) (args := tail argv) (help := false)
         (guimap := false) (g := init_mappings)
    as [[Hwf Hnamed] Hst].
  - intros g m name [Hw Hn] _ Hm Hacc. split.
    + by apply table_wf_insert.
    + by apply named_table_insert.
  - done.
  - apply table_wf_init.
  - split; [apply table_wf_init|apply named_table_init].
  - set (r := parse_loop (tail argv) false false init_mappings) in *.
    assert (Hgood : pr_status r = 0 →
              pr_status r = 0 ∧ pr_map r = pr_map r ∧ table_wf (pr_map r) ∧
              named (keycode (slot (pr_map r) i)) ∧
              keycode_to_name (keycode (slot (pr_map r) i)) ≠ "?").
    { intros H0. repeat split; try done.
      - by apply Hnamed.
      - by apply keycode_name_parse, Hnamed. }
    destruct (Z.ltb_spec (pr_status r) 0) as [Hneg|Hpos].
    + destruct Hst as [H0|H1]; [lia|done].
    + assert (H0 : pr_status r = 0) by (destruct Hst; [done|lia]).
      destruct (pr_help r); [by apply Hgood|].
      destruct (pr_guimap r); by apply Hgood.
Qed.

Lemma main_starts_with_named_table_witness :
  main_hands_over ["keyboard2thejoystick"; "--guimap"; "--menu1"; "F5"] 12.
Proof.
  assert (Hi : (12 < NUM_MAPPINGS)%nat) by (unfold NUM_MAPPINGS; lia).
  exact (main_starts_with_named_table
           ["keyboard2thejoystick"; "--guimap"; "--menu1"; "F5"] 12 Hi).
Defined.

Lemma slot_copy_keycode (g t : list Mapping) (i0 i : nat) :
  (i0 < length t)%nat →
  slot (copy_keycode g t i0) i
  = if bool_decide (i = i0) then set_keycode (keycode (slot g i)) (slot t i)
    else slot t i.
Proof.
  intros Hi0. unfold copy_keycode.
  destruct (bool_decide_reflect (i = i0)) as [->|Hne].
  - by rewrite slot_insert_eq.
  - by rewrite slot_insert_ne.
Qed.

Lemma keycode_foldl_copy (g : list Mapping) (l : list nat) :
  ∀ t, table_wf t → (∀ i, i ∈ l → (i < NUM_MAPPINGS)%nat) →
       table_wf (foldl (copy_keycode g) t l) ∧
       ∀ i, keycode (slot (foldl (copy_keycode g) t l) i)
            = if bool_decide (i ∈ l) then keycode (slot g i)
              else keycode (slot t i).
Proof.
  induction l as [|i0 l IH]; intros t Hwf Hl; cbn [foldl].
  - split; [done|]. intros i. rewrite bool_decide_eq_false_2; [done|].
    apply not_elem_of_nil.
  - assert (Hi0 : (i0 < length t)%nat).
    { rewrite (table_wf_length t Hwf). apply Hl. left. }
    destruct (IH (copy_keycode g t i0)) as [Hwf' Hk].
    { by apply table_wf_insert. }
    { intros i Hin. apply Hl. by right. }
    split; [done|]. intros i. rewrite Hk, slot_copy_keycode by done.
    destruct (bool_decide_reflect (i = i0)) as [->|Hne].
    + rewrite (bool_decide_eq_true_2 (i0 ∈ i0 :: l)) by left.
      by destruct (bool_decide (i0 ∈ l)).
    + destruct (bool_decide_reflect (i ∈ l)) as [Hin|Hnin].
      * rewrite (bool_decide_eq_true_2 (i ∈ i0 :: l)) by by right. done.
      * rewrite (bool_decide_eq_false_2 (i ∈ i0 :: l)); [done|].
        intros [?|?]%elem_of_cons; done.
Qed.

(** Parsing the option pairs of the slots [l] of [g] copies their key
    codes into the table. *)
Lemma parse_loop_pairs (g : list Mapping) (l : list nat) :
  table_wf g → named_table g →
  ∀ (t : list Mapping) (help guimap : bool),
    table_wf t → (∀ i, i ∈ l → (i < NUM_MAPPINGS)%nat) →
    parse_loop
      (flat_map (fun p : string * string => [p.1; p.2])
         ((fun i => (cli_name (slot g i),
                     keycode_to_name (keycode (slot g i)))) <$> l))
      help guimap t
    = mkParse 0 help guimap (foldl (copy_keycode g) t l).
Proof.
  intros Hg Hnamed. induction l as [|i l IH]; intros t help guimap Ht Hl.
  - reflexivity.
  - assert (Hi : (i < NUM_MAPPINGS)%nat) by (apply Hl; left).
    cbn [fmap list_fmap flat_map app fst snd parse_loop].
    rewrite (cli_name_wf g i Hg), <- (cli_name_wf t i Ht).
    destruct (flag_not_reserved t i Ht Hi) as (-> & -> & ->).
    cbn [orb]. rewrite (find_mapping_wf t i Ht Hi).
    destruct (keycode_name_parse (keycode (slot g i)) (Hnamed i Hi))
      as [_ Hparse].
    rewrite Hparse.
    pose proof (named_range _ (Hnamed i Hi)) as Hr.
    destruct (Z.ltb_spec (keycode (slot g i)) 0); [lia|].
    apply IH.
    + by apply table_wf_insert.
    + intros j Hj. apply Hl. by right.
Qed.

(** X5: the exported script reproduces the table it was written from.
    For a table [g] whose key codes all have names, the script lists for
    each slot its flag and key name, and feeding those option pairs to
    [parse_args], starting from any well-formed table, succeeds and yields
    exactly [g]. *)
Theorem export_then_parse_roundtrip (g g0 : list Mapping) (prog : string) :
  table_wf g → named_table g → table_wf g0 →
  parse_args (prog :: script_args g) g0 = mkParse 0 false false g ∧
  ∀ i p, script_pairs g !! i = Some p →
         continuation_line g i
         = "  " +:+ p.1 +:+ " " +:+ p.2
           +:+ (if (i <? 15)%nat then " \" else "").
Proof.
  intros Hg Hnamed Hg0. split.
  - unfold parse_args, script_args, script_pairs. cbn [tail].
    assert (Hl : ∀ i, i ∈ seq 0 NUM_MAPPINGS → (i < NUM_MAPPINGS)%nat).
    { intros i Hi. apply elem_of_seq in Hi. lia. }
    rewrite (parse_loop_pairs g (seq 0 NUM_MAPPINGS) Hg Hnamed g0 false false
               Hg0 Hl).
    f_equal.
    destruct (keycode_foldl_copy g (seq 0 NUM_MAPPINGS) g0 Hg0 Hl)
      as [Hwf Hk].
    apply table_ext; [done|done|]. intros i Hi. rewrite Hk.
    rewrite bool_decide_eq_true_2; [done|]. apply elem_of_seq. lia.
  - intros i p Hp. unfold script_pairs in Hp.
    rewrite list_lookup_fmap in Hp.
    destruct (seq 0 NUM_MAPPINGS !! i) as [j|] eqn:Ej; [|done].
    apply lookup_seq in Ej as [-> _]. cbn in Hp. injection Hp as <-.
    cbn [fst snd]. apply continuation_line_flat.
Qed.

(** The table after [--up k --leftfire lshift], exported and parsed again
    from the built-in table. *)
Lemma export_then_parse_roundtrip_witness :
  let g := pr_map (parse_args ["keyboard2thejoystick"; "--up"; "k";
                               "--leftfire"; "lshift"] init_mappings) in
  parse_args ("keyboard2thejoystick" :: script_args g) init_mappings
  = mkParse 0 false false g.
Proof.
  intros g.
  assert (Hg : table_wf g) by reflexivity.
  assert (Hn : named_table g).
  { by apply named_table_forallb. }
  exact (proj1 (export_then_parse_roundtrip g init_mappings
                  "keyboard2thejoystick" Hg Hn table_wf_init)).
Defined.

(** ** Command line: errors *)

Lemma find_mapping_names (g g' : list Mapping) (a : string) :
  cli_name <$> g = cli_name <$> g' → find_mapping g a = find_mapping g' a.
Proof.
  revert g'. induction g as [|s g IH]; intros [|s' g'] H; try done.
  cbn [fmap list_fmap] in H. injection H as Hs Hg.
  cbn [find_mapping]. rewrite Hs. by rewrite (IH g' Hg).
Qed.

Lemma find_mapping_init (g : list Mapping) (a : string) :
  table_wf g → find_mapping g a = find_mapping init_mappings a.
Proof.
  intros H. apply find_mapping_names. unfold table_wf in H.
  apply (f_equal (fmap (fun p : string * string * Z * Z * Z * Z =>
                          p.1.1.1.1.1))) in H.
  by rewrite <- !list_fmap_compose in H.
Qed.

Lemma parse_loop_failure (n : nat) :
  ∀ (args : list string) (help guimap : bool) (g : list Mapping),
    (length args ≤ n)%nat → table_wf g →
    (pr_status (parse_loop args help guimap g) = 0 ∨
     pr_status (parse_loop args help guimap g) = -1) ∧
    (pr_status (parse_loop args help guimap g) = -1 ↔
     fails_at (fun pre => parse_loop pre help guimap g) args).
Proof.
  induction n as [|n IH]; intros args help guimap g Hlen Hwf.
  { destruct args; [|cbn in Hlen; lia]. cbn [parse_loop pr_status].
    split; [by left|]. split; [done|].
    intros (pre & a & rest & H & _). by destruct pre. }
  destruct args as [|a rest].
  { cbn [parse_loop pr_status]. split; [by left|]. split; [done|].
    intros (pre & a & rest & H & _). by destruct pre. }
  cbn [length] in Hlen. cbn [parse_loop].
  destruct (streq a "--help" || streq a "-h") eqn:Hhelp.
  { destruct (IH rest true guimap g ltac:(lia) Hwf) as [Hst Hiff].
    split; [done|]. rewrite Hiff. split.
    - intros (pre & a' & rest' & -> & Hpre & Hfail).
      exists (a :: pre), a', rest'. split; [done|]. split; [|done].
      cbn [parse_loop]. by rewrite Hhelp.
    - intros (pre & a' & rest' & Heq & Hpre & Hfail).
      destruct pre as [|p pre]; cbn [app] in Heq; injection Heq as <- Heq.
      + destruct Hfail as (H1 & H2 & _). by rewrite H1, H2 in Hhelp.
      + exists pre, a', rest'. split; [done|]. split; [|done].
        cbn [parse_loop] in Hpre. by rewrite Hhelp in Hpre. }
  destruct (streq a "--guimap") eqn:Hgui.
  { destruct (IH rest help true g ltac:(lia) Hwf) as [Hst Hiff].
    split; [done|]. rewrite Hiff. split.
    - intros (pre & a' & rest' & -> & Hpre & Hfail).
      exists (a :: pre), a', rest'. split; [done|]. split; [|done].
      cbn [parse_loop]. by rewrite Hhelp, Hgui.
    - intros (pre & a' & rest' & Heq & Hpre & Hfail).
      destruct pre as [|p pre]; cbn [app] in Heq; injection Heq as <- Heq.
      + destruct Hfail as (_ & _ & H3 & _). by rewrite H3 in Hgui.
      + exists pre, a', rest'. split; [done|]. split; [|done].
        cbn [parse_loop] in Hpre. by rewrite Hhelp, Hgui in Hpre. }
  apply orb_false_elim in Hhelp as [Hh1 Hh2].
  destruct (find_mapping g a) as [m|] eqn:Hfind.
  2: { cbn [pr_status]. split; [by right|]. split; [|done]. intros _.
       exists [], a, rest. split; [done|]. split; [done|].
       repeat split; try done. left. by rewrite <- (find_mapping_init g a Hwf). }
  destruct rest as [|kn rest'].
  { cbn [pr_status]. split; [by right|]. split; [|done]. intros _.
    exists [], a, []. split; [done|]. split; [done|].
    repeat split; try done. right. by left. }
  destruct (Z.ltb_spec (parse_keyname kn) 0) as [Hkc|Hkc].
  { cbn [pr_status]. split; [by right|]. split; [|done]. intros _.
    exists [], a, (kn :: rest'). split; [done|]. split; [done|].
    repeat split; try done. right. right. by exists kn, rest'. }
  cbn [length] in Hlen.
  assert (Hwf' : table_wf (<[m := set_keycode (parse_keyname kn) (slot g m)]> g))
    by by apply table_wf_insert.
  destruct (IH rest' help guimap _ ltac:(lia) Hwf') as [Hst Hiff].
  split; [done|]. rewrite Hiff. split.
  - intros (pre & a' & rest'' & -> & Hpre & Hfail).
    exists (a :: kn :: pre), a', rest''. split; [done|]. split; [|done].
    cbn [parse_loop]. rewrite Hh1, Hh2, Hgui, Hfind. cbn [orb].
    by destruct (Z.ltb_spec (parse_keyname kn) 0); [lia|].
  - intros (pre & a' & rest'' & Heq & Hpre & Hfail).
    destruct pre as [|p pre]; cbn [app] in Heq; injection Heq as <- Heq.
    { destruct Hfail as (_ & _ & _ & [Hnone|[Hnil|(kn' & r' & Hr & Hbad)]]).
      - rewrite <- (find_mapping_init g a Hwf) in Hnone. congruence.
      - by rewrite Hnil in Heq.
      - rewrite Hr in Heq. injection Heq as -> _. lia. }
    destruct pre as [|p' pre]; cbn [app] in Heq; injection Heq as <- Heq.
    { cbn [parse_loop] in Hpre. rewrite Hh1, Hh2, Hgui, Hfind in Hpre.
      cbn in Hpre. lia. }
    exists pre, a', rest''. split; [done|]. split; [|done].
    cbn [parse_loop] in Hpre. rewrite Hh1, Hh2, Hgui, Hfind in Hpre.
    cbn [orb] in Hpre.
    by destruct (Z.ltb_spec (parse_keyname kn) 0); [lia|].
Qed.

(** X26: [parse_args] returns 0 or -1.  It returns -1 exactly when, after
    a run of arguments that parse, it meets an argument that is neither
    [--help], [-h], [--guimap] nor a flag of the table, or a flag that is
    the last argument, or a flag followed by something that is no key
    name. *)
Theorem parse_args_failure (g : list Mapping) (prog : string)
    (args : list string) :
  table_wf g →
  (pr_status (parse_args (prog :: args) g) = 0 ∨
   pr_status (parse_args (prog :: args) g) = -1) ∧
  (pr_status (parse_args (prog :: args) g) = -1 ↔
   fails_at (fun pre => parse_args (prog :: pre) g) args).
Proof.
  intros Hwf. unfold parse_args. cbn [tail].
  by apply (parse_loop_failure (length args)).
Qed.

Lemma parse_args_failure_witness :
  pr_status (parse_args ["keyboard2thejoystick"; "--up"; "k"; "--down"]
               init_mappings) = -1.
Proof.
  apply (proj2 (parse_args_failure init_mappings "keyboard2thejoystick"
                  ["--up"; "k"; "--down"] table_wf_init)).
  exists ["--up"; "k"], "--down", [].
  split; [done|]. split; [done|]. repeat split; try done. right. by left.
Defined.

(** ** Remap wizard: bounds *)

Lemma load_entries_length (ds : list (string * bool)) (acc : list DirEntry) :
  (length acc ≤ MAX_DIR_ENTRIES)%nat →
  (length (load_entries ds acc) ≤ MAX_DIR_ENTRIES)%nat.
Proof.
  revert acc. induction ds as [|[name isdir] ds IH]; intros acc Hacc;
    cbn [load_entries]; [done|].
  destruct (Nat.ltb_spec (length acc) MAX_DIR_ENTRIES) as [Hlt|Hge]; [|done].
  destruct (first_char_is_dot name); [by apply IH|].
  destruct isdir; cbn [negb]; [|by apply IH].
  apply IH. rewrite length_app. cbn [length]. lia.
Qed.

Lemma qsort_entries_length (l : list DirEntry) :
  length (qsort_entries l) = length l.
Proof.
  unfold qsort_entries. apply Permutation_length, merge_sort_Permutation.
Qed.

Lemma browser_load_ok (env : wizard_env) (path : string) :
  browser_ok (browser_load env path).
Proof.
  unfold browser_load, browser_ok.
  set (ents0 := if streq (String.substring 0 511 path) "/" then []
                else [mkDirEntry ".." true]).
  assert (H0 : (length ents0 ≤ MAX_DIR_ENTRIES)%nat).
  { subst ents0. unfold MAX_DIR_ENTRIES.
    destruct (streq _ _); cbn [length]; lia. }
  destruct (readdir env path) as [ds|];
    cbn [b_entries b_selected b_scroll].
  - pose proof (load_entries_length ds ents0 H0) as Hl.
    set (ents := load_entries ds ents0) in *.
    set (start := match ents with
                  | e :: _ => if streq (de_name e) ".." then 1%nat else 0%nat
                  | [] => 0%nat
                  end).
    set (sorted := if (1 <? length ents - start)%nat
                   then take start ents ++ qsort_entries (drop start ents)
                   else ents).
    assert (Hs : length sorted = length ents).
    { subst sorted. destruct (1 <? length ents - start)%nat; [|done].
      rewrite length_app, qsort_entries_length, <- length_app.
      by rewrite take_drop. }
    destruct (Nat.ltb_spec (length sorted) MAX_DIR_ENTRIES) as [Hlt|Hge].
    + rewrite length_app. cbn [length]. split; [lia|]. split; [lia|].
      right. lia.
    + split; [lia|]. split; [lia|]. right. unfold MAX_DIR_ENTRIES in Hge.
      lia.
  - split; [done|]. split; [lia|].
    subst ents0. destruct (streq _ _); cbn [length].
    + left. split; [done|lia].
    + right. lia.
Qed.

Lemma browse_scroll_ok (b : DirBrowser) :
  (length (b_entries b) ≤ MAX_DIR_ENTRIES)%nat →
  (b_entries b = [] ∧ -1 ≤ b_selected b ≤ 0) ∨
  (0 ≤ b_scroll b ∧ 0 ≤ b_selected b < Z.of_nat (length (b_entries b))) →
  browser_ok (browse_scroll b).
Proof.
  intros Hlen Hsel. unfold browse_scroll, browser_ok.
  destruct (Z.ltb_spec (b_selected b) (b_scroll b)) as [H1|H1];
    cbn [set_scroll b_selected b_scroll b_entries];
    [destruct (Z.geb_spec (b_selected b) (b_selected b + 18)) as [H2|H2]
    |destruct (Z.geb_spec (b_selected b) (b_scroll b + 18)) as [H2|H2]];
    cbn [set_scroll b_selected b_scroll b_entries];
    (split; [done|]); (split; [lia|]);
    destruct Hsel as [[He Hs]|[Hs0 Hs]]; try (left; split; [done|lia]);
    try (right; lia).
Qed.

(** Reading the joystick changes [joy_prev_y] only. *)
Lemma frame_nav_app (env : wizard_env) (fr : frame) (app : GuimapApp) :
  (frame_nav env fr app).1.1
  = set_joy_prev_y (joy_prev_y (frame_nav env fr app).1.1) app.
Proof.
  unfold frame_nav. destruct (joy_found env).
  - by destruct (read_joystick_nav _ _ _ _) as [[prev ?] ?].
  - by destruct app.
Qed.

(** Projections of the wizard's records after its setters. *)
Ltac wizard_fields :=
  cbn [set_state set_cur_map set_redo_single set_review_sel set_browser
       set_mapped set_applied set_joy_prev_y set_selected set_scroll
       state cur_map redo_single review_sel browser save_path mapped applied
       joy_prev_y b_path b_entries b_selected b_scroll
       w_app w_map w_files fst snd].

Lemma frame_map_ok (fr : frame) (w : wizard) :
  state (w_app w) = GUIMAP_MAP → wizard_ok w → wizard_ok (frame_map fr w).1.
Proof.
  intros Hst (Hwf & Hsel & Hcur & Hm & Hb). specialize (Hcur Hst).
  unfold frame_map. destruct (Z.gtb_spec (f_key fr) 0) as [Hk|Hk]; [|done].
  unfold wizard_ok. wizard_fields.
  split; [by apply table_wf_insert|].
  destruct (Z.geb_spec (redo_single (w_app w)) 0) as [Hr|Hr].
  - wizard_fields. rewrite length_insert.
    split; [done|]. split; [intros; discriminate|]. by split.
  - destruct (Z.geb_spec (cur_map (w_app w) + 1) (Z.of_nat NUM_MAPPINGS))
      as [Hc|Hc]; wizard_fields; rewrite length_insert.
    + unfold GUIMAP_REVIEW_TOTAL.
      split; [lia|]. split; [intros; discriminate|]. by split.
    + split; [done|]. split; [intros _; lia|]. by split.
Qed.

Lemma frame_review_ok (env : wizard_env) (fr : frame) (w : wizard) :
  wizard_ok w → wizard_ok (frame_review env fr w).1.
Proof.
  intros (Hwf & Hsel & Hcur & Hm & Hb).
  unfold frame_review.
  pose proof (frame_nav_app env fr (w_app w)) as Hnav.
  destruct (frame_nav env fr (w_app w)) as [[app jdy] jconfirm].
  cbn [fst] in Hnav. rewrite Hnav. clear Hnav.
  set (y := joy_prev_y app). clearbody y.
  pose proof (browser_load_ok env "/mnt") as Hload.
  wizard_fields.
  repeat match goal with
         | |- context [if (?a >=? 0) && (?a <? ?b) then _ else _] =>
             destruct (Z.geb_spec a 0); destruct (Z.ltb_spec a b);
             cbn [andb]
         | |- context [if ?a <? ?b then _ else _] => destruct (Z.ltb_spec a b)
         | |- context [if ?a >=? ?b then _ else _] => destruct (Z.geb_spec a b)
         | |- context [if ?c then _ else _] => destruct c eqn:?
         end;
    unfold wizard_ok, redo_selected; wizard_fields;
    unfold GUIMAP_REVIEW_TOTAL, GUIMAP_REVIEW_APPLY, GUIMAP_REVIEW_QUIT,
      GUIMAP_REVIEW_SAVE in *;
    (split; [done|]); (split; [lia|]); (split; [|by split]);
    try (intros; discriminate); try done; try (intros _; lia).
Qed.

Lemma browse_scroll_keeps (b : DirBrowser) :
  browser_ok b → browser_ok (browse_scroll b).
Proof.
  intros (Hlen & Hwin & Hsel). apply browse_scroll_ok; [done|].
  destruct Hsel as [?|?]; [by left|right; lia].
Qed.

Lemma browse_scroll_select (b : DirBrowser) (s : Z) :
  browser_ok b →
  s = (if b_selected b - 1 <? 0 then 0 else b_selected b - 1) ∨
  s = (if b_selected b + 1 >=? Z.of_nat (length (b_entries b))
       then Z.of_nat (length (b_entries b)) - 1 else b_selected b + 1) →
  browser_ok (browse_scroll (set_selected s b)).
Proof.
  intros (Hlen & Hwin & Hsel) Hs. apply browse_scroll_ok; wizard_fields;
    [done|].
  destruct Hsel as [[He Hsel]|Hsel].
  - left. split; [done|]. rewrite He in Hs. cbn [length] in Hs.
    destruct Hs as [->| ->].
    + destruct (Z.ltb_spec (b_selected b - 1) 0); lia.
    + destruct (Z.geb_spec (b_selected b + 1) (Z.of_nat 0)); lia.
  - right. destruct Hs as [->| ->].
    + destruct (Z.ltb_spec (b_selected b - 1) 0); lia.
    + destruct (Z.geb_spec (b_selected b + 1)
                  (Z.of_nat (length (b_entries b)))); lia.
Qed.

Lemma frame_browse_ok (env : wizard_env) (fr : frame) (w : wizard) :
  wizard_ok w → wizard_ok (frame_browse env fr w).
Proof.
  intros (Hwf & Hsel & Hcur & Hm & Hb).
  unfold frame_browse.
  pose proof (frame_nav_app env fr (w_app w)) as Hnav.
  destruct (frame_nav env fr (w_app w)) as [[app jdy] jconfirm].
  cbn [fst] in Hnav. rewrite Hnav. clear Hnav.
  set (y := joy_prev_y app). clearbody y.
  pose proof (fun p => browse_scroll_keeps _ (browser_load_ok env p)) as Hload.
  pose proof (browse_scroll_keeps _ Hb) as Hkeep.
  pose proof (fun s => browse_scroll_select _ s Hb) as Hmove.
  unfold guimap_save_script. wizard_fields.
  repeat match goal with
         | |- context [if ?c then _ else _] => destruct c eqn:?
         | |- context [match ?c with Some _ => _ | None => _ end] =>
             destruct c eqn:?
         end;
    unfold wizard_ok; wizard_fields;
    (split; [done|]); (split; [done|]); (split; [|split; [done|]]);
    try (intros; discriminate); try done;
    try (apply Hmove; wizard_fields; (by left) || (by right)).
Qed.

Lemma guimap_frame_ok (env : wizard_env) (fr : frame) (w : wizard) :
  wizard_ok w → wizard_ok (guimap_frame env fr w).1.
Proof.
  intros H. unfold guimap_frame. destruct (state (w_app w)) eqn:Hst.
  - by apply frame_map_ok.
  - by apply frame_review_ok.
  - by apply frame_browse_ok.
Qed.

Lemma guimap_loop_ok (env : wizard_env) (frames : list frame) (w : wizard) :
  wizard_ok w → wizard_ok (guimap_loop env frames w).
Proof.
  revert w. induction frames as [|fr frames IH]; intros w H;
    cbn [guimap_loop]; [done|].
  pose proof (guimap_frame_ok env fr w H) as H'.
  destruct (guimap_frame env fr w) as [w' []]; [done|by apply IH].
Qed.

Lemma wizard_ok_initial (g : list Mapping) (fs : list file) :
  table_wf g → wizard_ok (mkWizard initial_app g fs).
Proof.
  intros H. unfold wizard_ok, initial_app, browser_ok. wizard_fields.
  unfold GUIMAP_REVIEW_TOTAL, NUM_MAPPINGS, MAX_DIR_ENTRIES.
  split; [done|]. split; [lia|]. split; [intros _; lia|].
  split; [done|]. cbn [length]. split; [lia|]. split; [lia|].
  left. split; [done|lia].
Qed.

(** X6: Whatever the frames bring, the wizard started by [guimap_run] on a
    table that differs from the built-in one in key codes only keeps its
    indices inside their arrays: the table keeps its sixteen slots and
    their fixed fields, the REVIEW selection stays one of the 19 rows,
    [cur_map] is a slot whenever a key is awaited, and the directory
    browser holds at most 256 entries with its selection on an entry (or
    on none when the list is empty) and inside the 18-row window. *)
Theorem wizard_stays_in_bounds (env : wizard_env) (frames : list frame)
    (g : list Mapping) (fs : list file) :
  table_wf g →
  wizard_ok (guimap_loop env frames (mkWizard initial_app g fs)) ∧
  table_wf (guimap_run env frames g fs).1.1.
Proof.
  intros H.
  pose proof (guimap_loop_ok env frames _ (wizard_ok_initial g fs H)) as Hok.
  split; [done|]. unfold guimap_run.
  destruct (negb (fb_ok env)); [done|].
  destruct (kbd_found env =? 0)%nat; [done|]. apply Hok.
Qed.

Lemma wizard_stays_in_bounds_witness :
  wizard_ok
    (guimap_loop (mkEnv true 1 true (fun _ => Some [("roms", true)])
                    (fun _ => true))
       [mkFrame KEY_A []; mkFrame KEY_B []]
       (mkWizard initial_app init_mappings [])).
Proof.
  exact (proj1 (wizard_stays_in_bounds _ _ _ [] table_wf_init)).
Defined.

(** ** Remap wizard: capturing keys *)

Lemma capture_steps (env : wizard_env) (frames : list frame) :
  ∀ (c : nat) (rs : Z) (b : DirBrowser) (sp : string) (m : list bool)
    (ap : bool) (jy : Z) (g : list Mapping) (fs : list file)
    (rest : list frame),
    (c + length (pressed_keys frames) < NUM_MAPPINGS)%nat →
    guimap_loop env (frames ++ rest)
      (mkWizard (mkApp GUIMAP_MAP (Z.of_nat c) (-1) rs b sp m ap jy) g fs)
    = guimap_loop env rest
        (mkWizard
           (mkApp GUIMAP_MAP (Z.of_nat (c + length (pressed_keys frames)))
                  (-1) rs b sp
                  (mark_from c (length (pressed_keys frames)) m) ap jy)
           (bind_from c (pressed_keys frames) g) fs).
Proof.
  induction frames as [|fr frames IH]; intros c rs b sp m ap jy g fs rest Hc.
  - cbn [pressed_keys omap list_omap length app mark_from bind_from].
    by rewrite Nat.add_0_r.
  - cbn [app guimap_loop]. unfold guimap_frame. wizard_fields.
    unfold frame_map. wizard_fields.
    unfold pressed_keys in *. cbn [omap list_omap] in *.
    destruct (Z.gtb_spec (f_key fr) 0) as [Hk|Hk].
    + cbn [length mark_from bind_from] in *.
      destruct (Z.geb_spec (-1) 0) as [?|_]; [lia|].
      destruct (Z.geb_spec (Z.of_nat c + 1) (Z.of_nat NUM_MAPPINGS))
        as [?|_]; [lia|].
      rewrite Nat2Z.id.
      replace (Z.of_nat c + 1) with (Z.of_nat (S c)) by lia.
      unfold set_cur_map, set_mapped. wizard_fields. rewrite IH by lia.
      by replace (S c + length (omap _ frames))%nat
        with (c + S (length (omap (fun fr0 => if f_key fr0 >? 0
                                             then Some (f_key fr0) else None)
                               frames)))%nat by lia.
    + by rewrite IH.
Qed.

Lemma pressed_keys_app (a b : list frame) :
  pressed_keys (a ++ b) = pressed_keys a ++ pressed_keys b.
Proof. apply omap_app. Qed.

Lemma pressed_keys_press (fr : frame) :
  0 < f_key fr → pressed_keys [fr] = [f_key fr].
Proof.
  intros H. unfold pressed_keys. cbn [omap list_omap].
  by destruct (Z.gtb_spec (f_key fr) 0); [|lia].
Qed.

(** The last of the sixteen presses fills slot 15 and opens REVIEW. *)
Lemma capture_last (env : wizard_env) (fr : frame) (ks : list Z)
    (g : list Mapping) (fs : list file) (rest : list frame) :
  table_wf g → length ks = 15%nat → 0 < f_key fr →
  guimap_loop env (fr :: rest)
    (mkWizard
       (mkApp GUIMAP_MAP (Z.of_nat (0 + length ks)) (-1) 0
              (mkBrowser "" [] 0 0) ""
              (mark_from 0 (length ks) (replicate NUM_MAPPINGS false))
              false 0)
       (bind_from 0 ks g) fs)
  = guimap_loop env rest
      (mkWizard review_app
         (zip_with set_keycode (ks ++ [f_key fr]) init_mappings) fs).
Proof.
  intros Hwf Hlen Hk. cbn [guimap_loop]. unfold guimap_frame. wizard_fields.
  unfold frame_map. wizard_fields.
  destruct (Z.gtb_spec (f_key fr) 0) as [_|?]; [|lia].
  rewrite Hlen.
  destruct (Z.geb_spec (-1) 0) as [?|_]; [lia|].
  unfold set_cur_map, set_mapped. wizard_fields.
  destruct (Z.geb_spec (Z.of_nat (0 + 15) + 1) (Z.of_nat NUM_MAPPINGS))
    as [_|?]; [|unfold NUM_MAPPINGS in *; lia].
  explicit_table g Hwf.
  do 16 (destruct ks as [|? ks]; try discriminate Hlen).
  reflexivity.
Qed.

(** X7: Sixteen key presses, with any number of idle frames between them,
    take the wizard from its start to REVIEW: the n-th press is bound to
    slot n, all sixteen slots are flagged as mapped, the first row is
    selected and no file is written.  If the next frame brings [A] and no
    joystick event, [guimap_run] returns 0 with that table. *)
Theorem capture_binds_keys_in_order (env : wizard_env)
    (frames : list frame) (fr : frame) (ks : list Z) (g : list Mapping)
    (fs : list file) :
  table_wf g → pressed_keys (frames ++ [fr]) = ks →
  length ks = NUM_MAPPINGS → 0 < f_key fr →
  guimap_loop env (frames ++ [fr]) (mkWizard initial_app g fs)
  = mkWizard review_app (zip_with set_keycode ks init_mappings) fs ∧
  (fb_ok env = true → kbd_found env ≠ 0%nat →
   guimap_run env (frames ++ [fr; mkFrame KEY_A []]) g fs
   = (zip_with set_keycode ks init_mappings, fs, 0)).
Proof.
  intros Hwf Hks Hlen Hk.
  rewrite pressed_keys_app, (pressed_keys_press fr Hk) in Hks.
  assert (Hlen' : length (pressed_keys frames) = 15%nat).
  { rewrite <- Hks, length_app in Hlen. cbn [length] in Hlen.
    unfold NUM_MAPPINGS in Hlen. lia. }
  assert (Hrun : ∀ rest,
    guimap_loop env (frames ++ fr :: rest) (mkWizard initial_app g fs)
    = guimap_loop env rest
        (mkWizard review_app (zip_with set_keycode ks init_mappings) fs)).
  { intros rest.
    change (mkWizard initial_app g fs)
      with (mkWizard
              (mkApp GUIMAP_MAP (Z.of_nat 0) (-1) 0 (mkBrowser "" [] 0 0) ""
                     (replicate NUM_MAPPINGS false) false 0) g fs).
    rewrite capture_steps by (rewrite Hlen'; unfold NUM_MAPPINGS; lia).
    rewrite (capture_last env fr _ g fs rest Hwf Hlen' Hk). by rewrite Hks. }
  split; [apply (Hrun [])|].
  intros Hfb Hkbd. unfold guimap_run. rewrite Hfb. cbn [negb].
  destruct (Nat.eqb_spec (kbd_found env) 0) as [?|_]; [done|].
  rewrite (Hrun [mkFrame KEY_A []]).
  cbn [guimap_loop]. unfold guimap_frame, review_app. wizard_fields.
  unfold frame_review, frame_nav. cbn [f_key f_joy read_joystick_nav].
  by destruct (joy_found env).
Qed.

Lemma capture_binds_keys_in_order_witness :
  guimap_loop (mkEnv true 1 false (fun _ => None) (fun _ => true))
    (((fun k => mkFrame k []) <$>
        [0; 17; 0; 0; 31; 30; 32; 57; 0; 36; 37; 38; 22; 23; 24; 2; 3; 4; 5;
         0]) ++ [mkFrame 6 []])
    (mkWizard initial_app init_mappings [])
  = mkWizard review_app
      (zip_with set_keycode
         [17; 31; 30; 32; 57; 36; 37; 38; 22; 23; 24; 2; 3; 4; 5; 6]
         init_mappings) [].
Proof.
  assert (Hk : 0 < f_key (mkFrame 6 [])) by (cbn [f_key]; lia).
  exact (proj1 (capture_binds_keys_in_order
                  (mkEnv true 1 false (fun _ => None) (fun _ => true))
                  ((fun k => mkFrame k []) <$>
                     [0; 17; 0; 0; 31; 30; 32; 57; 0; 36; 37; 38; 22; 23; 24;
                      2; 3; 4; 5; 0])
                  (mkFrame 6 [])
                  [17; 31; 30; 32; 57; 36; 37; 38; 22; 23; 24; 2; 3; 4; 5; 6]
                  init_mappings [] table_wf_init eq_refl eq_refl Hk)).
Defined.

Lemma guimap_loop_idle (env : wizard_env) (idle rest : list frame)
    (w : wizard) :
  state (w_app w) = GUIMAP_MAP → Forall (fun f => f_key f ≤ 0) idle →
  guimap_loop env (idle ++ rest) w = guimap_loop env rest w.
Proof.
  intros Hst Hidle. induction Hidle as [|fr idle Hfr _ IH]; [done|].
  cbn [app guimap_loop]. unfold guimap_frame. rewrite Hst. unfold frame_map.
  by destruct (Z.gtb_spec (f_key fr) 0); [lia|].
Qed.

(** X8: In REVIEW with a slot row selected, [1], Enter or Space (without a
    joystick event in that frame) followed by one key press rebinds that
    slot only and returns to REVIEW with the same row selected; idle frames
    in between change nothing, no file is written and nothing is
    applied. *)
Theorem redo_rebinds_one_slot (env : wizard_env) (fr1 : frame)
    (idle : list frame) (k : Z) (joy : list input_event) (w : wizard)
    (i : nat) :
  state (w_app w) = GUIMAP_REVIEW →
  review_sel (w_app w) = Z.of_nat i → (i < NUM_MAPPINGS)%nat →
  f_key fr1 = KEY_1 ∨ f_key fr1 = KEY_ENTER ∨ f_key fr1 = KEY_SPACE →
  f_joy fr1 = [] →
  Forall (fun f => f_key f ≤ 0) idle → 0 < k →
  let w' := guimap_loop env (fr1 :: idle ++ [mkFrame k joy]) w in
  w_map w' = <[i := set_keycode k (slot (w_map w) i)]> (w_map w) ∧
  state (w_app w') = GUIMAP_REVIEW ∧
  review_sel (w_app w') = Z.of_nat i ∧
  redo_single (w_app w') = -1 ∧
  w_files w' = w_files w ∧
  applied (w_app w') = applied (w_app w).
Proof.
  intros Hst Hsel Hi Hkey Hjoy Hidle Hk.
  destruct w as [[st cm rsg rsel b sp m ap jy] g fs].
  cbn [w_app w_map w_files state review_sel applied] in *. subst st rsel.
  assert (Hfirst : guimap_frame env fr1
            (mkWizard (mkApp GUIMAP_REVIEW cm rsg (Z.of_nat i) b sp m ap jy)
                      g fs)
          = (mkWizard (mkApp GUIMAP_MAP (Z.of_nat i) (Z.of_nat i) (Z.of_nat i)
                             b sp m ap jy) g fs, false)).
  { unfold guimap_frame. wizard_fields. unfold frame_review, frame_nav.
    rewrite Hjoy. cbn [read_joystick_nav].
    destruct (joy_found env); unfold set_joy_prev_y; wizard_fields;
      (destruct (Z.geb_spec (Z.of_nat i) 0) as [_|?]; [|lia]);
      (destruct (Z.ltb_spec (Z.of_nat i) (Z.of_nat NUM_MAPPINGS)) as [_|?];
       [|lia]);
      cbn [andb];
      unfold redo_selected, set_state, set_cur_map, set_redo_single;
      wizard_fields;
      by destruct Hkey as [->|[->| ->]]. }
  cbn [guimap_loop]. rewrite Hfirst.
  rewrite guimap_loop_idle by done.
  cbn [guimap_loop]. unfold guimap_frame. wizard_fields.
  unfold frame_map. wizard_fields. cbn [f_key].
  destruct (Z.gtb_spec k 0) as [_|?]; [|lia].
  destruct (Z.geb_spec (Z.of_nat i) 0) as [_|?]; [|lia].
  wizard_fields. by rewrite Nat2Z.id.
Qed.

Lemma redo_rebinds_one_slot_witness :
  keycode
    (slot
       (w_map
          (guimap_loop (mkEnv true 1 true (fun _ => None) (fun _ => true))
             (mkFrame KEY_ENTER [] :: [mkFrame 0 []] ++ [mkFrame KEY_Z []])
             (mkWizard (set_review_sel 4 review_app) init_mappings []))) 4)
  = KEY_Z.
Proof.
  assert (Hi : (4 < NUM_MAPPINGS)%nat) by (unfold NUM_MAPPINGS; lia).
  assert (Hk : 0 < KEY_Z) by (unfold KEY_Z; lia).
  assert (Hidle : Forall (fun f => f_key f ≤ 0) [mkFrame 0 []]).
  { constructor; [cbn [f_key]; lia|constructor]. }
  rewrite (proj1 (redo_rebinds_one_slot
                    (mkEnv true 1 true (fun _ => None) (fun _ => true))
                    (mkFrame KEY_ENTER []) [mkFrame 0 []] KEY_Z []
                    (mkWizard (set_review_sel 4 review_app) init_mappings [])
                    4%nat eq_refl eq_refl Hi (or_intror (or_introl eq_refl))
                    eq_refl Hidle Hk)).
  reflexivity.
Defined.

(** ** Directory browser *)

Lemma strcasecmp_antisym (a b : string) :
  strcasecmp a b = - strcasecmp b a.
Proof.
  revert b. induction a as [|c1 a IH]; intros [|c2 b]; cbn [strcasecmp];
    try lia.
  destruct (Z.eqb_spec (char_code (tolower c1) - char_code (tolower c2)) 0)
    as [Hd|Hd];
    destruct (Z.eqb_spec (char_code (tolower c2) - char_code (tolower c1)) 0);
    try lia.
  apply IH.
Qed.

Lemma char_code_nonneg (c : ascii) : 0 ≤ char_code c.
Proof. unfold char_code. lia. Qed.

Lemma strcasecmp_trans (a b c : string) :
  c_string a = true → c_string b = true → c_string c = true →
  strcasecmp a b ≤ 0 → strcasecmp b c ≤ 0 → strcasecmp a c ≤ 0.
Proof.
  revert b c. induction a as [|c1 a IH]; intros [|c2 b] [|c3 c] Ha Hb Hc;
    cbn [strcasecmp c_string] in *; intros H1 H2; try lia;
    try (pose proof (char_code_nonneg (tolower c3)); lia).
  - apply andb_prop in Ha as [Ha _].
    assert (H0 : char_code (tolower c1) = 0)
      by (pose proof (char_code_nonneg (tolower c1)); lia).
    apply tolower_nul in H0. by rewrite H0 in Ha.
  - apply andb_prop in Hb as [Hb _].
    assert (H0 : char_code (tolower c2) = 0)
      by (pose proof (char_code_nonneg (tolower c2)); lia).
    apply tolower_nul in H0. by rewrite H0 in Hb.
  - apply andb_prop in Ha as [_ Ha]. apply andb_prop in Hb as [_ Hb].
    apply andb_prop in Hc as [_ Hc].
    destruct (Z.eqb_spec (char_code (tolower c1) - char_code (tolower c2)) 0);
      destruct (Z.eqb_spec (char_code (tolower c2) - char_code (tolower c3))
                  0);
      destruct (Z.eqb_spec (char_code (tolower c1) - char_code (tolower c3))
                  0); try lia.
    by apply (IH b c).
Qed.

(** X9: [dir_entry_cmp] is a comparator as [qsort] needs it: swapping the
    arguments flips the sign, directories come before other entries, two
    entries of the same kind compare equal exactly when their names agree
    up to case, and the order is transitive. *)
Theorem dir_entry_cmp_order (a b c : DirEntry) :
  c_string (de_name a) = true → c_string (de_name b) = true →
  c_string (de_name c) = true →
  dir_entry_cmp a b = - dir_entry_cmp b a ∧
  (de_is_dir a = true → de_is_dir b = false → dir_entry_cmp a b < 0) ∧
  (de_is_dir a = de_is_dir b →
   (dir_entry_cmp a b = 0 ↔ lower (de_name a) = lower (de_name b))) ∧
  (dir_entry_cmp a b ≤ 0 → dir_entry_cmp b c ≤ 0 → dir_entry_cmp a c ≤ 0).
Proof.
  intros Ha Hb Hc. unfold dir_entry_cmp.
  pose proof (strcasecmp_antisym (de_name a) (de_name b)) as Hanti.
  pose proof (strcasecmp_trans _ _ _ Ha Hb Hc) as Htrans.
  pose proof (strcasecmp_zero _ _ Ha Hb) as Hzero.
  destruct (de_is_dir a), (de_is_dir b), (de_is_dir c);
    cbn [eqb negb Z.b2z]; repeat split; try done; try lia;
    apply Hzero.
Qed.

Lemma dir_entry_cmp_order_witness :
  dir_entry_cmp (mkDirEntry "Games" true) (mkDirEntry "roms" true)
  = - dir_entry_cmp (mkDirEntry "roms" true) (mkDirEntry "Games" true).
Proof.
  exact (proj1
    (dir_entry_cmp_order (mkDirEntry "Games" true) (mkDirEntry "roms" true)
       (mkDirEntry "saves" true) eq_refl eq_refl eq_refl)).
Defined.

Lemma entry_le_total : Total entry_le.
Proof.
  intros a b. unfold entry_le, dir_entry_cmp.
  pose proof (strcasecmp_antisym (de_name a) (de_name b)).
  destruct (de_is_dir a), (de_is_dir b); cbn [eqb negb Z.b2z]; lia.
Qed.

Lemma load_entries_shown (ds : list (string * bool)) (acc : list DirEntry) :
  load_entries ds acc
  = acc ++ take (MAX_DIR_ENTRIES - length acc) (shown ds).
Proof.
  revert acc. induction ds as [|[name isdir] ds IH]; intros acc;
    cbn [load_entries shown omap list_omap fst snd].
  - by rewrite take_nil, app_nil_r.
  - fold (shown ds).
    destruct (Nat.ltb_spec (length acc) MAX_DIR_ENTRIES) as [Hlt|Hge].
    + destruct (first_char_is_dot name); [apply IH|].
      destruct isdir; cbn [negb]; [|apply IH].
      rewrite IH, length_app, <- app_assoc. cbn [length app].
      replace (MAX_DIR_ENTRIES - length acc)%nat
        with (S (MAX_DIR_ENTRIES - (length acc + 1)))%nat by lia.
      done.
    + replace (MAX_DIR_ENTRIES - length acc)%nat with 0%nat by lia.
      by rewrite take_0, app_nil_r.
Qed.

Lemma substring_cons (n : nat) (c : ascii) (s : string) :
  String.substring 0 (S n) (String c s) = String c (String.substring 0 n s).
Proof. done. Qed.

Lemma shown_not_parent (ds : list (string * bool)) (e : DirEntry) :
  e ∈ shown ds →
  de_is_dir e = true ∧ streq (de_name e) ".." = false ∧
  ∃ name, (name, true) ∈ ds ∧ first_char_is_dot name = false ∧
          de_name e = String.substring 0 255 name.
Proof.
  unfold shown. rewrite list_elem_of_omap. intros ([name isdir] & Hin & He).
  cbn [fst snd] in He. destruct (first_char_is_dot name) eqn:Hdot; [done|].
  destruct isdir; [|done]. injection He as <-. cbn [de_name de_is_dir].
  split; [done|]. split; [|by exists name].
  destruct name as [|ch name]; [done|].
  rewrite substring_cons. cbn [first_char_is_dot] in Hdot.
  unfold streq. cbn [String.eqb].
  destruct (Ascii.eqb_spec ch "."%char) as [->|Hne]; [done|done].
Qed.

(** The sorting step of [browser_load] on the directories behind [".."]. *)
Lemma sort_step_sorted (dirs : list DirEntry) :
  ∃ sorted, sorted ≡ₚ dirs ∧ Sorted entry_le sorted ∧
    (if (1 <? length dirs)%nat then qsort_entries dirs else dirs) = sorted.
Proof.
  destruct (Nat.ltb_spec 1 (length dirs)) as [Hlt|Hge].
  - exists (qsort_entries dirs). split; [apply merge_sort_Permutation|].
    split; [apply (@Sorted_merge_sort _ entry_le _ entry_le_total)|done].
  - exists dirs. split; [done|]. split; [|done].
    destruct dirs as [|x [|y dirs]]; [constructor|by repeat constructor|].
    cbn [length] in Hge. lia.
Qed.

(** The entries [browser_load] holds when [opendir] succeeds, the sorting
    step still as the code has it. *)
Lemma browser_load_entries (env : wizard_env) (path : string)
    (ds : list (string * bool)) :
  readdir env path = Some ds →
  let parent := if streq (String.substring 0 511 path) "/" then []
                else [parent_entry] in
  let dirs := take (MAX_DIR_ENTRIES - length parent) (shown ds) in
  b_entries (browser_load env path)
  = parent
    ++ (if (1 <? length dirs)%nat then qsort_entries dirs else dirs)
    ++ (if (length (parent ++ dirs) <? MAX_DIR_ENTRIES)%nat
        then [export_entry] else []).
Proof.
  intros Hread parent dirs. unfold browser_load. rewrite Hread.
  cbn [b_entries].
  rewrite load_entries_shown. fold parent_entry export_entry.
  fold parent. fold dirs.
  set (sorted := if (1 <? length dirs)%nat then qsort_entries dirs else dirs).
  assert (Hlen : length sorted = length dirs).
  { subst sorted. destruct (1 <? length dirs)%nat; [|done].
    apply qsort_entries_length. }
  assert (Hsort :
    (let ents := parent ++ dirs in
     let start := match ents with
                  | e :: _ => if streq (de_name e) ".." then 1%nat else 0%nat
                  | [] => 0%nat
                  end in
     if (1 <? length ents - start)%nat
     then take start ents ++ qsort_entries (drop start ents)
     else ents) = parent ++ sorted).
  { subst parent sorted. destruct (streq (String.substring 0 511 path) "/").
    - cbn [app length] in *.
      assert (Hstart : match dirs with
                       | e :: _ => if streq (de_name e) ".." then 1%nat
                                   else 0%nat
                       | [] => 0%nat
                       end = 0%nat).
      { destruct dirs as [|e dirs'] eqn:Hd; [done|].
        assert (He : e ∈ shown ds).
        { apply (subseteq_take (MAX_DIR_ENTRIES - 0) (shown ds)).
          fold dirs. rewrite Hd. by left. }
        apply shown_not_parent in He as (_ & -> & _). done. }
      rewrite Hstart, Nat.sub_0_r. cbn [take drop app]. done.
    - cbn [app length de_name parent_entry take drop] in *.
      change (streq ".." "..") with true. cbn [take drop app].
      replace (S (length dirs) - 1)%nat with (length dirs) by lia.
      by destruct (1 <? length dirs)%nat. }
  cbv zeta in Hsort. rewrite Hsort.
  rewrite !length_app, Hlen, <- app_assoc.
  by destruct (length parent + length dirs <? MAX_DIR_ENTRIES)%nat;
    [|rewrite app_nil_r].
Qed.

(** X10: When [opendir] succeeds the listing [browser_load] builds is, in
    this order: [".."] unless the (truncated) path is ["/"]; the visible
    subdirectories that [readdir] yields, cut off so that at most 256
    entries are held and ordered by [dir_entry_cmp]; and the export entry
    if there is room for it.  The selection and the scroll offset are
    reset to 0. *)
Theorem browser_load_listing (env : wizard_env) (path : string)
    (ds : list (string * bool)) :
  readdir env path = Some ds →
  let b := browser_load env path in
  let parent := if streq (String.substring 0 511 path) "/" then []
                else [parent_entry] in
  let dirs := take (MAX_DIR_ENTRIES - length parent) (shown ds) in
  b_path b = String.substring 0 511 path ∧
  b_selected b = 0 ∧ b_scroll b = 0 ∧
  ∃ sorted, sorted ≡ₚ dirs ∧ Sorted entry_le sorted ∧
    b_entries b
    = parent ++ sorted
      ++ (if (length (parent ++ dirs) <? MAX_DIR_ENTRIES)%nat
          then [export_entry] else []).
Proof.
  intros Hread b parent dirs. subst b.
  pose proof (browser_load_entries env path ds Hread) as Hents.
  cbv zeta in Hents. fold parent dirs in Hents.
  assert (Hhead : b_path (browser_load env path) = String.substring 0 511 path
                  ∧ b_selected (browser_load env path) = 0
                  ∧ b_scroll (browser_load env path) = 0).
  { unfold browser_load. rewrite Hread. by repeat split. }
  destruct Hhead as (Hpath & Hsel & Hscroll).
  split; [done|]. split; [done|]. split; [done|].
  destruct (sort_step_sorted dirs) as (sorted & Hperm & Hsorted & Hstep).
  exists sorted. split; [done|]. split; [done|].
  by rewrite Hents, Hstep.
Qed.

Lemma browser_load_listing_witness :
  ∃ sorted, sorted ≡ₚ [mkDirEntry "roms" true] ∧ Sorted entry_le sorted ∧
    b_entries
      (browser_load
         (mkEnv true 1 false
            (fun _ => Some [("roms", true); (".cache", true);
                            ("notes.txt", false)])
            (fun _ => true)) "/mnt")
    = [parent_entry] ++ sorted ++ [export_entry].
Proof.
  exact (proj2 (proj2 (proj2
    (browser_load_listing
       (mkEnv true 1 false
          (fun _ => Some [("roms", true); (".cache", true);
                          ("notes.txt", false)])
          (fun _ => true)) "/mnt" _ eq_refl)))).
Defined.

(** *** Paths *)

Lemma string_length_app (a b : string) :
  String.length (a +:+ b) = (String.length a + String.length b)%nat.
Proof.
  induction a as [|c a IH]; [done|].
  rewrite append_cons. cbn [String.length]. by rewrite IH.
Qed.

Lemma substring_0_all (n : nat) (s : string) :
  (String.length s ≤ n)%nat → String.substring 0 n s = s.
Proof.
  revert n. induction s as [|c s IH]; intros [|n] H; try done.
  - cbn [String.length] in H. lia.
  - rewrite substring_cons, IH; [done|]. cbn [String.length] in H. lia.
Qed.

Lemma substring_0_length (n : nat) (s : string) :
  (String.length (String.substring 0 n s) ≤ n)%nat.
Proof.
  revert n. induction s as [|c s IH]; intros [|n]; cbn; try lia.
  specialize (IH n). lia.
Qed.

Lemma substring_0_app (a b : string) :
  String.substring 0 (String.length a) (a +:+ b) = a.
Proof.
  induction a as [|c a IH].
  - by destruct b.
  - rewrite append_cons. cbn [String.length]. by rewrite substring_cons, IH.
Qed.

Lemma strrchr_slash_app (a b : string) :
  strrchr_slash (a +:+ b)
  = match strrchr_slash b with
    | Some i => Some (String.length a + i)%nat
    | None => strrchr_slash a
    end.
Proof.
  induction a as [|c a IH].
  - change ("" +:+ b) with b. by destruct (strrchr_slash b).
  - rewrite append_cons. cbn [strrchr_slash String.length]. rewrite IH.
    by destruct (strrchr_slash b).
Qed.

Lemma strrchr_slash_substring (n : nat) (s : string) :
  strrchr_slash s = None → strrchr_slash (String.substring 0 n s) = None.
Proof.
  revert n. induction s as [|c s IH]; intros [|n]; try done.
  rewrite substring_cons. cbn [strrchr_slash].
  destruct (strrchr_slash s); [done|].
  destruct (nat_of_ascii c =? 47)%nat; [done|]. intros _. by rewrite IH.
Qed.

(** Going up from [p/name] leads back to [p]. *)
Lemma parent_path_child (p name : string) :
  strrchr_slash name = None →
  parent_path (p +:+ "/" +:+ name) = (if streq p "" then "/" else p).
Proof.
  intros Hname. unfold parent_path. rewrite strrchr_slash_app.
  change ("/" +:+ name) with (String "/" name).
  cbn [strrchr_slash]. rewrite Hname.
  change (nat_of_ascii "/" =? 47)%nat with true. cbv iota.
  rewrite Nat.add_0_r.
  destruct p as [|c p]; [done|].
  change (streq (String c p) "") with false. cbv iota.
  cbn [String.length].
  change (S (String.length p)) with (String.length (String c p)).
  apply substring_0_app.
Qed.

Lemma frame_nav_quiet (env : wizard_env) (fr : frame) (app : GuimapApp) :
  f_joy fr = [] → frame_nav env fr app = (app, 0, false).
Proof.
  intros H. unfold frame_nav. rewrite H. cbn [read_joystick_nav].
  destruct (joy_found env); by destruct app.
Qed.

Lemma browse_scroll_load (env : wizard_env) (path : string) :
  browse_scroll (browser_load env path) = browser_load env path.
Proof.
  assert (H : b_selected (browser_load env path) = 0
              ∧ b_scroll (browser_load env path) = 0).
  { unfold browser_load. destruct (readdir env path); split; reflexivity. }
  destruct H as [Hsel Hscr]. unfold browse_scroll. rewrite Hsel, Hscr.
  cbv iota. cbn [Z.ltb Z.compare]. rewrite Hsel, Hscr. reflexivity.
Qed.

Lemma parent_path_child_path (p name : string) :
  strrchr_slash name = None → p ≠ "" → (String.length p ≤ 250)%nat →
  parent_path (child_path p name) = p ∧
  String.substring 0 511 (child_path p name) = child_path p name.
Proof.
  intros Hname Hp Hlen. unfold child_path.
  pose proof (strrchr_slash_substring 250 name Hname) as Hsub.
  pose proof (substring_0_length 250 name) as Hl.
  destruct (String.eqb_spec p "/") as [->|Hroot]; unfold streq.
  - rewrite String.eqb_refl. split.
    + change ("/" +:+ String.substring 0 250 name)
        with ("" +:+ "/" +:+ String.substring 0 250 name).
      by rewrite (parent_path_child "" _ Hsub).
    + apply substring_0_all. rewrite string_length_app. cbn [String.length].
      lia.
  - apply String.eqb_neq in Hroot. rewrite Hroot.
    rewrite (substring_0_all 250 p Hlen). split.
    + rewrite (parent_path_child p _ Hsub).
      destruct p; [done|done].
    + apply substring_0_all. rewrite !string_length_app.
      cbn [String.length]. lia.
Qed.

(** X11: In the directory browser, Enter on a subdirectory opens
    [path/name], and Left or Backspace in the next frame leads back to the
    listing of [path], provided the path has at most 250 characters and
    the entry's name holds no ['/']. *)
Theorem enter_then_up_returns (env : wizard_env) (fr1 fr2 : frame)
    (w : wizard) (e : DirEntry) :
  let b := browser (w_app w) in
  state (w_app w) = GUIMAP_BROWSE →
  b_entries b !! Z.to_nat (b_selected b) = Some e →
  de_is_dir e = true → streq (de_name e) ".." = false →
  strrchr_slash (de_name e) = None →
  b_path b ≠ "" → (String.length (b_path b) ≤ 250)%nat →
  f_key fr1 = KEY_ENTER → f_joy fr1 = [] →
  f_key fr2 = KEY_LEFT ∨ f_key fr2 = KEY_BACKSPACE → f_joy fr2 = [] →
  browser (w_app (guimap_loop env [fr1] w))
  = browser_load env (child_path (b_path b) (de_name e)) ∧
  browser (w_app (guimap_loop env [fr1; fr2] w))
  = browser_load env (b_path b) ∧
  state (w_app (guimap_loop env [fr1; fr2] w)) = GUIMAP_BROWSE.
Proof.
  intros b Hst He Hdir Hname Hslash Hp Hlen Hk1 Hj1 Hk2 Hj2.
  destruct (parent_path_child_path (b_path b) (de_name e) Hslash Hp Hlen)
    as [Hup Hcut].
  assert (H1 : guimap_frame env fr1 w
               = (mkWizard
                    (set_browser
                       (browser_load env (child_path (b_path b) (de_name e)))
                       (w_app w))
                    (w_map w) (w_files w), false)).
  { unfold guimap_frame. rewrite Hst. unfold frame_browse.
    rewrite (frame_nav_quiet env fr1 _ Hj1), Hk1.
    change ((KEY_ENTER =? KEY_UP) || (0 <? 0)) with false.
    change ((KEY_ENTER =? KEY_DOWN) || (0 >? 0)) with false.
    change ((KEY_ENTER =? KEY_ENTER) || false) with true.
    cbv iota. fold b. rewrite He, Hname, Hdir. fold (child_path (b_path b) (de_name e)).
    wizard_fields. by rewrite browse_scroll_load. }
  assert (Hpath : b_path (browser_load env (child_path (b_path b) (de_name e)))
                  = child_path (b_path b) (de_name e)).
  { unfold browser_load. rewrite Hcut. by destruct (readdir env _). }
  assert (H2 : guimap_frame env fr2
                 (mkWizard
                    (set_browser
                       (browser_load env (child_path (b_path b) (de_name e)))
                       (w_app w))
                    (w_map w) (w_files w))
               = (mkWizard
                    (set_browser (browser_load env (b_path b)) (w_app w))
                    (w_map w) (w_files w), false)).
  { unfold guimap_frame. wizard_fields. rewrite Hst.
    unfold frame_browse. rewrite (frame_nav_quiet env fr2 _ Hj2).
    wizard_fields. rewrite Hpath, Hup.
    destruct Hk2 as [-> | ->].
    - change ((KEY_LEFT =? KEY_UP) || (0 <? 0)) with false.
      change ((KEY_LEFT =? KEY_DOWN) || (0 >? 0)) with false.
      change ((KEY_LEFT =? KEY_ENTER) || false) with false.
      change ((KEY_LEFT =? KEY_LEFT) || (KEY_LEFT =? KEY_BACKSPACE))
        with true.
      cbv iota. wizard_fields. rewrite browse_scroll_load.
      unfold set_browser. by wizard_fields.
    - change ((KEY_BACKSPACE =? KEY_UP) || (0 <? 0)) with false.
      change ((KEY_BACKSPACE =? KEY_DOWN) || (0 >? 0)) with false.
      change ((KEY_BACKSPACE =? KEY_ENTER) || false) with false.
      change ((KEY_BACKSPACE =? KEY_LEFT) || (KEY_BACKSPACE =? KEY_BACKSPACE))
        with true.
      cbv iota. wizard_fields. rewrite browse_scroll_load.
      unfold set_browser. by wizard_fields. }
  cbn [guimap_loop]. rewrite H1, H2. by wizard_fields.
Qed.

Lemma enter_then_up_returns_witness :
  browser
    (w_app
       (guimap_loop
          (mkEnv true 1 false
          (fun p => if streq p "/mnt" then Some [("roms", true)] else Some [])
          (fun _ => true))
          [mkFrame KEY_ENTER []; mkFrame KEY_LEFT []]
          (mkWizard
          (set_browser
             (set_selected 1
                (browser_load
                   (mkEnv true 1 false
                      (fun p => if streq p "/mnt" then Some [("roms", true)]
                                else Some [])
                      (fun _ => true)) "/mnt"))
             (set_state GUIMAP_BROWSE review_app))
          init_mappings [])))
  = browser_load
      (mkEnv true 1 false
          (fun p => if streq p "/mnt" then Some [("roms", true)] else Some [])
          (fun _ => true)) "/mnt".
Proof.
  pose (env := (mkEnv true 1 false
          (fun p => if streq p "/mnt" then Some [("roms", true)] else Some [])
          (fun _ => true))).
  pose (w := (mkWizard
          (set_browser
             (set_selected 1
                (browser_load
                   (mkEnv true 1 false
                      (fun p => if streq p "/mnt" then Some [("roms", true)]
                                else Some [])
                      (fun _ => true)) "/mnt"))
             (set_state GUIMAP_BROWSE review_app))
          init_mappings [])).
  assert (Hp : b_path (browser (w_app w)) ≠ "") by discriminate.
  assert (Hlen : (String.length (b_path (browser (w_app w))) ≤ 250)%nat)
    by (vm_compute; lia).
  exact (proj1 (proj2
    (enter_then_up_returns env (mkFrame KEY_ENTER [])
       (mkFrame KEY_LEFT []) w (mkDirEntry "roms" true)
       eq_refl eq_refl eq_refl eq_refl eq_refl Hp Hlen
       eq_refl eq_refl (or_introl eq_refl) eq_refl))).
Defined.

(** ** Joystick navigation *)

Lemma stick_rests_last_zone (evs : list input_event) (prev : Z) :
  stick_rests evs prev = true → last_zone evs prev = prev.
Proof.
  induction evs as [|ev evs IH]; [done|].
  unfold stick_rests, last_zone in *. cbn [forallb foldl].
  intros H. apply andb_prop in H as [Hev Hrest].
  destruct (is_abs_y ev); cbn [negb orb] in Hev; [|by apply IH].
  apply Z.eqb_eq in Hev. rewrite Hev. by apply IH.
Qed.

Lemma read_joystick_nav_cons (ev : input_event) (rest : list input_event)
    (prev nav_dy : Z) (nav_confirm : bool) :
  (is_abs_y ev = true → INT_MIN + AXIS_CENTER ≤ ev_value ev ≤ INT_MAX) →
  read_joystick_nav (ev :: rest) prev nav_dy nav_confirm
  = if is_abs_y ev then
      if negb (stick_zone (ev_value ev) =? prev)
      then read_joystick_nav rest (stick_zone (ev_value ev))
             (stick_zone (ev_value ev)) nav_confirm
      else read_joystick_nav rest prev nav_dy nav_confirm
    else if is_trigger_press ev
    then read_joystick_nav rest prev nav_dy true
    else read_joystick_nav rest prev nav_dy nav_confirm.
Proof.
  intros Hr. cbn [read_joystick_nav]. cbv zeta.
  change ((ev_type ev =? EV_ABS) && (ev_code ev =? ABS_Y))
    with (is_abs_y ev).
  destruct (is_abs_y ev); [|reflexivity].
  rewrite int32_small; [reflexivity|].
  specialize (Hr eq_refl). unfold INT_MIN, INT_MAX, AXIS_CENTER in *. lia.
Qed.

Lemma abs_y_not_trigger (ev : input_event) :
  is_abs_y ev = true → is_trigger_press ev = false.
Proof.
  unfold is_abs_y, is_trigger_press. intros H.
  apply andb_prop in H as [Ht _]. apply Z.eqb_eq in Ht. by rewrite Ht.
Qed.

(** X12: [read_joystick_nav] is edge-triggered.  For ABS_Y values from
    which the centre can be taken off within the range of [int], the zone
    it remembers is the one the last ABS_Y event leaves the stick in; the
    movement it reports is that zone if some ABS_Y event of the frame took
    the stick out of the remembered zone, and is left as it was otherwise,
    so a stick held in place does not repeat the movement; the
    confirmation is set by any trigger press.  A stick at rest leaves the
    remembered zone unchanged. *)
Theorem joystick_nav_edge_triggered (evs : list input_event)
    (prev nav_dy : Z) (nav_confirm : bool) :
  stick_in_range evs →
  read_joystick_nav evs prev nav_dy nav_confirm
  = (last_zone evs prev,
     if stick_rests evs prev then nav_dy else last_zone evs prev,
     nav_confirm || existsb is_trigger_press evs) ∧
  (stick_rests evs prev = true → last_zone evs prev = prev).
Proof.
  intros Hrange. split; [|apply stick_rests_last_zone].
  revert prev nav_dy nav_confirm.
  induction Hrange as [|ev evs Hev _ IH]; intros prev dy c.
  - cbn [read_joystick_nav last_zone stick_rests forallb existsb foldl].
    by rewrite orb_false_r.
  - rewrite (read_joystick_nav_cons ev evs prev dy c Hev).
    change (last_zone (ev :: evs) prev)
      with (last_zone evs (if is_abs_y ev then stick_zone (ev_value ev)
                           else prev)).
    change (stick_rests (ev :: evs) prev)
      with ((negb (is_abs_y ev) || (stick_zone (ev_value ev) =? prev))
            && stick_rests evs prev).
    cbn [existsb].
    destruct (is_abs_y ev) eqn:Habs; cbn [negb orb].
    + rewrite (abs_y_not_trigger ev Habs). cbn [orb].
      destruct (Z.eqb_spec (stick_zone (ev_value ev)) prev) as [Hz|Hz];
        cbn [negb andb]; rewrite IH; [by rewrite Hz|].
      pose proof (stick_rests_last_zone evs (stick_zone (ev_value ev)))
        as Hrest.
      destruct (stick_rests evs (stick_zone (ev_value ev))); [|done].
      by rewrite (Hrest eq_refl).
    + cbn [andb]. destruct (is_trigger_press ev); rewrite IH; cbn [orb];
        [by rewrite orb_true_r|done].
Qed.

(** The stick pushed down and held there, then the trigger: one movement
    down and the confirmation. *)
Lemma joystick_nav_edge_triggered_witness :
  read_joystick_nav [mkEvent EV_ABS ABS_Y 255; mkEvent EV_ABS ABS_Y 255;
                     mkEvent EV_KEY BTN_TRIGGER 1] 0 0 false
  = (1, 1, true).
Proof.
  assert (Hr : stick_in_range [mkEvent EV_ABS ABS_Y 255;
                               mkEvent EV_ABS ABS_Y 255;
                               mkEvent EV_KEY BTN_TRIGGER 1]).
  { unfold stick_in_range, INT_MIN, INT_MAX, AXIS_CENTER.
    repeat constructor; cbn [ev_value]; lia. }
  exact (proj1 (joystick_nav_edge_triggered _ 0 0 false Hr)).
Defined.

(** ** Translation engine: what reaches the device *)

Lemma flushed_nil : flushed [].
Proof. split; [constructor|by left]. Qed.

Lemma flushed_app (a b : list input_event) :
  flushed a → flushed b → flushed (a ++ b).
Proof.
  intros [Ha Hla] [Hb Hlb]. split; [by apply Forall_app|].
  destruct Hlb as [->|Hlb]; [by rewrite app_nil_r|].
  right. destruct b as [|x b]; [done|]. by rewrite last_app_cons.
Qed.

Lemma release_report_flushed (g : list Mapping) :
  table_wf g → flushed (release_report g).
Proof.
  intros H. explicit_table g H. split; [|by right].
  unfold release_report. cbn [seq fmap list_fmap app NUM_DIRECTIONS
    NUM_BUTTONS slot nth btn_code set_keycode null_mapping].
  repeat constructor.
Qed.

Lemma button_report_flushed (g : list Mapping) (pressed : bool) (b : nat) :
  table_wf g → (NUM_DIRECTIONS ≤ b < NUM_MAPPINGS)%nat →
  flushed (button_report g pressed b).
Proof.
  intros H Hb. unfold button_report. rewrite (btn_code_wf g b H Hb).
  split; [|by right].
  unfold NUM_DIRECTIONS, NUM_MAPPINGS in Hb.
  do 8 (destruct b as [|b]; [lia|]).
  do 8 (destruct b as [|b]; [by destruct pressed; repeat constructor|]).
  lia.
Qed.

Lemma button_reports_flushed (g : list Mapping) (code : Z) (pressed : bool)
    (l : list nat) :
  table_wf g → (∀ b, b ∈ l → (NUM_DIRECTIONS ≤ b < NUM_MAPPINGS)%nat) →
  flushed (button_reports g code pressed l).
Proof.
  intros H. induction l as [|b l IH]; intros Hl; [apply flushed_nil|].
  unfold button_reports. cbn [flat_map]. apply flushed_app.
  - destruct (code =? keycode (slot g b)); [|apply flushed_nil].
    apply button_report_flushed; [done|]. apply Hl. by left.
  - apply IH. intros b' Hb'. apply Hl. by right.
Qed.

Lemma axis_report_flushed (g : list Mapping) (held : list bool) :
  flushed (axis_report g held).
Proof.
  unfold axis_report, axes_of. split; [|by right].
  generalize (clamp1 (axis_sums g held).1), (clamp1 (axis_sums g held).2).
  intros x y. unfold axis_value.
  destruct (x <? 0), (x >? 0), (y <? 0), (y >? 0); by repeat constructor.
Qed.

Lemma extends_refl (st : engine) : extends st st.
Proof.
  split; [done|]. split; [done|]. split; [done|].
  exists []. split; [by rewrite app_nil_r|apply flushed_nil].
Qed.

Lemma extends_silent (st st' : engine) :
  g_map st' = g_map st →
  length (g_kbd_grabbed st') = length (g_kbd_grabbed st) →
  g_dir_held st' = g_dir_held st → uinput st' = uinput st →
  extends st st'.
Proof.
  intros Hm Hk Hd Hu. split; [done|]. split; [done|].
  split; [by rewrite Hd|].
  exists []. split; [by rewrite app_nil_r|apply flushed_nil].
Qed.

Lemma extends_trans (st1 st2 st3 : engine) :
  extends st1 st2 → extends st2 st3 → extends st1 st3.
Proof.
  intros (Hm1 & Hk1 & Hd1 & e1 & Hu1 & Hf1) (Hm2 & Hk2 & Hd2 & e2 & Hu2 & Hf2).
  split; [congruence|]. split; [congruence|]. split; [auto|].
  exists (e1 ++ e2). split; [by rewrite Hu2, Hu1, app_assoc|].
  by apply flushed_app.
Qed.

Lemma check_directions_length (g : list Mapping) (code : Z) (pressed : bool)
    (held : list bool) (dirty : bool) :
  length (check_directions g code pressed held dirty).1 = length held.
Proof.
  unfold check_directions. generalize (seq 0 NUM_DIRECTIONS). intros l.
  revert held dirty. induction l as [|d l IH]; intros held dirty; [done|].
  cbn [foldl]. unfold check_direction at 2. cbn [fst].
  destruct (code =? keycode (slot g d)); [|apply IH].
  destruct (negb (eqb (held_at held d) pressed)); [|apply IH].
  by rewrite IH, length_insert.
Qed.

Lemma handle_event_extends (ioctl_grab : nat → bool) (ev : input_event)
    (st : engine) (dirty : bool) :
  table_wf (g_map st) →
  extends st (handle_event ioctl_grab ev st dirty).1.1.
Proof.
  intros Hwf. unfold handle_event.
  destruct (negb (ev_type ev =? EV_KEY)); [apply extends_refl|].
  destruct (ev_value ev =? 2); [apply extends_refl|].
  destruct ((ev_code ev =? KEY_LEFTCTRL) || (ev_code ev =? KEY_RIGHTCTRL));
    [by apply extends_silent|].
  destruct ((ev_code ev =? KEY_S) && (ev_value ev =? 1) && g_ctrl_held st).
  { destruct (negb (g_suspended st)); cbn [fst].
    - rewrite release_center. unfold extends, clear_dir_held.
      cbn. rewrite length_fmap. split; [done|]. split; [done|].
      split; [done|]. eexists. split; [done|].
      by apply release_report_flushed.
    - apply extends_silent; try done.
      cbn. by rewrite length_fmap, length_seq. }
  destruct ((ev_code ev =? KEY_R) && (ev_value ev =? 1) && g_ctrl_held st);
    [by apply extends_silent|].
  destruct (g_suspended st); [apply extends_refl|].
  cbn [fst]. unfold check_buttons. rewrite check_buttons_fold.
  unfold extends. cbn [g_map g_kbd_grabbed g_dir_held uinput set_dir_held].
  split; [done|]. split; [done|].
  split; [by rewrite check_directions_length|].
  eexists. split; [done|].
  apply button_reports_flushed; [done|].
  intros b Hb. apply elem_of_seq in Hb.
  unfold NUM_DIRECTIONS, NUM_BUTTONS, NUM_MAPPINGS in *. lia.
Qed.

Lemma read_loop_extends (ioctl_grab : nat → bool) (q : list input_event)
    (st : engine) (dirty : bool) :
  table_wf (g_map st) → extends st (read_loop ioctl_grab q st dirty).1.1.
Proof.
  revert st dirty. induction q as [|ev q IH]; intros st dirty Hwf;
    cbn [read_loop]; [apply extends_refl|].
  pose proof (handle_event_extends ioctl_grab ev st dirty Hwf) as Hev.
  destruct (handle_event ioctl_grab ev st dirty) as [[st' dirty'] out].
  cbn [fst] in Hev.
  destruct out; try done.
  apply (extends_trans _ st'); [done|]. apply IH.
  destruct Hev as [-> _]. done.
Qed.

Lemma kbd_loop_extends (ioctl_grab : nat → bool)
    (qs : list (list input_event)) (st : engine) (dirty : bool) :
  table_wf (g_map st) → extends st (kbd_loop ioctl_grab qs st dirty).1.1.
Proof.
  revert st dirty. induction qs as [|q qs IH]; intros st dirty Hwf;
    cbn [kbd_loop]; [apply extends_refl|].
  pose proof (read_loop_extends ioctl_grab q st dirty Hwf) as Hq.
  destruct (read_loop ioctl_grab q st dirty) as [[st' dirty'] out].
  cbn [fst] in Hq.
  destruct out; try done.
  apply (extends_trans _ st'); [done|]. apply IH.
  destruct Hq as [-> _]. done.
Qed.

Lemma tick_extends (ioctl_grab : nat → bool) (qs : list (list input_event))
    (st : engine) :
  table_wf (g_map st) → extends st (tick ioctl_grab qs st).1.
Proof.
  intros Hwf. unfold tick.
  pose proof (kbd_loop_extends ioctl_grab qs st false Hwf) as Hk.
  destruct (kbd_loop ioctl_grab qs st false) as [[st' dirty] out].
  cbn [fst] in Hk.
  assert (Hrecalc : extends st (if dirty then recalc_and_emit_axes st'
                                else st')).
  { destruct dirty; [|done]. apply (extends_trans _ st'); [done|].
    rewrite recalc_emits. unfold extends. cbn.
    split; [done|]. split; [done|]. split; [done|].
    eexists. split; [done|]. apply axis_report_flushed. }
  by destruct out.
Qed.

Lemma inner_loop_extends (ioctl_grab : nat → bool)
    (qss : list (list (list input_event))) (st : engine) :
  table_wf (g_map st) → extends st (inner_loop ioctl_grab qss st).1.
Proof.
  revert st. induction qss as [|qs qss IH]; intros st Hwf;
    cbn [inner_loop]; [apply extends_refl|].
  pose proof (tick_extends ioctl_grab qs st Hwf) as Ht.
  destruct (tick ioctl_grab qs st) as [st' []]; cbn [fst] in *; [done|].
  apply (extends_trans _ st'); [done|]. apply IH.
  destruct Ht as [-> _]. done.
Qed.

(** X13: Whatever the keyboards deliver, chords included, the translation
    loop leaves the mapping table and the number of keyboards as they are,
    keeps the eight held flags eight, and only appends to what was written
    to the virtual joystick; what it appends are events the device was
    configured for (a flush, 0 or 1 for one of the buttons 288..299, an
    axis value within 0..255, the scan code), and the last of them is a
    flush. *)
Theorem translation_extends_trace (ioctl_grab : nat → bool)
    (qss : list (list (list input_event))) (st : engine) :
  table_wf (g_map st) →
  extends st (inner_loop ioctl_grab qss st).1 ∧
  table_wf (g_map (inner_loop ioctl_grab qss st).1).
Proof.
  intros Hwf. pose proof (inner_loop_extends ioctl_grab qss st Hwf) as H.
  split; [done|]. destruct H as [-> _]. done.
Qed.

Lemma translation_extends_trace_witness :
  extends engine_start
    (inner_loop (fun _ => true)
       [[[press KEY_LEFTCTRL; press KEY_S; press KEY_W]];
        [[press KEY_S; press KEY_7; mkEvent EV_KEY KEY_7 0]]]
       engine_start).1.
Proof.
  exact (proj1 (translation_extends_trace (fun _ => true) _ engine_start
                  table_wf_init)).
Defined.

(** ** Remap session and shutdown *)

Lemma suspend_translation_eq (st : engine) :
  suspend_translation st
  = mkEngine (g_map st) (replicate NUM_DIRECTIONS false) false false []
             (uinput st ++ release_report (g_map st)).
Proof. unfold suspend_translation. by rewrite release_center. Qed.

Lemma guimap_run_table_wf (env : wizard_env) (frames : list frame)
    (g : list Mapping) (fs : list file) :
  table_wf g → table_wf (guimap_run env frames g fs).1.1.
Proof.
  intros H. unfold guimap_run.
  destruct (negb (fb_ok env)); [done|].
  destruct (kbd_found env =? 0)%nat; [done|].
  apply (guimap_loop_ok env frames _ (wizard_ok_initial g fs H)).
Qed.

Lemma remap_session_eq (ioctl_grab : nat → bool) (env : wizard_env)
    (frames : list frame) (rescan : nat) (st : engine) (fs : list file) :
  remap_session ioctl_grab env frames rescan st fs
  = (mkEngine
       (if (guimap_run env frames (g_map st) fs).2 =? 0
        then (guimap_run env frames (g_map st) fs).1.1 else g_map st)
       (replicate NUM_DIRECTIONS false) false false
       (ioctl_grab <$> seq 0 rescan)
       (uinput st ++ release_report (g_map st)),
     (guimap_run env frames (g_map st) fs).1.2).
Proof.
  unfold remap_session. rewrite suspend_translation_eq. cbn [g_map].
  generalize (guimap_run env frames (g_map st) fs).
  intros [[g' fs'] res]. cbn [fst snd].
  unfold grab_keyboards, set_kbd_grabbed, set_map.
  cbn [g_map g_dir_held g_ctrl_held g_suspended g_kbd_grabbed uinput].
  rewrite length_replicate.
  by destruct (res =? 0).
Qed.

(** X14: A remap session restarts translation from a clean state: the
    release-all report is written once, every held flag, the control flag
    and the pause flag are cleared, the keyboards found by the new scan
    are grabbed as the driver allows, the table is the wizard's if it
    returned 0 and the former one otherwise, and in both cases differs
    from the built-in table in key codes only. *)
Theorem remap_session_restart (ioctl_grab : nat → bool) (env : wizard_env)
    (frames : list frame) (rescan : nat) (st : engine) (fs : list file) :
  table_wf (g_map st) →
  let res := guimap_run env frames (g_map st) fs in
  let st' := (remap_session ioctl_grab env frames rescan st fs).1 in
  g_map st' = (if res.2 =? 0 then res.1.1 else g_map st) ∧
  table_wf (g_map st') ∧
  g_dir_held st' = replicate NUM_DIRECTIONS false ∧
  g_ctrl_held st' = false ∧ g_suspended st' = false ∧
  g_kbd_grabbed st' = ioctl_grab <$> seq 0 rescan ∧
  uinput st' = uinput st ++ release_report (g_map st) ∧
  (remap_session ioctl_grab env frames rescan st fs).2 = res.1.2.
Proof.
  intros Hwf res st'. subst res st'. rewrite remap_session_eq.
  cbn [fst snd g_map g_dir_held g_ctrl_held g_suspended g_kbd_grabbed uinput].
  pose proof (guimap_run_table_wf env frames (g_map st) fs Hwf) as Hwf'.
  repeat split. by destruct (_ =? 0).
Qed.

Lemma remap_session_restart_witness :
  uinput
    (remap_session (fun _ => true)
       (mkEnv true 1 false (fun _ => None) (fun _ => true))
       [mkFrame KEY_K []] 2 engine_start []).1
  = uinput engine_start ++ release_report (g_map engine_start).
Proof.
  exact (proj1 (proj2 (proj2 (proj2 (proj2 (proj2 (proj2
    (remap_session_restart (fun _ => true)
       (mkEnv true 1 false (fun _ => None) (fun _ => true))
       [mkFrame KEY_K []] 2 engine_start [] table_wf_init)))))))).
Defined.

Lemma set_bits_Some (sys : uinput_sys) (req : uinput_request)
    (args acc l : list Z) :
  set_bits sys req args acc = Some l →
  l = acc ++ args ∧ ∀ a, a ∈ args → ioctl_ok sys req a = true.
Proof.
  revert acc. induction args as [|a args IH]; intros acc; cbn [set_bits].
  - intros [= <-]. split; [by rewrite app_nil_r|]. intros a Ha.
    by apply elem_of_nil in Ha.
  - destruct (ioctl_ok sys req a) eqn:Hok; [|done]. intros H.
    apply IH in H as [-> Hall]. split; [by rewrite <- app_assoc|].
    intros a' Ha'. apply elem_of_cons in Ha' as [->|Ha']; [done|by apply Hall].
Qed.

Lemma set_bits_all (sys : uinput_sys) (req : uinput_request)
    (args acc : list Z) :
  (∀ a, a ∈ args → ioctl_ok sys req a = true) →
  set_bits sys req args acc = Some (acc ++ args).
Proof.
  revert acc. induction args as [|a args IH]; intros acc Hall;
    cbn [set_bits]; [by rewrite app_nil_r|].
  rewrite (Hall a) by by left. rewrite IH; [by rewrite <- app_assoc|].
  intros a' Ha'. apply Hall. by right.
Qed.

Lemma center_report_flushed : flushed center_report.
Proof. split; [by repeat constructor|by right]. Qed.

Lemma create_virtual_joystick_Some (sys : uinput_sys) (dev : uinput_dev)
    (evs : list input_event) :
  create_virtual_joystick sys = Some (dev, evs) →
  dev = joystick_dev ∧ evs = center_report.
Proof.
  unfold create_virtual_joystick.
  destruct (negb (open_ok sys)); [done|].
  destruct (set_bits sys UI_SET_EVBIT _ _) as [evb|] eqn:H1; [|done].
  destruct (set_bits sys UI_SET_KEYBIT _ _) as [keys|] eqn:H2; [|done].
  destruct (set_bits sys UI_SET_ABSBIT _ _) as [abss|] eqn:H3; [|done].
  destruct (set_bits sys UI_SET_MSCBIT _ _) as [mscs|] eqn:H4; [|done].
  destruct (negb (write_ok sys)); [done|].
  destruct (negb (ioctl_ok sys UI_DEV_CREATE 0)); [done|].
  apply set_bits_Some in H1 as [-> _]. apply set_bits_Some in H2 as [-> _].
  apply set_bits_Some in H3 as [-> _]. apply set_bits_Some in H4 as [-> _].
  by intros [= <- <-].
Qed.

(** X15: [create_virtual_joystick] succeeds exactly when [open], each of
    its 23 [ioctl]s and the [write] of the description succeed.  The device
    it then leaves has the four event types, the twelve buttons 288..299,
    the five axes with range 0..255 and flat 15, and the scan code
    enabled, and the first report written centres all five axes and ends
    with a flush. *)
Theorem create_virtual_joystick_device (sys : uinput_sys) :
  (∀ dev evs, create_virtual_joystick sys = Some (dev, evs) →
     dev = joystick_dev ∧ evs = center_report ∧ flushed evs) ∧
  (create_virtual_joystick sys ≠ None ↔
   open_ok sys = true ∧ write_ok sys = true ∧
   ioctl_ok sys UI_DEV_CREATE 0 = true ∧
   (∀ t, t ∈ evbit joystick_dev → ioctl_ok sys UI_SET_EVBIT t = true) ∧
   (∀ b, b ∈ keybit joystick_dev → ioctl_ok sys UI_SET_KEYBIT b = true) ∧
   (∀ a, a ∈ absbit joystick_dev → ioctl_ok sys UI_SET_ABSBIT a = true) ∧
   (∀ m, m ∈ mscbit joystick_dev → ioctl_ok sys UI_SET_MSCBIT m = true)).
Proof.
  split.
  - intros dev evs H. apply create_virtual_joystick_Some in H as [-> ->].
    split; [done|]. split; [done|]. apply center_report_flushed.
  - unfold create_virtual_joystick. split.
    + destruct (open_ok sys); cbn [negb]; [|done].
      destruct (set_bits sys UI_SET_EVBIT _ _) as [evb|] eqn:H1; [|done].
      destruct (set_bits sys UI_SET_KEYBIT _ _) as [keys|] eqn:H2; [|done].
      destruct (set_bits sys UI_SET_ABSBIT _ _) as [abss|] eqn:H3; [|done].
      destruct (set_bits sys UI_SET_MSCBIT _ _) as [mscs|] eqn:H4; [|done].
      destruct (write_ok sys); cbn [negb]; [|done].
      destruct (ioctl_ok sys UI_DEV_CREATE 0); cbn [negb]; [|done].
      intros _.
      apply set_bits_Some in H1 as [_ H1]. apply set_bits_Some in H2 as [_ H2].
      apply set_bits_Some in H3 as [_ H3]. apply set_bits_Some in H4 as [_ H4].
      done.
    + intros (-> & -> & -> & H1 & H2 & H3 & H4). cbn [negb].
      assert (E1 : set_bits sys UI_SET_EVBIT [EV_KEY; EV_ABS; EV_SYN; EV_MSC]
                     [] = Some (evbit joystick_dev))
        by exact (set_bits_all sys UI_SET_EVBIT _ [] H1).
      assert (E2 : set_bits sys UI_SET_KEYBIT
                     ((fun i => BTN_TRIGGER + Z.of_nat i)
                        <$> seq 0 (Z.to_nat (BTN_BASE6 - BTN_TRIGGER + 1)))
                     [] = Some (keybit joystick_dev))
        by exact (set_bits_all sys UI_SET_KEYBIT _ [] H2).
      assert (E3 : set_bits sys UI_SET_ABSBIT axes []
                   = Some (absbit joystick_dev))
        by exact (set_bits_all sys UI_SET_ABSBIT _ [] H3).
      assert (E4 : set_bits sys UI_SET_MSCBIT [MSC_SCAN] []
                   = Some (mscbit joystick_dev))
        by exact (set_bits_all sys UI_SET_MSCBIT _ [] H4).
      by rewrite E1, E2, E3, E4.
Qed.

Lemma create_virtual_joystick_device_witness :
  create_virtual_joystick (mkSys true (fun _ _ => true) true) ≠ None.
Proof.
  apply (proj2 (proj2 (create_virtual_joystick_device
                         (mkSys true (fun _ _ => true) true)))).
  by repeat split.
Defined.

(** The rounds of the outer loop keep the table well formed and only
    append flushed, accepted events. *)
Lemma outer_loop_grows (ioctl_grab : nat → bool) (rounds : list remap_round)
    (st : engine) (fs : list file) :
  table_wf (g_map st) →
  table_wf (g_map (outer_loop ioctl_grab rounds st fs).1) ∧
  ∃ evs, uinput (outer_loop ioctl_grab rounds st fs).1 = uinput st ++ evs ∧
         flushed evs.
Proof.
  revert st fs. induction rounds as [|r rounds IH]; intros st fs Hwf;
    cbn [outer_loop].
  - split; [done|]. exists []. split; [by rewrite app_nil_r|apply flushed_nil].
  - pose proof (inner_loop_extends ioctl_grab (r_qss r) st Hwf)
      as (Hm & _ & _ & e1 & Hu1 & Hf1).
    destruct (inner_loop ioctl_grab (r_qss r) st) as [st1 []]; cbn [fst] in *;
      [|split; [by rewrite Hm|by exists e1]].
    destruct (r_quit_at_break r);
      [cbn [fst]; split; [by rewrite Hm|by exists e1]|].
    rewrite remap_session_eq.
    assert (Hwf1 : table_wf (g_map st1)) by by rewrite Hm.
    match goal with
    | |- context [outer_loop ioctl_grab rounds ?s ?f] =>
        destruct (IH s f) as (Hwf2 & e2 & Hu2 & Hf2);
        [|assert (Hs : table_wf (g_map s))]
    end.
    1, 2: cbn [g_map]; destruct (_ =? 0); [|done];
      by apply guimap_run_table_wf.
    destruct (guimap_run_quit _ _ _ _); cbn [fst].
    + split; [done|]. exists (e1 ++ release_report (g_map st1)).
      split; [cbn [uinput]; rewrite Hu1; by rewrite <- !app_assoc|].
      apply flushed_app; [done|]. by apply release_report_flushed.
    + split; [done|].
      exists (e1 ++ release_report (g_map st1) ++ e2).
      split.
      * rewrite Hu2. cbn [uinput]. rewrite Hu1. by rewrite <- !app_assoc.
      * apply flushed_app; [done|]. apply flushed_app; [|done].
        by apply release_report_flushed.
Qed.

(** X16: What [normal_run] leaves behind, whatever the keyboards and the
    remap sessions bring.  Without a keyboard or without a device it
    returns 1 and writes nothing.  Otherwise it returns 0; the device is
    the one [create_virtual_joystick] configures; the trace starts with the
    centring report, ends with the release-all report that [cleanup]
    writes at exit, and holds only events the device was configured for,
    the last one a flush; the table differs from the built-in one in key
    codes only and no keyboard is left grabbed. *)
Theorem normal_run_outcome (sys : uinput_sys) (found : nat)
    (ioctl_grab : nat → bool) (rounds : list remap_round)
    (g : list Mapping) (fs : list file) :
  table_wf g → run_outcome sys found ioctl_grab rounds g fs.
Proof.
  intros Hwf. unfold run_outcome, normal_run.
  destruct (Nat.eqb_spec found 0) as [->|Hfound]; [by repeat split; left|].
  destruct (create_virtual_joystick sys) as [[dev evs]|] eqn:Hdev;
    [|by repeat split; right].
  apply create_virtual_joystick_Some in Hdev as [-> ->].
  match goal with
  | |- context [outer_loop ioctl_grab rounds ?s fs] =>
      pose proof (outer_loop_grows ioctl_grab rounds s fs Hwf)
        as (Hwf' & evs & Hu & Hf);
      destruct (outer_loop ioctl_grab rounds s fs) as [st' fs']
  end.
  cbn [fst uinput grab_keyboards set_kbd_grabbed] in Hwf', Hu.
  unfold cleanup. cbn [snd]. rewrite release_center.
  cbn [g_map uinput g_kbd_grabbed set_kbd_grabbed ungrab_keyboards].
  split; [done|]. split; [done|]. split; [done|]. split; [done|].
  rewrite Hu. split.
  - apply flushed_app; [|by apply release_report_flushed].
    apply flushed_app; [apply center_report_flushed|done].
  - split; [|done]. exists evs. by rewrite <- app_assoc.
Qed.

Lemma normal_run_outcome_witness :
  run_outcome (mkSys true (fun _ _ => true) true) 1 (fun _ => true)
    [mkRound [[[press KEY_LEFTCTRL; press KEY_R]]] false
             (mkEnv true 1 false (fun _ => None) (fun _ => true))
             (((fun k => mkFrame k []) <$> replicate 16 KEY_K)
              ++ [mkFrame KEY_A []]) 1;
     mkRound [[[press KEY_K]]] false
             (mkEnv true 1 false (fun _ => None) (fun _ => true)) [] 1]
    init_mappings [].
Proof.
  exact (normal_run_outcome _ _ _ _ _ [] table_wf_init).
Defined.

(** X17: [cleanup] writes the release-all report only while the device is
    open, marks it closed, and leaves no keyboard; run a second time it
    writes nothing and changes nothing. *)
Theorem cleanup_runs_once (fd_open : bool) (st : engine) :
  (cleanup fd_open st).1 = false ∧
  uinput (cleanup fd_open st).2
  = uinput st ++ (if fd_open then release_report (g_map st) else []) ∧
  g_kbd_grabbed (cleanup fd_open st).2 = [] ∧
  g_map (cleanup fd_open st).2 = g_map st ∧
  cleanup (cleanup fd_open st).1 (cleanup fd_open st).2
  = cleanup fd_open st.
Proof.
  unfold cleanup. cbn [fst snd]. destruct fd_open.
  - rewrite release_center. cbn. by repeat split.
  - cbn. rewrite app_nil_r. by repeat split.
Qed.

(** ** Resuming from a pause *)

(** X27: When a paused engine with control held reads a press of the pause
    key, it grabs the keyboards again, clears the pause and the control
    flag, and reads nothing more in that iteration: the events queued
    behind the press, on this and on every other keyboard, are dropped
    without being translated, and nothing is written to the device. *)
Theorem resume_discards_queue (ioctl_grab : nat → bool)
    (post : list input_event) (qs : list (list input_event)) (st : engine) :
  g_suspended st = true → g_ctrl_held st = true →
  tick ioctl_grab ((press KEY_S :: post) :: qs) st
  = (mkEngine (g_map st) (g_dir_held st) false false
              (ioctl_grab <$> seq 0 (length (g_kbd_grabbed st))) (uinput st),
     false).
Proof.
  intros Hs Hc. unfold tick. cbn [kbd_loop read_loop].
  unfold handle_event, press.
  cbn [ev_type ev_value ev_code].
  change (negb (EV_KEY =? EV_KEY)) with false.
  change (1 =? 2) with false.
  change ((KEY_S =? KEY_LEFTCTRL) || (KEY_S =? KEY_RIGHTCTRL)) with false.
  change (KEY_S =? KEY_S) with true. change (1 =? 1) with true.
  rewrite Hc, Hs. cbn [andb negb]. cbv iota.
  reflexivity.
Qed.

Lemma resume_discards_queue_witness :
  tick (fun _ => true) [[press KEY_S; press KEY_7]; [press KEY_W]]
    (mkEngine init_mappings (replicate NUM_DIRECTIONS false) true true
              [false] [])
  = (mkEngine init_mappings (replicate NUM_DIRECTIONS false) false false
              [true] [], false).
Proof.
  exact (resume_discards_queue (fun _ => true) [press KEY_7] [[press KEY_W]]
           (mkEngine init_mappings (replicate NUM_DIRECTIONS false) true true
                     [false] []) eq_refl eq_refl).
Defined.

(** ** Keyboard queues *)

Lemma read_press_spec (q : list input_event) :
  (read_press q = (None, []) ∧ no_press q) ∨
  (∃ pre ev post, q = pre ++ ev :: post ∧ no_press pre ∧
     is_press ev = true ∧ read_press q = (Some (ev_code ev), post)).
Proof.
  induction q as [|ev q IH]; cbn [read_press].
  - left. split; [done|constructor].
  - fold (is_press ev). destruct (is_press ev) eqn:Hev.
    + right. exists [], ev, q. by repeat split; [constructor|..].
    + destruct IH as [[-> Hq]|(pre & ev' & post & -> & Hpre & Hev' & ->)].
      * left. split; [done|]. by constructor.
      * right. exists (ev :: pre), ev', post.
        by repeat split; [constructor|..].
Qed.

(** X18: [read_keyboard_press] returns the code of the first key press in
    keyboard order.  The queues of the keyboards before it are emptied, the
    events before it on its own keyboard are consumed, and everything
    after it stays queued.  If no queue holds a key press, every queue is
    emptied and the result is 0. *)
Theorem read_keyboard_press_first (qs : list (list input_event)) :
  (no_press (concat qs) ∧
   read_keyboard_press qs = (0, drain_keyboard_events qs)) ∨
  (∃ (i : nat) pre ev post,
     qs !! i = Some (pre ++ ev :: post) ∧
     no_press (concat (take i qs) ++ pre) ∧ is_press ev = true ∧
     read_keyboard_press qs
     = (ev_code ev,
        drain_keyboard_events (take i qs) ++ post :: drop (S i) qs)).
Proof.
  induction qs as [|q qs IH]; cbn [read_keyboard_press].
  - left. split; [constructor|done].
  - destruct (read_press_spec q)
      as [[-> Hq]|(pre & ev & post & -> & Hpre & Hev & ->)].
    + destruct IH as [[Hqs ->]|(i & pre & ev & post & Hi & Hno & Hev & ->)].
      * left. split; [|done]. cbn [concat]. by apply Forall_app.
      * right. exists (S i), pre, ev, post. split; [done|].
        split; [|by split].
        cbn [take concat]. rewrite <- app_assoc. by apply Forall_app.
    + right. exists 0%nat, pre, ev, post. split; [done|].
      split; [done|]. by split.
Qed.

(** ** Keyboard detection *)

Lemma land_shiftr_1 (w k : Z) :
  0 ≤ k → Z.land (Z.shiftr w k) 1 = Z.b2z (Z.testbit w k).
Proof.
  intros Hk. change 1 with (Z.ones 1). rewrite Z.land_ones by lia.
  change (2 ^ 1) with 2. rewrite <- Z.bit0_mod.
  by rewrite Z.shiftr_spec, Z.add_0_l by lia.
Qed.

Lemma bitmap_value_low (bpl w v bit : Z) :
  0 ≤ w < 2 ^ bpl → 0 ≤ bit < bpl →
  Z.testbit (w + 2 ^ bpl * v) bit = Z.testbit w bit.
Proof.
  intros Hw Hbit.
  rewrite <- (Z.mod_pow2_bits_low (w + 2 ^ bpl * v) bpl bit) by lia.
  rewrite (Z.mul_comm (2 ^ bpl) v), Z_mod_plus_full.
  by rewrite Z.mod_small.
Qed.

Lemma bitmap_value_high (bpl w v bit : Z) :
  0 ≤ w < 2 ^ bpl → 0 < bpl ≤ bit →
  Z.testbit (w + 2 ^ bpl * v) bit = Z.testbit v (bit - bpl).
Proof.
  intros Hw Hbit.
  replace bit with ((bit - bpl) + bpl) at 1 by lia.
  rewrite <- Z.div_pow2_bits by lia.
  rewrite (Z.mul_comm (2 ^ bpl) v), Z.div_add by lia.
  by rewrite Z.div_small, Z.add_0_l.
Qed.

Lemma TEST_BIT_spec (bpl : Z) (a : list Z) (bit : Z) :
  0 < bpl → words bpl a → 0 ≤ bit →
  TEST_BIT bpl bit a = Z.b2z (Z.testbit (bitmap_value bpl a) bit).
Proof.
  intros Hbpl Ha. revert bit. unfold TEST_BIT.
  induction Ha as [|w a Hw Ha IH]; intros bit Hbit.
  - cbn [bitmap_value]. rewrite Z.testbit_0_l.
    destruct (Z.to_nat (bit / bpl)); cbn [nth];
      by rewrite Z.shiftr_0_l.
  - cbn [bitmap_value]. destruct (Z.lt_ge_cases bit bpl) as [Hlt|Hge].
    + rewrite Z.div_small, Z.mod_small by lia. cbn [Z.to_nat nth].
      rewrite land_shiftr_1 by lia. by rewrite bitmap_value_low by lia.
    + rewrite bitmap_value_high by lia. rewrite <- IH by lia.
      replace bit with ((bit - bpl) + 1 * bpl) at 1 2 by lia.
      rewrite Z.div_add, Z_mod_plus_full by lia.
      rewrite Z2Nat.inj_add by (try apply Z.div_pos; lia).
      rewrite Nat.add_comm. cbn [Z.to_nat Pos.to_nat Pos.iter_op Nat.add nth].
      done.
Qed.

Lemma is_keyboard_spec (bpl : Z) (evbits keybits : option (list Z)) :
  0 < bpl →
  (∀ a, evbits = Some a → words bpl a) →
  (∀ a, keybits = Some a → words bpl a) →
  is_keyboard bpl evbits keybits
  = Z.b2z (has_bit bpl evbits EV_KEY && has_bit bpl keybits KEY_Q
           && has_bit bpl keybits KEY_A).
Proof.
  intros Hbpl Hev Hkb. unfold is_keyboard, has_bit.
  destruct evbits as [ev|]; [|done].
  rewrite (TEST_BIT_spec bpl ev EV_KEY Hbpl (Hev ev eq_refl))
    by (unfold EV_KEY; lia).
  destruct (Z.testbit (bitmap_value bpl ev) EV_KEY); cbn [Z.b2z Z.eqb andb];
    [|done].
  destruct keybits as [kb|]; [|done].
  rewrite (TEST_BIT_spec bpl kb KEY_Q Hbpl (Hkb kb eq_refl))
    by (unfold KEY_Q; lia).
  rewrite (TEST_BIT_spec bpl kb KEY_A Hbpl (Hkb kb eq_refl))
    by (unfold KEY_A; lia).
  by destruct (Z.testbit _ KEY_Q), (Z.testbit _ KEY_A).
Qed.

Lemma scan_loop_spec (bpl : Z) (nodes : list input_node) (max_fds : nat)
    (fds : list input_node) :
  scan_loop bpl nodes max_fds fds
  = fds ++ take (max_fds - length fds)
             (List.filter (keyboard_node bpl) nodes).
Proof.
  revert fds. induction nodes as [|n nodes IH]; intros fds;
    cbn [scan_loop List.filter].
  - by rewrite take_nil, app_nil_r.
  - unfold keyboard_node at 1.
    destruct (Nat.leb_spec max_fds (length fds)) as [Hfull|Hroom].
    + replace (max_fds - length fds)%nat with 0%nat by lia.
      by rewrite take_0, app_nil_r.
    + destruct (String.length (d_name n) <=? 5)%nat; cbn [negb andb];
        [apply IH|].
      destruct (String.eqb _ "event"); cbn [negb andb]; [|apply IH].
      destruct (node_open n); cbn [negb andb]; [|apply IH].
      destruct (is_keyboard bpl _ _ =? 0); cbn [negb]; [apply IH|].
      rewrite IH, length_app, <- app_assoc. cbn [length app].
      replace (max_fds - length fds)%nat
        with (S (max_fds - (length fds + 1)))%nat by lia.
      done.
Qed.

(** X19: [scan_keyboards] keeps, in directory order, the first [max_fds]
    entries that are named [event] plus at least one more character, can
    be opened, and report key events and the keys Q and A; so it never
    returns more than [max_fds].  [TEST_BIT] reads bit [n] of the bitmap
    whatever the width of [unsigned long]. *)
Theorem scan_keyboards_finds (bpl : Z) (dir : option (list input_node))
    (max_fds : nat) :
  0 < bpl →
  (∀ nodes n, dir = Some nodes → n ∈ nodes → node_words bpl n) →
  let kbds := scan_keyboards bpl dir max_fds in
  (length kbds ≤ max_fds)%nat ∧
  kbds = take max_fds (List.filter (keyboard_node bpl) (default [] dir)) ∧
  ∀ n, n ∈ kbds →
    (5 < String.length (d_name n))%nat ∧
    String.substring 0 5 (d_name n) = "event" ∧
    node_open n = true ∧
    has_bit bpl (node_evbits n) EV_KEY = true ∧
    has_bit bpl (node_keybits n) KEY_Q = true ∧
    has_bit bpl (node_keybits n) KEY_A = true.
Proof.
  intros Hbpl Hwords kbds.
  assert (Hk : kbds = take max_fds
                        (List.filter (keyboard_node bpl) (default [] dir))).
  { subst kbds. unfold scan_keyboards. destruct dir as [nodes|];
      cbn [default List.filter]; [|by rewrite take_nil].
    rewrite scan_loop_spec. cbn [length app]. by rewrite Nat.sub_0_r. }
  split; [rewrite Hk, length_take; lia|]. split; [done|].
  intros n Hn. rewrite Hk in Hn.
  apply (subseteq_take max_fds) in Hn.
  apply list_elem_of_In, filter_In in Hn as [Hin Hkbd].
  destruct dir as [nodes|]; cbn [default] in Hin; [|done].
  apply list_elem_of_In in Hin.
  destruct (Hwords nodes n eq_refl Hin) as [Hev Hkb].
  unfold keyboard_node in Hkbd.
  rewrite (is_keyboard_spec bpl _ _ Hbpl Hev Hkb) in Hkbd.
  apply andb_prop in Hkbd as [Hkbd Hbits].
  apply andb_prop in Hkbd as [Hkbd Hopen].
  apply andb_prop in Hkbd as [Hlen Hname].
  apply negb_true_iff, Nat.leb_gt in Hlen. apply String.eqb_eq in Hname.
  split; [done|]. split; [done|]. split; [done|].
  destruct (has_bit bpl (node_evbits n) EV_KEY),
    (has_bit bpl (node_keybits n) KEY_Q),
    (has_bit bpl (node_keybits n) KEY_A); done.
Qed.

Lemma scan_keyboards_finds_witness :
  scan_keyboards 32
    (Some [mkNode "event0" true (Some [2]) (Some [1073807360]);
           mkNode "mouse0" true (Some [2]) (Some [1073807360]);
           mkNode "event1" true (Some [4]) (Some [0])]) MAX_KEYBOARDS
  = [mkNode "event0" true (Some [2]) (Some [1073807360])].
Proof.
  assert (Hbpl : 0 < 32) by lia.
  assert (Hwords : ∀ nodes n,
            Some [mkNode "event0" true (Some [2]) (Some [1073807360]);
                  mkNode "mouse0" true (Some [2]) (Some [1073807360]);
                  mkNode "event1" true (Some [4]) (Some [0])] = Some nodes →
            n ∈ nodes → node_words 32 n).
  { intros nodes n [= <-] Hn.
    repeat (apply elem_of_cons in Hn as [->|Hn]);
      try (split; intros a [= <-]; repeat constructor; lia).
    by apply elem_of_nil in Hn. }
  exact (proj1 (proj2 (scan_keyboards_finds 32 _ MAX_KEYBOARDS Hbpl Hwords))).
Defined.

(** ** Drawing: which pixels are written *)













Lemma for_loop_store (c : Z) (n : nat) :
  ∀ (lo : nat) (fb : Framebuffer),
    (lo + n ≤ length (backbuf fb))%nat →
    for_loop n (Z.of_nat lo) (fun i => store i c) fb
    = Some (mkFb (width fb) (height fb) (stride_px fb)
              (take lo (backbuf fb) ++ replicate n c
               ++ drop (lo + n) (backbuf fb))).
Proof.
  induction n as [|n IH]; intros lo fb Hlen; cbn [for_loop].
  - cbn [replicate app]. rewrite Nat.add_0_r, take_drop. by destruct fb.
  - assert (Hst : store (Z.of_nat lo) c fb
                  = Some (mkFb (width fb) (height fb) (stride_px fb)
                            (<[lo := c]> (backbuf fb)))).
    { apply store_Some. split; [lia|]. by rewrite Nat2Z.id. }
    rewrite Hst. cbn [mbind option_bind].
    replace (Z.of_nat lo + 1) with (Z.of_nat (S lo)) by lia.
    rewrite IH by (cbn [backbuf]; rewrite length_insert; lia).
    cbn [width height stride_px backbuf]. f_equal. f_equal.
    rewrite (take_S_r _ _ c) by (apply list_lookup_insert_eq; lia).
    rewrite take_insert_ge by lia.
    rewrite drop_insert_lt by lia.
    rewrite <- app_assoc. cbn [replicate app].
    by replace (lo + S n)%nat with (S lo + n)%nat by lia.
Qed.

(** X21: On a framebuffer whose back buffer holds [stride_px * height]
    cells, [fb_clear] stays inside the buffer and sets every cell, the
    padding behind each line included, to the colour; [fb_flip] then shows
    exactly that. *)
Theorem fb_clear_fills (c : Z) (fb : Framebuffer) :
  fb_wf fb →
  ∃ fb', fb_clear c fb = Some fb' ∧ same_shape fb fb' ∧
    backbuf fb' = replicate (length (backbuf fb)) c ∧
    fb_flip fb' = replicate (length (backbuf fb)) c.
Proof.
  intros (Hw & Hh & Hlen). unfold fb_clear, for_lt.
  rewrite Z.sub_0_r, <- Hlen, Nat2Z.id.
  change 0 with (Z.of_nat 0) at 1.
  rewrite (for_loop_store c (length (backbuf fb)) 0 fb) by lia.
  eexists. split; [done|]. cbn [take app Nat.add].
  rewrite drop_all, app_nil_r. rewrite take_0. cbn [app].
  split; [|done]. unfold same_shape. cbn [width height stride_px backbuf].
  by rewrite length_replicate.
Qed.

Lemma fb_clear_fills_witness :
  ∃ fb', fb_clear 7 small_fb = Some fb' ∧ same_shape small_fb fb' ∧
    backbuf fb' = replicate 24 7 ∧ fb_flip fb' = replicate 24 7.
Proof.
  assert (Hwf : fb_wf small_fb) by (unfold fb_wf, small_fb; cbn; lia).
  exact (fb_clear_fills 7 small_fb Hwf).
Defined.






















(** ** Review screen: the duplicate column *)

Lemma has_dupes_fold (g : list Mapping) (l : list nat) (dupes : bool) :
  foldl (fun (dupes : bool) (i : nat) =>
           if dupes then true
           else existsb (fun j => keycode (slot g j) =? keycode (slot g i))
                        (seq (S i) (NUM_MAPPINGS - S i)))
        dupes l
  = dupes || existsb (fun i =>
                existsb (fun j => keycode (slot g j) =? keycode (slot g i))
                        (seq (S i) (NUM_MAPPINGS - S i))) l.
Proof.
  revert dupes. induction l as [|i l IH]; intros dupes; cbn [foldl existsb].
  - by rewrite orb_false_r.
  - rewrite IH. by destruct dupes.
Qed.

Lemma has_dupes_spec (g : list Mapping) :
  has_dupes g = true ↔
  ∃ i j, (i < j < NUM_MAPPINGS)%nat ∧
         keycode (slot g i) = keycode (slot g j).
Proof.
  unfold has_dupes. rewrite has_dupes_fold. cbn [orb].
  rewrite existsb_exists. split.
  - intros (i & Hi & H). apply existsb_exists in H as (j & Hj & H).
    apply in_seq in Hi, Hj. apply Z.eqb_eq in H.
    exists i, j. split; [lia|done].
  - intros (i & j & Hij & H). exists i. split; [apply in_seq; lia|].
    apply existsb_exists. exists j. split; [apply in_seq; lia|].
    apply Z.eqb_eq. done.
Qed.

Lemma label_length (g : list Mapping) (j : nat) :
  table_wf g → (j < NUM_MAPPINGS)%nat →
  (1 ≤ String.length (label (slot g j)) ≤ 10)%nat.
Proof.
  intros H Hj. pose proof (table_wf_slot g j H) as Hs.
  assert (label (slot g j) = label (slot init_mappings j)) as ->.
  { unfold fixed_part in Hs. congruence. }
  unfold NUM_MAPPINGS in Hj.
  do 16 (destruct j as [|j]; [cbn; lia|]). lia.
Qed.

(** The labels collected so far, a comma and a blank between them. *)
Lemma dups_fold (g : list Mapping) (i : nat) (js : list nat) :
  table_wf g → (∀ j, j ∈ js → (j < NUM_MAPPINGS)%nat) →
  ∀ dups, (String.length dups + 12 * length js ≤ 255)%nat →
    foldl (dups_step g i) dups js
    = foldl (fun d j => (if negb (String.eqb d "") then d +:+ ", " else d)
                        +:+ label (slot g j)) dups
            (List.filter (fun j => negb (j =? i)%nat
                           && (keycode (slot g j) =? keycode (slot g i))) js).
Proof.
  intros Hwf. induction js as [|j js IH]; intros Hjs dups Hlen; [done|].
  cbn [foldl List.filter length] in *. unfold dups_step at 2.
  assert (Hj : (j < NUM_MAPPINGS)%nat) by (apply Hjs; by left).
  assert (Hjs' : ∀ j', j' ∈ js → (j' < NUM_MAPPINGS)%nat)
    by (intros j' Hj'; apply Hjs; by right).
  pose proof (label_length g j Hwf Hj) as Hlab.
  destruct (j =? i)%nat; cbn [negb andb]; [apply IH; [done|lia]|].
  destruct (keycode (slot g j) =? keycode (slot g i));
    [|apply IH; [done|lia]].
  cbn [foldl]. unfold strncat.
  assert (Hsep : (if negb (String.eqb dups "")
                  then dups +:+ String.substring 0
                                  (256 - String.length dups - 1) ", "
                  else dups)
                 = (if negb (String.eqb dups "") then dups +:+ ", "
                    else dups)).
  { destruct (negb (String.eqb dups "")); [|done].
    rewrite substring_0_all; [done|]. cbn [String.length]. lia. }
  rewrite Hsep.
  set (d := if negb (String.eqb dups "") then dups +:+ ", " else dups).
  assert (Hd : (String.length d ≤ String.length dups + 2)%nat).
  { subst d. destruct (negb (String.eqb dups "")); [|lia].
    rewrite string_length_app. cbn [String.length]. lia. }
  rewrite substring_0_all by lia.
  apply IH; [done|]. rewrite string_length_app. lia.
Qed.

Lemma dups_join_from (ls : list string) :
  ∀ d, d ≠ "" →
    foldl (fun d l => (if negb (String.eqb d "") then d +:+ ", " else d)
                      +:+ l) d ls
    = d +:+ foldr (fun l acc => ", " +:+ l +:+ acc) "" ls.
Proof.
  induction ls as [|l ls IH]; intros d Hd; cbn [foldl foldr].
  - by rewrite append_nil_r.
  - rewrite (proj2 (String.eqb_neq d "") Hd). cbn [negb].
    rewrite IH; [by rewrite !append_assoc|]. by destruct d.
Qed.

Lemma concat_tail (l : string) (ls : list string) :
  String.concat ", " (l :: ls)
  = l +:+ foldr (fun l acc => ", " +:+ l +:+ acc) "" ls.
Proof.
  revert l. induction ls as [|l' ls IH]; intros l.
  - cbn [String.concat foldr]. by rewrite append_nil_r.
  - change (String.concat ", " (l :: l' :: ls))
      with (l +:+ ", " +:+ String.concat ", " (l' :: ls)).
    by rewrite IH.
Qed.

Lemma dups_join (ls : list string) :
  Forall (fun l => l ≠ "") ls →
  foldl (fun d l => (if negb (String.eqb d "") then d +:+ ", " else d)
                    +:+ l) "" ls
  = String.concat ", " ls.
Proof.
  intros Hls. destruct Hls as [|l ls Hl _]; [done|].
  cbn [foldl]. change (negb (String.eqb "" "")) with false. cbv iota.
  change ("" +:+ l) with l.
  by rewrite dups_join_from, concat_tail.
Qed.

Lemma foldl_labels (g : list Mapping) (js : list nat) (d : string) :
  foldl (fun d j => (if negb (String.eqb d "") then d +:+ ", " else d)
                    +:+ label (slot g j)) d js
  = foldl (fun d l => (if negb (String.eqb d "") then d +:+ ", " else d)
                      +:+ l) d ((fun j => label (slot g j)) <$> js).
Proof.
  revert d. induction js as [|j js IH]; intros d; [done|].
  cbn [foldl fmap list_fmap]. apply IH.
Qed.

Lemma same_key_slots_spec (g : list Mapping) (i j : nat) :
  j ∈ same_key_slots g i ↔
  (j < NUM_MAPPINGS)%nat ∧ j ≠ i ∧ keycode (slot g j) = keycode (slot g i).
Proof.
  unfold same_key_slots.
  rewrite list_elem_of_In, filter_In, in_seq, andb_true_iff, negb_true_iff,
    Nat.eqb_neq, Z.eqb_eq.
  split; [intros [? [? ?]]|intros [? [? ?]]]; repeat split; try done; lia.
Qed.

(** X25: The Duplicate column of the review screen.  The scan sets
    [has_dupes] exactly when two slots hold the same key code.  The text
    shown in row [i] lists the labels of the other slots bound to the key
    of slot [i], in slot order, separated by a comma and a blank, nothing
    being cut off by the 256-byte buffer; it is empty exactly when no
    other slot has that key. *)
Theorem duplicate_column (g : list Mapping) (i : nat) :
  table_wf g → (i < NUM_MAPPINGS)%nat →
  (has_dupes g = true ↔
   ∃ a b, (a < b < NUM_MAPPINGS)%nat ∧
          keycode (slot g a) = keycode (slot g b)) ∧
  dup_column g i
  = String.concat ", " ((fun j => label (slot g j)) <$> same_key_slots g i) ∧
  (dup_column g i = "" ↔ same_key_slots g i = []).
Proof.
  intros Hwf Hi. split; [apply has_dupes_spec|].
  assert (Hlabels : Forall (fun l => l ≠ "")
                      ((fun j => label (slot g j)) <$> same_key_slots g i)).
  { apply Forall_fmap, Forall_forall. intros j Hj.
    apply same_key_slots_spec in Hj as (Hj & _ & _).
    pose proof (label_length g j Hwf Hj) as Hl. cbn.
    destruct (label (slot g j)); [cbn in Hl; lia|done]. }
  assert (Hcol : dup_column g i
                 = String.concat ", "
                     ((fun j => label (slot g j)) <$> same_key_slots g i)).
  { unfold dup_column. destruct (has_dupes g) eqn:Hd.
    - rewrite (dups_fold g i (seq 0 NUM_MAPPINGS) Hwf).
      + fold (same_key_slots g i). by rewrite foldl_labels, dups_join.
      + intros j Hj. apply elem_of_seq in Hj. lia.
      + rewrite length_seq. unfold NUM_MAPPINGS. cbn. lia.
    - assert (Hnone : same_key_slots g i = []).
      { destruct (same_key_slots g i) as [|j js] eqn:E; [done|].
        assert (Hj : j ∈ same_key_slots g i) by (rewrite E; by left).
        apply same_key_slots_spec in Hj as (Hj & Hne & Hk).
        assert (Hdup : has_dupes g = true).
        { apply has_dupes_spec.
          destruct (Nat.lt_ge_cases i j).
          - exists i, j. split; [lia|done].
          - exists j, i. split; [lia|done]. }
        congruence. }
      by rewrite Hnone. }
  split; [done|]. rewrite Hcol.
  destruct (same_key_slots g i) as [|j js]; [done|].
  cbn [fmap list_fmap]. rewrite concat_tail.
  apply List.Forall_inv in Hlabels.
  split; [|done]. intros H. destruct (label (slot g j)); done.
Qed.

Lemma duplicate_column_witness :
  dup_column (<[5%nat := set_keycode KEY_W (slot init_mappings 5)]>
                (<[9%nat := set_keycode KEY_W (slot init_mappings 9)]>
                   init_mappings)) 0%nat
  = String.concat ", "
      ((fun j => label (slot (<[5%nat := set_keycode KEY_W (slot init_mappings 5)]>
                                (<[9%nat := set_keycode KEY_W
                                          (slot init_mappings 9)]>
                                   init_mappings)) j))
         <$> same_key_slots
               (<[5%nat := set_keycode KEY_W (slot init_mappings 5)]>
                  (<[9%nat := set_keycode KEY_W (slot init_mappings 9)]>
                     init_mappings)) 0%nat).
Proof.
  assert (Hwf : table_wf
                  (<[5%nat := set_keycode KEY_W (slot init_mappings 5)]>
                     (<[9%nat := set_keycode KEY_W (slot init_mappings 9)]>
                        init_mappings)))
    by reflexivity.
  assert (Hi : (0 < NUM_MAPPINGS)%nat) by (unfold NUM_MAPPINGS; lia).
  exact (proj1 (proj2 (duplicate_column _ 0%nat Hwf Hi))).
Defined.

(** ** Remap wizard: saving the script *)

Ltac case_ifs :=
  repeat (match goal with
          | |- context [if ?c then _ else _] => destruct c
          end; wizard_fields).

(** A run of Down frames moves the selection down by as many entries. *)
Lemma browse_down (env : wizard_env) (k : nat) :
  ∀ (a : GuimapApp) (g : list Mapping) (s : Z) (tail : list frame)
    (files : list file),
    state a = GUIMAP_BROWSE → b_selected (browser a) = s → 0 ≤ s →
    s + Z.of_nat k < Z.of_nat (length (b_entries (browser a))) →
    ∃ a',
      guimap_loop env (replicate k (mkFrame KEY_DOWN []) ++ tail)
        (mkWizard a g files)
      = guimap_loop env tail (mkWizard a' g files) ∧
      state a' = GUIMAP_BROWSE ∧
      b_selected (browser a') = s + Z.of_nat k ∧
      b_entries (browser a') = b_entries (browser a) ∧
      b_path (browser a') = b_path (browser a) ∧
      save_path a' = save_path a ∧ applied a' = applied a.
Proof.
  induction k as [|k IH]; intros a g s tail files Hst Hs Hs0 Hk.
  - exists a. cbn [replicate app]. rewrite Z.add_0_r. by repeat split.
  - cbn [replicate app guimap_loop]. unfold guimap_frame. cbn [w_app].
    rewrite Hst. unfold frame_browse.
    rewrite (frame_nav_quiet env (mkFrame KEY_DOWN []) _ eq_refl).
    cbn [f_key w_app w_map w_files].
    change ((KEY_DOWN =? KEY_UP) || (0 <? 0)) with false.
    change ((KEY_DOWN =? KEY_DOWN) || (0 >? 0)) with true.
    cbv iota. wizard_fields. rewrite Hs.
    destruct (Z.geb_spec (s + 1)
                (Z.of_nat (length (b_entries (browser a))))) as [?|_];
      [lia|].
    match goal with
    | |- context [guimap_loop env _ (mkWizard ?x g files)] =>
        destruct (IH x g (s + 1) tail files)
          as (a' & Hrun & Hst' & Hsel' & Hent' & Hpath' & Hsave' & Happ')
    end.
    + by wizard_fields.
    + unfold browse_scroll. wizard_fields. by case_ifs.
    + lia.
    + unfold browse_scroll. wizard_fields. case_ifs; lia.
    + exists a'. rewrite Hrun. split; [done|]. split; [done|].
      split; [rewrite Hsel'; lia|].
      revert Hent' Hpath' Hsave' Happ'. unfold browse_scroll. wizard_fields.
      case_ifs; by intros -> -> -> ->.
Qed.

(** The listing of [/mnt] with fewer than 255 visible subdirectories ends
    with the export entry. *)
Lemma mnt_listing (env : wizard_env) (ds : list (string * bool)) :
  readdir env "/mnt" = Some ds → (length (shown ds) < 255)%nat →
  b_path (browser_load env "/mnt") = "/mnt" ∧
  b_selected (browser_load env "/mnt") = 0 ∧
  length (b_entries (browser_load env "/mnt")) = (length (shown ds) + 2)%nat ∧
  b_entries (browser_load env "/mnt") !! S (length (shown ds))
  = Some export_entry.
Proof.
  intros Hread Hn.
  pose proof (browser_load_entries env "/mnt" ds Hread) as Hents.
  cbv zeta in Hents.
  change (if streq (String.substring 0 511 "/mnt") "/"
          then [] else [parent_entry]) with [parent_entry] in Hents.
  cbn [length] in Hents.
  rewrite take_ge in Hents by (unfold MAX_DIR_ENTRIES; lia).
  set (sorted := if (1 <? length (shown ds))%nat
                 then qsort_entries (shown ds) else shown ds) in Hents.
  assert (Hlen : length sorted = length (shown ds)).
  { subst sorted. destruct (1 <? length (shown ds))%nat; [|done].
    apply qsort_entries_length. }
  assert (Hhead : b_path (browser_load env "/mnt") = "/mnt"
                  ∧ b_selected (browser_load env "/mnt") = 0).
  { unfold browser_load. rewrite Hread. by split. }
  destruct Hhead as [Hpath Hsel].
  split; [done|]. split; [done|].
  rewrite length_app in Hents. cbn [length] in Hents.
  destruct (Nat.ltb_spec (1 + length (shown ds)) MAX_DIR_ENTRIES) as [_|Hge];
    [|unfold MAX_DIR_ENTRIES in Hge; lia].
  rewrite Hents. rewrite !length_app. cbn [length]. split; [lia|].
  cbn [app]. cbn [lookup list_lookup]. rewrite <- Hlen.
  by apply list_lookup_middle.
Qed.

Lemma save_flow_run (env : wizard_env) (a : GuimapApp) (g : list Mapping)
    (fs : list file) (ds : list (string * bool)) :
  state a = GUIMAP_REVIEW →
  readdir env "/mnt" = Some ds → (length (shown ds) < 255)%nat →
  ∃ a',
    guimap_loop env
      (mkFrame KEY_S []
       :: replicate (S (length (shown ds))) (mkFrame KEY_DOWN [])
       ++ [mkFrame KEY_ENTER []]) (mkWizard a g fs)
    = mkWizard a' g
        (if fopen_ok env "/mnt/keyboard2thejoystick.sh"
         then fs ++ [mkFile "/mnt/keyboard2thejoystick.sh" (script_text g)
                            MODE_0755]
         else fs) ∧
    state a' = GUIMAP_REVIEW ∧ applied a' = applied a ∧
    save_path a' = (if fopen_ok env "/mnt/keyboard2thejoystick.sh"
                    then "/mnt/keyboard2thejoystick.sh" else save_path a).
Proof.
  intros Hst Hread Hn.
  destruct (mnt_listing env ds Hread Hn) as (Hpath & Hsel & Hlen & Hlast).
  cbn [guimap_loop]. unfold guimap_frame at 1. cbn [w_app]. rewrite Hst.
  unfold frame_review.
  rewrite (frame_nav_quiet env (mkFrame KEY_S []) _ eq_refl).
  cbn [f_key w_map w_files].
  change ((KEY_S =? KEY_UP) || (0 <? 0)) with false.
  change ((KEY_S =? KEY_DOWN) || (0 >? 0)) with false.
  change (KEY_S =? KEY_1) with false. change (KEY_S =? KEY_A) with false.
  change ((KEY_S =? KEY_Q) || (KEY_S =? KEY_ESC)) with false.
  change (KEY_S =? KEY_S) with true. cbv iota.
  match goal with
  | |- context [guimap_loop env _ (mkWizard ?x g fs)] =>
      destruct (browse_down env (S (length (shown ds))) x g 0
                  [mkFrame KEY_ENTER []] fs)
        as (a' & Hrun & Hst' & Hsel' & Hent' & Hpath' & Hsave' & Happ')
  end.
  { by wizard_fields. }
  { by wizard_fields. }
  { lia. }
  { wizard_fields. rewrite Hlen. lia. }
  rewrite Hrun. clear Hrun. revert Hent' Hpath' Hsave' Happ'. wizard_fields.
  intros Hent' Hpath' Hsave' Happ'.
  cbn [guimap_loop]. unfold guimap_frame. cbn [w_app]. rewrite Hst'.
  unfold frame_browse.
  rewrite (frame_nav_quiet env (mkFrame KEY_ENTER []) _ eq_refl).
  cbn [f_key]. wizard_fields.
  change ((KEY_ENTER =? KEY_UP) || (0 <? 0)) with false.
  change ((KEY_ENTER =? KEY_DOWN) || (0 >? 0)) with false.
  change ((KEY_ENTER =? KEY_ENTER) || false) with true. cbv iota.
  rewrite Hsel', Hent'.
  replace (Z.to_nat (0 + Z.of_nat (S (length (shown ds)))))
    with (S (length (shown ds))) by lia.
  rewrite Hlast. cbn [de_name de_is_dir export_entry].
  change (streq ">> Export here <<" "..") with false. cbv iota.
  unfold guimap_save_script. rewrite Hpath', Hpath.
  change (script_path "/mnt") with "/mnt/keyboard2thejoystick.sh".
  destruct (fopen_ok env "/mnt/keyboard2thejoystick.sh"); wizard_fields;
    eexists; (split; [reflexivity|]); wizard_fields; by repeat split.
Qed.

(** X28: Saving from the review screen.  With [/mnt] readable and fewer
    than 255 visible subdirectories in it, the frames S, Down once for
    every entry above the export entry, and Enter (no joystick event in
    between) lead back to REVIEW with the table untouched.  If the file
    can be opened, exactly one file is added:
    [/mnt/keyboard2thejoystick.sh] with the script for the table and mode
    0755, and its path is remembered for the "Saved to" line; if not,
    nothing is written and nothing is remembered. *)
Theorem save_flow_writes_script (env : wizard_env) (w : wizard)
    (ds : list (string * bool)) :
  state (w_app w) = GUIMAP_REVIEW →
  readdir env "/mnt" = Some ds → (length (shown ds) < 255)%nat →
  let frames := mkFrame KEY_S []
                :: replicate (S (length (shown ds))) (mkFrame KEY_DOWN [])
                ++ [mkFrame KEY_ENTER []] in
  let w' := guimap_loop env frames w in
  state (w_app w') = GUIMAP_REVIEW ∧ w_map w' = w_map w ∧
  applied (w_app w') = applied (w_app w) ∧
  if fopen_ok env "/mnt/keyboard2thejoystick.sh" then
    w_files w' = w_files w ++ [mkFile "/mnt/keyboard2thejoystick.sh"
                                 (script_text (w_map w)) MODE_0755] ∧
    save_path (w_app w') = "/mnt/keyboard2thejoystick.sh"
  else
    w_files w' = w_files w ∧ save_path (w_app w') = save_path (w_app w).
Proof.
  intros Hst Hread Hn frames w'. subst frames w'.
  destruct w as [a g fs]. cbn [w_app w_map w_files] in *.
  destruct (save_flow_run env a g fs ds Hst Hread Hn)
    as (a' & -> & Hst' & Happ' & Hsave').
  cbn [w_app w_map w_files]. rewrite Hsave'.
  split; [done|]. split; [done|]. split; [done|].
  by destruct (fopen_ok env "/mnt/keyboard2thejoystick.sh").
Qed.

Lemma save_flow_writes_script_witness :
  w_files
    (guimap_loop
       (mkEnv true 1 false (fun _ => Some [("roms", true)]) (fun _ => true))
       (mkFrame KEY_S [] :: replicate 2 (mkFrame KEY_DOWN [])
        ++ [mkFrame KEY_ENTER []])
       (mkWizard review_app init_mappings []))
  = [mkFile "/mnt/keyboard2thejoystick.sh" (script_text init_mappings)
            MODE_0755].
Proof.
  assert (Hn : (length (shown [("roms", true)]) < 255)%nat)
    by (vm_compute; lia).
  exact (proj1 (proj2 (proj2 (proj2
    (save_flow_writes_script
       (mkEnv true 1 false (fun _ => Some [("roms", true)]) (fun _ => true))
       (mkWizard review_app init_mappings []) [("roms", true)]
       eq_refl eq_refl Hn))))).
Defined.

(** ** Remap wizard: how it ends *)

Lemma guimap_frame_applied (env : wizard_env) (fr : frame) (w : wizard) :
  ((guimap_frame env fr w).2 = false →
   applied (w_app (guimap_frame env fr w).1) = applied (w_app w)) ∧
  ((guimap_frame env fr w).2 = true →
   state (w_app w) = GUIMAP_REVIEW ∧
   w_map (guimap_frame env fr w).1 = w_map w ∧
   w_files (guimap_frame env fr w).1 = w_files w ∧
   (applied (w_app (guimap_frame env fr w).1) = applied (w_app w) ∨
    chooses_apply fr w)).
Proof.
  unfold guimap_frame, chooses_apply. destruct (state (w_app w)) eqn:Hst.
  - unfold frame_map. split; [|by case_ifs]. by case_ifs.
  - unfold frame_review.
    pose proof (frame_nav_app env fr (w_app w)) as Hnav.
    destruct (frame_nav env fr (w_app w)) as [[a jdy] jconfirm].
    cbn [fst] in Hnav. rewrite Hnav. clear Hnav.
    set (y := joy_prev_y a). clearbody y. wizard_fields.
    unfold GUIMAP_REVIEW_APPLY.
    repeat match goal with
           | |- context [if ?x =? ?k then _ else _] =>
               destruct (Z.eqb_spec x k)
           | |- context [if ?c then _ else _] => destruct c eqn:?
           end;
      unfold redo_selected; wizard_fields;
      (split; [try done|]); try (intros; discriminate);
      intros _; (split; [done|]); (split; [done|]); (split; [done|]);
      first [by left | right; split; [done|]; by (left + right)].
  - split; [|done]. intros _. unfold frame_browse.
    pose proof (frame_nav_app env fr (w_app w)) as Hnav.
    destruct (frame_nav env fr (w_app w)) as [[a jdy] jconfirm].
    cbn [fst] in Hnav. rewrite Hnav. clear Hnav.
    set (y := joy_prev_y a). clearbody y.
    unfold guimap_save_script. wizard_fields.
    repeat match goal with
           | |- context [if ?c then _ else _] => destruct c eqn:?
           | |- context [match ?c with Some _ => _ | None => _ end] =>
               destruct c eqn:?
           end; by wizard_fields.
Qed.

Lemma guimap_loop_applied (env : wizard_env) (frames : list frame) :
  ∀ w, applied (w_app w) = false →
    applied (w_app (guimap_loop env frames w)) = true →
    ∃ pre fr post,
      frames = pre ++ fr :: post ∧
      applied (w_app (guimap_loop env pre w)) = false ∧
      chooses_apply fr (guimap_loop env pre w) ∧
      w_map (guimap_loop env frames w) = w_map (guimap_loop env pre w) ∧
      w_files (guimap_loop env frames w) = w_files (guimap_loop env pre w).
Proof.
  induction frames as [|fr frames IH]; intros w Hw Hend;
    cbn [guimap_loop] in *; [congruence|].
  destruct (guimap_frame_applied env fr w) as [Hkeep Hleave].
  destruct (guimap_frame env fr w) as [w' b] eqn:Hfr.
  cbn [fst snd] in *. destruct b.
  - destruct (Hleave eq_refl) as (Hst & Hmap & Hfiles & [Happ|Happ]);
      [congruence|].
    exists [], fr, frames. cbn [app guimap_loop].
    split; [done|]. split; [done|]. split; [done|]. by split.
  - specialize (Hkeep eq_refl).
    destruct (IH w') as (pre & fr' & post & -> & Hpre & Hch & Hmap & Hfiles);
      [congruence|done|].
    exists (fr :: pre), fr', post. cbn [app guimap_loop]. rewrite Hfr.
    split; [done|]. split; [done|]. split; [done|]. by split.
Qed.

(** X29: [guimap_run] returns 0 or 1, and 0 only through Apply: the
    framebuffer and a keyboard were there, and some frame met the wizard
    in REVIEW with the key [A] pressed or the Apply row selected.  The
    table and the files it returns are those of that moment; later frames
    are not read. *)
Theorem success_needs_apply (env : wizard_env) (frames : list frame)
    (g : list Mapping) (fs : list file) :
  ((guimap_run env frames g fs).2 = 0 ∨ (guimap_run env frames g fs).2 = 1) ∧
  ((guimap_run env frames g fs).2 = 0 →
   fb_ok env = true ∧ kbd_found env ≠ 0%nat ∧
   ∃ pre fr post,
     frames = pre ++ fr :: post ∧
     chooses_apply fr (guimap_loop env pre (mkWizard initial_app g fs)) ∧
     (guimap_run env frames g fs).1.1
     = w_map (guimap_loop env pre (mkWizard initial_app g fs)) ∧
     (guimap_run env frames g fs).1.2
     = w_files (guimap_loop env pre (mkWizard initial_app g fs))).
Proof.
  unfold guimap_run.
  destruct (fb_ok env); cbn [negb]; [|by split; [right|]].
  destruct (Nat.eqb_spec (kbd_found env) 0) as [?|Hk]; [by split; [right|]|].
  cbn [fst snd].
  destruct (applied (w_app (guimap_loop env frames
                              (mkWizard initial_app g fs)))) eqn:Happ;
    [|by split; [right|]].
  split; [by left|]. intros _. split; [done|]. split; [done|].
  destruct (guimap_loop_applied env frames (mkWizard initial_app g fs)
              eq_refl Happ)
    as (pre & fr & post & Hfr & _ & Hch & Hmap & Hfiles).
  by exists pre, fr, post.
Qed.

Lemma success_needs_apply_witness :
  ∃ pre fr post,
    ((fun k => mkFrame k []) <$> replicate 16 KEY_K) ++ [mkFrame KEY_A []]
    = pre ++ fr :: post ∧
    chooses_apply fr
      (guimap_loop (mkEnv true 1 false (fun _ => None) (fun _ => true)) pre
         (mkWizard initial_app init_mappings [])) ∧
    (guimap_run (mkEnv true 1 false (fun _ => None) (fun _ => true))
       (((fun k => mkFrame k []) <$> replicate 16 KEY_K)
        ++ [mkFrame KEY_A []]) init_mappings []).1.1
    = w_map (guimap_loop (mkEnv true 1 false (fun _ => None) (fun _ => true))
               pre (mkWizard initial_app init_mappings [])) ∧
    (guimap_run (mkEnv true 1 false (fun _ => None) (fun _ => true))
       (((fun k => mkFrame k []) <$> replicate 16 KEY_K)
        ++ [mkFrame KEY_A []]) init_mappings []).1.2
    = w_files (guimap_loop
                 (mkEnv true 1 false (fun _ => None) (fun _ => true))
                 pre (mkWizard initial_app init_mappings [])).
Proof.
  assert (Hrun : (guimap_run
                    (mkEnv true 1 false (fun _ => None) (fun _ => true))
                    (((fun k => mkFrame k []) <$> replicate 16 KEY_K)
                     ++ [mkFrame KEY_A []]) init_mappings []).2 = 0)
    by (vm_compute; reflexivity).
  exact (proj2 (proj2 (proj2 (success_needs_apply _ _ _ _) Hrun))).
Defined.

(** ** Browse screen: the rows *)

Lemma browse_rows_loop_spec (b : DirBrowser) (n : nat) :
  ∀ i, 0 ≤ i → i + Z.of_nat n ≤ b_scroll b + 18 →
    browse_rows_loop n i b
    = Some (rows_from (b_selected b) i
              (take n (drop (Z.to_nat i) (b_entries b)))).
Proof.
  induction n as [|n IH]; intros i Hi Hn; cbn [browse_rows_loop].
  - by rewrite take_0.
  - destruct (Z.ltb_spec i (Z.of_nat (length (b_entries b)))) as [Hlt|Hge];
      cbn [andb].
    + destruct (Z.ltb_spec i (b_scroll b + 18)); [|lia].
      destruct (Z.ltb_spec i 0); [lia|].
      destruct (lookup_lt_is_Some_2 (b_entries b) (Z.to_nat i)) as [e He];
        [lia|].
      rewrite He. cbn [mbind option_bind]. rewrite IH by lia.
      cbn [mbind option_bind].
      rewrite (drop_S _ e (Z.to_nat i) He). cbn [take rows_from].
      by replace (Z.to_nat (i + 1)) with (S (Z.to_nat i)) by lia.
    + rewrite drop_ge by lia. by rewrite take_nil.
Qed.

Lemma rows_from_lookup (sel i : Z) (l : list DirEntry) (k : nat)
    (e : DirEntry) :
  l !! k = Some e →
  rows_from sel i l !! k = Some (e, i + Z.of_nat k =? sel).
Proof.
  revert i k. induction l as [|x l IH]; intros i [|k] H; try done.
  - cbn in H. injection H as ->. cbn. by rewrite Z.add_0_r.
  - cbn [rows_from].
    change (rows_from sel (i + 1) l !! k = Some (e, i + Z.of_nat (S k) =? sel)).
    rewrite (IH (i + 1) k H). do 3 f_equal. lia.
Qed.

Lemma rows_from_length (sel i : Z) (l : list DirEntry) :
  length (rows_from sel i l) = length l.
Proof.
  revert i. induction l as [|x l IH]; intros i; [done|].
  cbn [rows_from length]. by rewrite IH.
Qed.

(** X30: In every state the wizard can reach with a listing that is not
    empty, the row loop of the browse screen reads only entries that were
    loaded: it shows the entries of the 18-row window that starts at
    [scroll], and the selected entry is one of them and is the highlighted
    one.  With an empty listing, which takes a failed [opendir] on ["/"],
    nothing is read as long as [scroll] is 0; once Down has moved the
    selection and with it [scroll] to -1, the loop reads [entries[-1]],
    outside the array. *)
Theorem browse_rows_in_bounds (env : wizard_env) (frames : list frame)
    (g : list Mapping) (fs : list file) :
  table_wf g →
  let b := browser (w_app (guimap_loop env frames
                             (mkWizard initial_app g fs))) in
  (length (window_rows b) ≤ 18)%nat ∧
  (b_entries b ≠ [] →
   browse_rows b = Some (window_rows b) ∧
   ∃ e, b_entries b !! Z.to_nat (b_selected b) = Some e ∧
        window_rows b !! Z.to_nat (b_selected b - b_scroll b)
        = Some (e, true)) ∧
  (b_entries b = [] →
   browse_rows b = if b_scroll b <? 0 then None else Some []).
Proof.
  intros Hwf b.
  assert (Hb : browser_ok b).
  { apply (guimap_loop_ok env frames _ (wizard_ok_initial g fs Hwf)). }
  clearbody b. destruct Hb as (Hlen & Hwin & Hsel).
  split; [unfold window_rows; rewrite rows_from_length, length_take; lia|].
  split.
  - intros Hne. destruct Hsel as [[Hnil _]|[Hscroll Hs]]; [done|].
    split; [apply browse_rows_loop_spec; lia|].
    destruct (lookup_lt_is_Some_2 (b_entries b) (Z.to_nat (b_selected b)))
      as [e He]; [lia|].
    exists e. split; [done|]. unfold window_rows.
    rewrite (rows_from_lookup _ _ _ _ e).
    + do 2 f_equal. apply Z.eqb_eq. lia.
    + rewrite lookup_take_lt by lia. rewrite lookup_drop.
      by replace (Z.to_nat (b_scroll b)
                  + Z.to_nat (b_selected b - b_scroll b))%nat
        with (Z.to_nat (b_selected b)) by lia.
  - intros Hnil. unfold browse_rows.
    change 18%nat with (S 17). cbn [browse_rows_loop]. rewrite Hnil.
    cbn [length].
    destruct (Z.ltb_spec (b_scroll b) 0) as [Hneg|Hpos].
    + destruct (Z.ltb_spec (b_scroll b) (Z.of_nat 0)); [|lia].
      by destruct (Z.ltb_spec (b_scroll b) (b_scroll b + 18)); [|lia].
    + by destruct (Z.ltb_spec (b_scroll b) (Z.of_nat 0)); [lia|].
Qed.

(** With [opendir] failing everywhere: sixteen keys, S, Enter on [".."]
    (which leads to ["/"] and an empty listing) and Down leave the browse
    screen reading [entries[-1]]. *)
Lemma browse_rows_in_bounds_witness :
  browse_rows
    (browser
       (w_app
          (guimap_loop
             (mkEnv true 1 false (fun _ => None) (fun _ => true))
             (((fun k => mkFrame k []) <$> replicate 16 KEY_K)
              ++ [mkFrame KEY_S []; mkFrame KEY_ENTER [];
                  mkFrame KEY_DOWN []])
             (mkWizard initial_app init_mappings []))))
  = None.
Proof.
  exact (proj2 (proj2
    (browse_rows_in_bounds
       (mkEnv true 1 false (fun _ => None) (fun _ => true))
       (((fun k => mkFrame k []) <$> replicate 16 KEY_K)
        ++ [mkFrame KEY_S []; mkFrame KEY_ENTER []; mkFrame KEY_DOWN []])
       init_mappings [] table_wf_init)) eq_refl).
Defined.
